(** * API failure simulator: the request handlers of [routers/simulate.py]
      and the fault catalog of [utils/errors.py], embedded and verified.

    Conventions of the embedding.
    - Python [int] is [Z]; [bool] is [bool]; [str] is [string], one [ascii]
      per code point (code points below 256).
    - Python [dict] with string keys is [gmap string _]; the static tables
      keyed by status code are [gmap Z _].
    - [raise HTTPException(status, detail)] is the [Raise] outcome of
      [http_result]; a returned response is [Return]; an exception that no
      handler catches is [Uncaught].
    - Values the handlers read from the environment ([time.time()],
      [random.*], [uuid4], [datetime.utcnow()]) are arguments of the handler.
    - Python [float] is the IEEE 754 double: a finite double is carried by
      its exact rational value, and every float operation of the source
      rounds its exact result to the nearest double, ties to even
      ([PyFloat.round]); converting an [int] that is out of range raises
      [OverflowError].  The sign of zero is not modelled: no modelled
      field shows it.
    - [asyncio.sleep] / [time.sleep] are recorded as [Sleep] events. *)

From Stdlib Require Import ZArith QArith Qround Qabs Qminmax Lqa Lia String Ascii List.
From stdpp Require Import gmap strings list fin_maps pretty.
Close Scope Q_scope.
Local Open Scope string_scope.
Local Open Scope Z_scope.

(** ** Python string primitives used by the handlers *)

Module PyStr.

(** The double-quote character, code point 34. *)
Definition dq : string := String (ascii_of_nat 34) EmptyString.

(** [q s] is [s] between two double quotes. *)
Definition q (s : string) : string := dq +:+ s +:+ dq.

(** [str.lower()] on the letters [A-Z]; other characters are kept. *)
Definition lower_char (c : ascii) : ascii :=
  let n := nat_of_ascii c in
  if ((65 <=? n)%nat && (n <=? 90)%nat)%bool then ascii_of_nat (n + 32) else c.

Fixpoint lower (s : string) : string :=
  match s with
  | EmptyString => EmptyString
  | String c s' => String (lower_char c) (lower s')
  end.

(** [s.replace(a, b)] for one-character [a] and [b]. *)
Fixpoint replace (a b : ascii) (s : string) : string :=
  match s with
  | EmptyString => EmptyString
  | String c s' => String (if Ascii.eqb c a then b else c) (replace a b s')
  end.

(** [s.split(sep)] for a one-character separator: always at least one
    field, [n] separators give [n + 1] fields. *)
Fixpoint split (sep : ascii) (s : string) : list string :=
  match s with
  | EmptyString => [EmptyString]
  | String c s' =>
      if Ascii.eqb c sep then EmptyString :: split sep s'
      else match split sep s' with
           | h :: t => String c h :: t
           | [] => [String c EmptyString]
           end
  end.

(** [str.isspace] on one character: tab, LF, VT, FF, CR, the separators
    28..31, space, NEL (133) and NBSP (160). *)
Definition is_space (c : ascii) : bool :=
  let n := nat_of_ascii c in
  (((9 <=? n) && (n <=? 13)) || ((28 <=? n) && (n <=? 32))
   || (n =? 133) || (n =? 160))%nat%bool.

Fixpoint lstrip (s : string) : string :=
  match s with
  | EmptyString => EmptyString
  | String c s' => if is_space c then lstrip s' else s
  end.

Fixpoint rstrip (s : string) : string :=
  match s with
  | EmptyString => EmptyString
  | String c s' =>
      match rstrip s' with
      | EmptyString => if is_space c then EmptyString else String c EmptyString
      | r => String c r
      end
  end.

(** [s.strip()] *)
Definition strip (s : string) : string := rstrip (lstrip s).

Definition digit_val (c : ascii) : option Z :=
  let n := nat_of_ascii c in
  if ((48 <=? n) && (n <=? 57))%nat%bool then Some (Z.of_nat (n - 48)) else None.

(** The digits of a decimal literal after its sign.  [acc] is the value
    read so far, [n] the number of digits read so far, [after_digit]
    tells whether the previous character was a digit: an underscore is
    accepted only between two digits. *)
Fixpoint parse_digits (s : string) (acc : Z) (n : nat) (after_digit : bool)
  : option (Z * nat) :=
  match s with
  | EmptyString => if after_digit then Some (acc, n) else None
  | String c s' =>
      match digit_val c with
      | Some d => parse_digits s' (10 * acc + d) (S n) true
      | None =>
          if (Ascii.eqb c "_" && after_digit)%bool
          then parse_digits s' acc n false
          else None
      end
  end.

(** CPython's default [sys.int_max_str_digits]. *)
Definition int_max_str_digits : nat := 4300.

Definition parse_unsigned (s : string) : option Z :=
  match parse_digits s 0 0%nat false with
  | Some (v, n) => if (int_max_str_digits <? n)%nat then None else Some v
  | None => None
  end.

(** [int(s)] for a string [s]: [None] stands for [ValueError].
    Surrounding white space is skipped, one sign is accepted, then
    decimal digits with single underscores between them. *)
Definition int (s : string) : option Z :=
  match strip s with
  | String "+" r => parse_unsigned r
  | String "-" r => Z.opp <$> parse_unsigned r
  | r => parse_unsigned r
  end.

(** [str(n)] for an integer. *)
Definition str (n : Z) : string := pretty n.

End PyStr.

(** ** Outcomes and effects *)

(** The exceptions of the built-in conversions between [int] and
    [float]. *)
Inductive exn : Type :=
| OverflowError
| ValueError.

(** A Python expression that yields a value or raises. *)
Inductive result (A : Type) : Type :=
| Ok (a : A)
| Error (e : exn).
Arguments Ok {A} a.
Arguments Error {A} e.

#[global] Instance result_bind : MBind result :=
  λ A B f m, match m with Ok a => f a | Error e => Error e end.

(** [Raise status detail] is [raise HTTPException(status, detail)];
    [Uncaught e] is an exception that leaves the handler, which the
    framework answers with status 500; [Hangs] is a handler that never
    returns. *)
Inductive http_result (A : Type) : Type :=
| Raise (status : Z) (detail : string)
| Return (a : A)
| Uncaught (e : exn)
| Hangs.
Arguments Raise {A} status detail.
Arguments Return {A} a.
Arguments Uncaught {A} e.
Arguments Hangs {A}.

(** A timed suspension requested by a handler. *)
Inductive event : Type :=
| Sleep (duration : Q).

(** [JSONResponse] / [PlainTextResponse]: status, content and the headers
  the handler passes. *)
Record response (B : Type) : Type := mkResponse
{ status_code : Z;
  content : B;
  headers : gmap string string }.
Arguments mkResponse {B} status_code content headers.
Arguments status_code {B} r.
Arguments content {B} r.
Arguments headers {B} r.

(** ** Python floats *)

(** [int(x)] on a finite float: truncation toward zero. *)
Definition Qtrunc (x : Q) : Z := Z.quot (Qnum x) (Z.pos (Qden x)).

Module PyFloat.

(** A float: a finite double, given by its value, an infinity or NaN. *)
Inductive float : Type :=
| Finite (x : Q)
| Inf (negative : bool)
| NaN.

(** Every finite double is a whole number of units of 2^-1074. *)
Definition scale : Z := 2 ^ 1074.

(** Rounding to the nearest whole number, ties to the even one. *)
Definition rne (m : Q) : Z :=
  let f := Qfloor m in
  match Qcompare (m - inject_Z f) (1 # 2) with
  | Lt => f
  | Gt => f + 1
  | Eq => if Z.even f then f else f + 1
  end.

(** The spacing of the doubles around [s], in units, is [2 ^ qexp s]:
    one unit up to 2^53 units, then the power of two that leaves 53
    significant bits. *)
Definition qexp (s : Q) : Z := Z.max 0 (Z.log2 (Qfloor (Qabs s)) - 52).

Definition quantum (s : Q) : Z := 2 ^ qexp s.

(** The double nearest to [x], ties to even, in units, were the
    exponent range unbounded above. *)
Definition units_of (x : Q) : Z :=
  let s := (x * inject_Z scale)%Q in
  rne (s / inject_Z (quantum s)) * quantum s.

Definition nearest (x : Q) : Q :=
  Qred (inject_Z (units_of x) / inject_Z scale).

(** IEEE 754 rounding of an exact result: to nearest, ties to even,
    overflowing to an infinity from 2^1024 on. *)
Definition round (x : Q) : float :=
  let y := nearest x in
  if Qle_bool (inject_Z (2 ^ 1024)) (Qabs y)
  then Inf (negb (Qle_bool 0 y))
  else Finite y.

(** [a + b] and [a - b] on floats: no exception, an overflow gives an
    infinity. *)
Definition add (a b : float) : float :=
  match a, b with
  | NaN, _ | _, NaN => NaN
  | Finite x, Finite y => round (x + y)
  | Finite _, Inf s => Inf s
  | Inf s, Finite _ => Inf s
  | Inf s, Inf t => if Bool.eqb s t then Inf s else NaN
  end.

Definition sub (a b : float) : float :=
  match a, b with
  | NaN, _ | _, NaN => NaN
  | Finite x, Finite y => round (x - y)
  | Finite _, Inf s => Inf (negb s)
  | Inf s, Finite _ => Inf s
  | Inf s, Inf t => if Bool.eqb s t then NaN else Inf s
  end.

(** The conversion of an [int] operand of a float operation: correctly
    rounded, [OverflowError] ("int too large to convert to float") when
    the rounded value is out of range. *)
Definition of_int (z : Z) : result Q :=
  match round (inject_Z z) with
  | Finite y => Ok y
  | _ => Error OverflowError
  end.

(** [int(f)]: truncation; [OverflowError] on an infinity, [ValueError]
    on NaN. *)
Definition to_int (f : float) : result Z :=
  match f with
  | Finite x => Ok (Qtrunc x)
  | Inf _ => Error OverflowError
  | NaN => Error ValueError
  end.

(** [f > z] for a float and an [int]: Python compares the two exactly,
    without converting the [int]. *)
Definition gt_int (f : float) (z : Z) : bool :=
  match f with
  | Finite x => if Qlt_le_dec (inject_Z z) x then true else false
  | Inf negative => negb negative
  | NaN => false
  end.

(** [a > b] on floats. *)
Definition gt (a b : float) : bool :=
  match a, b with
  | NaN, _ | _, NaN => false
  | Finite x, Finite y => if Qlt_le_dec y x then true else false
  | Finite _, Inf negative => negative
  | Inf negative, Finite _ => negb negative
  | Inf s, Inf t => (negb s && t)%bool
  end.

(** [max(a, b)] on two floats: [b] when [b > a], else [a]. *)
Definition max (a b : float) : float := if gt b a then b else a.

(** The float operation with exact result [x] is exact: [x] is a
    double. *)
Definition exact (x : Q) : Prop := round x = Finite (Qred x).

(** Magnitudes far inside the range of the doubles. *)
Definition moderate (x : Q) : Prop := (Qabs x <= inject_Z (2 ^ 1000))%Q.

End PyFloat.

(** ** utils/errors.py *)

Module Errors.

Definition error_catalog : gmap Z (string * string * string) :=
  list_to_map
    [ (400, ("Bad Request",
             "The request contains invalid syntax or cannot be fulfilled.",
             "Check your request body, query parameters, and ensure all required fields are present and properly formatted."));
      (401, ("Unauthorized",
             "Authentication credentials are missing or invalid.",
             "Include a valid API key in the 'x-api-key' header or check your authentication token."));
      (403, ("Forbidden",
             "You don't have permission to access this resource.",
             "Verify your account has the necessary permissions or contact support to upgrade your access level."));
      (404, ("Not Found",
             "The requested endpoint or resource does not exist.",
             "Check the URL path and ensure you're calling the correct endpoint. Verify the resource ID exists."));
      (422, ("Unprocessable Entity",
             "The request body contains invalid or missing required fields.",
             "Validate your JSON payload against the API schema. Check field types and required properties."));
      (429, ("Too Many Requests",
             "Rate limit exceeded. You've sent too many requests in a given time period.",
             "Implement exponential backoff in your client. Check the 'Retry-After' header for the wait time."));
      (500, ("Internal Server Error",
             "An unexpected error occurred on the server side.",
             "This is likely a temporary issue. Try again in a few moments or contact support if it persists."));
      (502, ("Bad Gateway",
             "The server received an invalid response from an upstream server.",
             "This indicates a temporary server issue. Retry your request with exponential backoff."));
      (503, ("Service Unavailable",
             "The service is temporarily unavailable, often due to maintenance or overload.",
             "Wait a few minutes and try again. Check the service status page for maintenance announcements."));
      (504, ("Gateway Timeout",
             "The server didn't receive a response from an upstream server in time.",
             "Reduce request complexity or try again later. Consider implementing client-side timeouts.")) ].

Definition get_error_details (code : Z) : string * string * string :=
  match error_catalog !! code with
  | None =>
      ("Unknown Error",
       "HTTP status code " +:+ PyStr.str code +:+ " was returned.",
       "Refer to HTTP status code documentation for this specific error.")
  | Some entry => entry
  end.

(** [generate_request_id]: [hex] is the value of [uuid.uuid4().hex], 32
    hexadecimal digits.  The slice [hex[:12]] keeps the first twelve
    characters, or the whole string when it is shorter. *)
Definition generate_request_id (hex : string) : string :=
  "req_" +:+ substring 0 12 hex.

(** The value of [datetime.utcnow()]: a naive datetime, no time zone. *)
Record datetime : Type := mkDatetime
  { year : Z;
    month : Z;
    day : Z;
    hour : Z;
    minute : Z;
    second : Z;
    microsecond : Z }.

(** The last [w] decimal digits of [n] in front of [acc], most
    significant first. *)
Fixpoint digits (w : nat) (n : Z) (acc : string) : string :=
  match w with
  | O => acc
  | S w' => digits w' (n / 10) (String (ascii_of_nat (Z.to_nat (48 + n mod 10))) acc)
  end.

(** The format [%0wd] on a number that is not negative: decimal, padded
    with zeros on the left up to [w] digits, all the digits when there are
    more. *)
Definition zero_padded (w : nat) (n : Z) : string :=
  if n <? 10 ^ Z.of_nat w then digits w n EmptyString else pretty n.

(** [datetime.isoformat()] of a naive datetime: date, [T], time, and the
    microseconds as six digits only when they are not zero. *)
Definition isoformat (dt : datetime) : string :=
  zero_padded 4 (year dt) +:+ "-" +:+ zero_padded 2 (month dt) +:+ "-"
    +:+ zero_padded 2 (day dt) +:+ "T"
    +:+ zero_padded 2 (hour dt) +:+ ":" +:+ zero_padded 2 (minute dt) +:+ ":"
    +:+ zero_padded 2 (second dt)
    +:+ (if microsecond dt =? 0 then EmptyString
         else "." +:+ zero_padded 6 (microsecond dt)).

(** [get_current_timestamp]: [now] is the value of [datetime.utcnow()]. *)
Definition get_current_timestamp (now : datetime) : string :=
  isoformat now +:+ "Z".

(** The field ranges every [datetime] value has. *)
Definition valid_datetime (dt : datetime) : Prop :=
  1 ≤ year dt ≤ 9999 ∧ 1 ≤ month dt ≤ 12 ∧ 1 ≤ day dt ≤ 31
  ∧ 0 ≤ hour dt ≤ 23 ∧ 0 ≤ minute dt ≤ 59 ∧ 0 ≤ second dt ≤ 59
  ∧ 0 ≤ microsecond dt ≤ 999999.

End Errors.

(** ** routers/simulate.py: the stateless handlers *)

Module Simulate.

Import Errors.

(** [get_common_causes] *)
Definition causes_map : gmap Z (list string) :=
  list_to_map
    [ (400, ["Invalid JSON syntax"; "Missing required fields"; "Invalid data types"]);
      (401, ["Missing API key"; "Invalid credentials"; "Expired token"]);
      (403, ["Insufficient permissions"; "Account suspended"; "IP blocked"]);
      (404, ["Wrong endpoint URL"; "Resource deleted"; "Typo in path"]);
      (422, ["Validation errors"; "Business logic violations"; "Invalid field values"]);
      (429, ["Too many requests"; "Rate limit exceeded"; "Burst limit reached"]);
      (500, ["Server bug"; "Database connection error"; "Unhandled exception"]);
      (502, ["Upstream server error"; "Load balancer issues"; "Network problems"]);
      (503, ["Server maintenance"; "Overloaded server"; "Temporary outage"]);
      (504, ["Slow upstream response"; "Network timeout"; "Processing timeout"]) ].

Definition get_common_causes (code : Z) : list string :=
  default ["Unknown cause"] (causes_map !! code).

(** *** /simulate/status *)

Record status_debug_info : Type := mkStatusDebug
  { sd_endpoint : string;
    sd_param_code : Z;
    sd_param_include_headers : bool;
    sd_common_causes : list string }.

Record status_body : Type := mkStatusBody
  { sb_error : string;
    sb_code : Z;
    sb_message : string;
    sb_fix : string;
    sb_timestamp : string;
    sb_request_id : string;
    sb_debug_info : status_debug_info }.

(** [timestamp] is the value of [get_current_timestamp()] and
    [request_id] the value of [generate_request_id()] at this call. *)
Definition simulate_status (timestamp request_id : string)
    (code : Z) (include_headers : bool) : http_result (response status_body) :=
  if ((code <? 200) || (599 <? code))%bool
  then Raise 400 "Status code must be between 200-599"
  else
    let '(title, message, fix_hint) := get_error_details code in
    let response_data :=
      {| sb_error := title;
         sb_code := code;
         sb_message := message;
         sb_fix := fix_hint;
         sb_timestamp := timestamp;
         sb_request_id := request_id;
         sb_debug_info :=
           {| sd_endpoint := "/simulate/status";
              sd_param_code := code;
              sd_param_include_headers := include_headers;
              sd_common_causes := get_common_causes code |} |} in
    let headers : gmap string string := ∅ in
    let headers :=
      if include_headers then
        let headers :=
          <["x-error-type" := PyStr.replace " " "_" (PyStr.lower title)]>
            (<["x-request-id" := sb_request_id response_data]>
               (<["x-debug-mode" := "true"]> headers)) in
        if code =? 429 then
          <["x-ratelimit-remaining" := "0"]>
            (<["x-ratelimit-limit" := "100"]>
               (<["retry-after" := "60"]> headers))
        else if code =? 401 then
          <["www-authenticate" := "Bearer"]> headers
        else headers
      else headers in
    Return (mkResponse code response_data headers).

(** *** /simulate/invalid-json *)

Definition json_errors : gmap string string :=
  list_to_map
    [ ("missing_comma",
       "{" +:+ PyStr.q "status" +:+ ": " +:+ PyStr.q "error" +:+ " "
           +:+ PyStr.q "message" +:+ ": "
           +:+ PyStr.q "Missing comma between properties" +:+ "}");
      ("unclosed_brace",
       "{" +:+ PyStr.q "status" +:+ ": " +:+ PyStr.q "error" +:+ ", "
           +:+ PyStr.q "message" +:+ ": " +:+ PyStr.q "Unclosed brace");
      ("invalid_escape",
       "{" +:+ PyStr.q "status" +:+ ": " +:+ PyStr.q "error" +:+ ", "
           +:+ PyStr.q "message" +:+ ": "
           +:+ PyStr.q "Invalid escape \q sequence" +:+ "}");
      ("trailing_comma",
       "{" +:+ PyStr.q "status" +:+ ": " +:+ PyStr.q "error" +:+ ", "
           +:+ PyStr.q "message" +:+ ": " +:+ PyStr.q "Trailing comma" +:+ ",}");
      ("unquoted_key",
       "{status: " +:+ PyStr.q "error" +:+ ", "
           +:+ PyStr.q "message" +:+ ": " +:+ PyStr.q "Unquoted key" +:+ "}");
      ("single_quotes",
       "{'status': 'error', 'message': 'Single quotes instead of double'}") ].

(** [PlainTextResponse(json_errors[error_type], status_code=200, headers)].
    The subscript [json_errors[error_type]] cannot raise [KeyError]: the
    key is replaced by a key of the table when it is not one. *)
Definition simulate_invalid_json (error_type : string) : response string :=
  let error_type :=
    if decide (error_type ∈ dom json_errors) then error_type
    else "missing_comma" in
  let headers : gmap string string :=
    list_to_map
      [ ("content-type", "application/json");
        ("x-debug-mode", "true");
        ("x-json-error-type", error_type);
        ("x-expected-error", "JSON parse error") ] in
  mkResponse 200 (default EmptyString (json_errors !! error_type)) headers.

(** The enumerated error types. *)
Definition json_error_types : list string :=
  ["missing_comma"; "unclosed_brace"; "invalid_escape"; "trailing_comma";
   "unquoted_key"; "single_quotes"].

(** The body for [missing_comma], spelled by its 65 character codes:
    an opening brace, the quoted words status and error with no comma
    after them, the quoted message, a closing brace. *)
Definition missing_comma_literal : string :=
  string_of_list_ascii (ascii_of_nat <$>
    [123; 34; 115; 116; 97; 116; 117; 115; 34; 58; 32; 34; 101; 114; 114;
     111; 114; 34; 32; 34; 109; 101; 115; 115; 97; 103; 101; 34; 58; 32;
     34; 77; 105; 115; 115; 105; 110; 103; 32; 99; 111; 109; 109; 97; 32;
     98; 101; 116; 119; 101; 101; 110; 32; 112; 114; 111; 112; 101; 114;
     116; 105; 101; 115; 34; 125]%nat).

(** *** /simulate/slow *)

(** A number of the returned dict: [actual_delay] is the [int] it was
    given, or the [float] the jitter made of it. *)
Inductive number : Type :=
| IntNum (z : Z)
| FloatNum (x : Q).

(** The literal [0.1]: the double nearest to a tenth. *)
Definition point_one : Q := 3602879701896397 # 36028797018963968.

(** The format [.2f] on a finite float: its value rounded to hundredths,
    ties to even, with the sign of the float. *)
Definition format_2f (v : Q) : string :=
  let h := PyFloat.rne (Qabs v * 100) in
  (if Qlt_le_dec v 0 then "-" else EmptyString)
    +:+ PyStr.str (h / 100) +:+ "." +:+ Errors.zero_padded 2 (h mod 100).

(** The fields of the returned dict that carry the delay.  The fields
    [actual_elapsed] (wall-clock reads), [timestamp] and [debug_info]
    are not part of the model. *)
Record slow_body : Type := mkSlowBody
  { sl_status : string;
    sl_message : string;
    sl_delay_seconds : number;
    sl_requested_delay : Z;
    sl_jitter_applied : bool }.

(** The returned dict (source lines 127-139).  [shown] is the float that
    the format [.2f] is given: [actual_delay] itself when it is a float,
    its conversion when it is an [int]. *)
Definition slow_reply (actual_delay : number) (shown : Q) (seconds : Z) (jitter : bool)
  : slow_body :=
  {| sl_status := "success";
     sl_message := "Response delayed for " +:+ format_2f shown +:+ " seconds";
     sl_delay_seconds := actual_delay;
     sl_requested_delay := seconds;
     sl_jitter_applied := jitter |}.

(** [u] is the value of [random.uniform(-1, 2)] when it is drawn, a
    finite double.  The result is the list of suspensions performed,
    oldest first, and the outcome.

    With jitter, line 120 adds a float to the [int] [seconds], which
    converts [seconds] first; [max(0.1, x)] is then a finite float or
    plus infinity, and a sleep of infinity never returns.  Without
    jitter, [asyncio.sleep] is given the [int] as it is and returns at
    once when it is not positive; the format [.2f] of line 129 then
    converts the [int]. *)
Definition simulate_slow (u : Q) (seconds : Z) (jitter : bool)
  : list event * http_result slow_body :=
  if 30 <? seconds
  then ([], Raise 400 "Maximum delay is 30 seconds")
  else if jitter then
    match PyFloat.of_int seconds with
    | Error e => ([], Uncaught e)
    | Ok w =>
        match PyFloat.max (PyFloat.Finite point_one)
                          (PyFloat.add (PyFloat.Finite w) (PyFloat.Finite u)) with
        | PyFloat.Finite actual_delay =>
            ([Sleep actual_delay],
             Return (slow_reply (FloatNum actual_delay) actual_delay seconds true))
        | _ => ([], Hangs)
        end
    end
  else
    match PyFloat.of_int seconds with
    | Error e => ([Sleep (inject_Z seconds)], Uncaught e)
    | Ok shown =>
        ([Sleep (inject_Z seconds)],
         Return (slow_reply (IntNum seconds) shown seconds false))
    end.

(** *** /simulate/timeout *)

Record timeout_body : Type := mkTimeoutBody
  { tb_status : string;
    tb_message : string;
    tb_tip : string }.

(** The returned dict.  [message] is an f-string; [tip] is a plain string
    literal in the source, so its braces are kept as written. *)
Definition simulate_timeout (hang_time : Z) : list event * timeout_body :=
  let hang_time := Z.min hang_time 120 in
  ([Sleep (inject_Z hang_time)],
   {| tb_status := "timeout_expired";
      tb_message := "Request hung for " +:+ PyStr.str hang_time +:+ " seconds";
      tb_tip := "If you see this response, your client timeout is longer than {hang_time}s" |}).

(** *** /simulate/random *)

Definition possible_codes : list Z :=
  [400; 401; 403; 404; 422; 429; 500; 502; 503; 504].

(** [[int(code.strip()) for code in exclude_codes.split(",")]]: [None]
    when one [int(...)] raises [ValueError], which abandons the whole
    comprehension. *)
Definition parse_excluded (exclude_codes : string) : option (list Z) :=
  mapM (λ code, PyStr.int (PyStr.strip code)) (PyStr.split "," exclude_codes).

(** The pool after the [if exclude_codes: try ... except ValueError: pass]
    block and the [if not possible_codes] fallback. *)
Definition remaining_codes (exclude_codes : string) : list Z :=
  let possible_codes :=
    if decide (exclude_codes = EmptyString) then possible_codes
    else match parse_excluded exclude_codes with
         | Some excluded => filter (λ code, code ∉ excluded) possible_codes
         | None => possible_codes
         end in
  match possible_codes with
  | [] => [500]
  | _ => possible_codes
  end.

(** The form of [exclude_codes] the handler documents, the codes in
    decimal with commas between them: [",".join(str(c) for c in codes)]. *)
Fixpoint comma_separated (codes : list Z) : string :=
  match codes with
  | [] => EmptyString
  | c :: rest =>
      match rest with
      | [] => PyStr.str c
      | _ :: _ => PyStr.str c +:+ "," +:+ comma_separated rest
      end
  end.

(** A string without a comma. *)
Fixpoint no_comma (s : string) : bool :=
  match s with
  | EmptyString => true
  | String c s' => (negb (Ascii.eqb c ",") && no_comma s')%bool
  end.

(** The test that [int(str(c).strip())] is [c] again and that [str(c)]
    is a non-empty string without a comma. *)
Definition code_literal_ok (c : Z) : bool :=
  (bool_decide (PyStr.int (PyStr.strip (PyStr.str c)) = Some c)
   && no_comma (PyStr.str c)
   && negb (String.eqb (PyStr.str c) EmptyString))%bool.

(** [random.choice(seq)] where [r] is the random draw; [None] is the
    [IndexError] of an empty sequence. *)
Definition random_choice (r : nat) (seq : list Z) : option Z :=
  seq !! (r mod length seq)%nat.

(** [r] drives [random.choice], [p] is the value of [random.random()]
    and [d] the value of [random.uniform(0.5, 2.0)] when it is drawn.
    [p] is a whole number of units of 2^-53; the double [0.3] is not,
    and no such number lies between it and three tenths, so [p < 0.3]
    is the comparison of [p] with three tenths. *)
Definition simulate_random (r : nat) (p d : Q) (timestamp request_id : string)
    (exclude_codes : string)
  : list event * http_result (response status_body) :=
  match random_choice r (remaining_codes exclude_codes) with
  | None => ([], Raise 500 "Internal Server Error")
  | Some random_code =>
      (if Qlt_le_dec p (3 # 10) then [Sleep d] else [],
       simulate_status timestamp request_id random_code true)
  end.

(** *** /simulate/network-error *)

Record network_body : Type := mkNetworkBody
  { nb_error : string;
    nb_code : Z;
    nb_message : string;
    nb_fix : string;
    nb_debug_error_type : string;
    nb_debug_common_causes : list string }.

Definition simulate_network_error (error_type : string)
  : http_result (response network_body) :=
  if String.eqb error_type "connection_reset" then
    Raise 500 "Connection reset by peer"
  else if String.eqb error_type "dns_failure" then
    Return (mkResponse 502
      {| nb_error := "Bad Gateway";
         nb_code := 502;
         nb_message := "DNS resolution failed for upstream service";
         nb_fix := "Check network connectivity and DNS settings";
         nb_debug_error_type := "dns_resolution_failure";
         nb_debug_common_causes :=
           ["Network connectivity issues"; "DNS server problems";
            "Firewall blocking DNS"] |} ∅)
  else if String.eqb error_type "ssl_error" then
    Return (mkResponse 502
      {| nb_error := "SSL/TLS Error";
         nb_code := 502;
         nb_message := "SSL certificate verification failed";
         nb_fix := "Check SSL certificate validity and chain";
         nb_debug_error_type := "ssl_verification_failure";
         nb_debug_common_causes :=
           ["Expired certificate"; "Self-signed certificate";
            "Certificate chain issues"] |} ∅)
  else Raise 400 "Unknown network error type".

End Simulate.

(** ** routers/simulate.py: /simulate/rate-limit

  [request_counts] is a module-level dict from client address to a
  counter dict [{"count": int, "window_start": float}].  The handler
  binds [count_data] to the counter dict it finds under the client's key
  and then reads and writes through that reference, so the counter dicts
  live in a heap of objects and [request_counts] holds references.

  The handler is a plain [def]: the framework runs each call on a worker
  thread, and the source takes no lock anywhere.  A call is therefore
  modelled as a thread that advances by the steps below, each step being
  one group of source lines; [simulate_rate_limit] is one call run from
  its first step to its reply without any other call in between, and
  [sched] runs several calls under an arbitrary interleaving.

  [time.time()] and [window_start] are floats, [window] is an [int]:
  the subtractions and the addition of the source are float operations,
  which convert [window] and round their result, and the comparison of
  the elapsed time with [window] is exact. *)

Module RateLimit.

(** The counter dict; [window_start] is the value of a finite double. *)
Record counter : Type := mkCounter
  { count : Z;
    window_start : Q }.


(** The store: [request_counts] maps a client address to a reference, a
    position in [heap], where the counter dict lives. *)
Record state : Type := mkState
  { request_counts : gmap string nat;
    heap : list counter }.

(** The process starts with [request_counts = {}]. *)
Definition init : state := mkState ∅ [].

(** One call: the query parameters, the client address and the value of
    [time.time()] read on entry, a finite double. *)
Record request : Type := mkRequest
  { client_ip : string;
    current_time : Q;
    limit : Z;
    window : Z;
    reset_counts : bool }.

Record limited_body : Type := mkLimitedBody
  { lb_error : string;
    lb_code : Z;
    lb_message : string;
    lb_retry_after : Z;
    lb_limit : Z;
    lb_remaining : Z;
    lb_window : Z;
    lb_debug_current_count : Z;
    lb_debug_window_start : Q;
    lb_debug_client_ip : string;
    lb_debug_tip : string }.

Record allowed_body : Type := mkAllowedBody
  { ab_status : string;
    ab_message : string;
    ab_limit : Z;
    ab_remaining : Z;
    ab_window : Z;
    ab_current_count : Z }.

Record reset_body : Type := mkResetBody
  { rb_status : string;
    rb_message : string;
    rb_limit : Z;
    rb_window : Z }.

(** How a call ends: one of the three replies of the handler, or an
    uncaught exception.  [KeyError] is the subscript
    [request_counts[client_ip]] finding no entry, which needs another call
    to pop the entry in between; [Crashed e] is an exception of a float
    conversion while the reply is computed; [Fault] stands for a
    reference to a counter that is not in the heap, which no execution
    reaches. *)
Inductive outcome : Type :=
| ResetDone (body : reset_body)
| Limited (resp : response limited_body)
| Allowed (resp : response allowed_body)
| KeyError
| Crashed (e : exn)
| Fault.

(** The HTTP status the client sees: a returned dict and a [JSONResponse]
    without [status_code] are 200, an uncaught exception is 500. *)
Definition outcome_status (o : outcome) : Z :=
  match o with
  | ResetDone _ => 200
  | Limited resp => status_code resp
  | Allowed resp => status_code resp
  | KeyError => 500
  | Crashed _ => 500
  | Fault => 500
  end.

(** Where a call stands.  [count_data] is the local reference. *)
Inductive pc : Type :=
| AtEntry
| AtFetch
| AtWindow (count_data : nat)
| AtCheck (count_data : nat)
| AtIncrement (count_data : nat)
| AtReply (count_data : nat)
| Done (o : outcome).

Definition set_heap (σ : state) (h : list counter) : state :=
  mkState (request_counts σ) h.

(** [current_time - count_data["window_start"]], a float subtraction
    (source lines 199 and 205). *)
Definition elapsed (rq : request) (c : counter) : PyFloat.float :=
  PyFloat.sub (PyFloat.Finite (current_time rq)) (PyFloat.Finite (window_start c)).

(** [current_time - count_data["window_start"] > window] (line 199). *)
Definition window_expired (rq : request) (c : counter) : bool :=
  PyFloat.gt_int (elapsed rq c) (window rq).

(** [time_remaining = window - (current_time - count_data["window_start"])]
    (line 205): [window] is converted, then subtracted from. *)
Definition time_remaining (rq : request) (c : counter) : result PyFloat.float :=
  w ← PyFloat.of_int (window rq);
  Ok (PyFloat.sub (PyFloat.Finite w) (elapsed rq c)).

(** [int(time_remaining) + 1] (lines 208 and 219). *)
Definition retry_after (rq : request) (c : counter) : result Z :=
  t ← time_remaining rq c;
  n ← PyFloat.to_int t;
  Ok (n + 1).

(** [int(count_data["window_start"] + window)] (lines 211 and 244). *)
Definition reset_time (rq : request) (c : counter) : result Z :=
  w ← PyFloat.of_int (window rq);
  PyFloat.to_int (PyFloat.add (PyFloat.Finite (window_start c)) (PyFloat.Finite w)).

(** The 429 reply (source lines 205-235), built from the counter [c] that
    [count_data] refers to; it raises when a float conversion does. *)
Definition limited_response (rq : request) (c : counter)
  : result (response limited_body) :=
  seconds ← retry_after rq c;
  reset ← reset_time rq c;
  let hdrs : gmap string string :=
    list_to_map
      [ ("retry-after", PyStr.str seconds);
        ("x-ratelimit-limit", PyStr.str (limit rq));
        ("x-ratelimit-remaining", "0");
        ("x-ratelimit-reset", PyStr.str reset);
        ("x-debug-mode", "true") ] in
  let response_data :=
    {| lb_error := "Too Many Requests";
       lb_code := 429;
       lb_message :=
         "Rate limit of " +:+ PyStr.str (limit rq) +:+ " requests per "
           +:+ PyStr.str (window rq) +:+ " seconds exceeded";
       lb_retry_after := seconds;
       lb_limit := limit rq;
       lb_remaining := 0;
       lb_window := window rq;
       lb_debug_current_count := count c;
       lb_debug_window_start := window_start c;
       lb_debug_client_ip := client_ip rq;
       lb_debug_tip :=
         "Implement exponential backoff: wait 1s, then 2s, then 4s, etc." |} in
  Ok (mkResponse 429 response_data hdrs).

(** The success reply (source lines 239-259), built from the counter [c]
    read after the increment; it raises when a float conversion does. *)
Definition allowed_response (rq : request) (c : counter)
  : result (response allowed_body) :=
  let remaining := limit rq - count c in
  reset ← reset_time rq c;
  let hdrs : gmap string string :=
    list_to_map
      [ ("x-ratelimit-limit", PyStr.str (limit rq));
        ("x-ratelimit-remaining", PyStr.str remaining);
        ("x-ratelimit-reset", PyStr.str reset) ] in
  Ok (mkResponse 200
        {| ab_status := "success";
           ab_message := "Request processed successfully";
           ab_limit := limit rq;
           ab_remaining := remaining;
           ab_window := window rq;
           ab_current_count := count c |} hdrs).

(** How the two replying paths end. *)
Definition limited_outcome (rq : request) (c : counter) : outcome :=
  match limited_response rq c with
  | Ok resp => Limited resp
  | Error e => Crashed e
  end.

Definition allowed_outcome (rq : request) (c : counter) : outcome :=
  match allowed_response rq c with
  | Ok resp => Allowed resp
  | Error e => Crashed e
  end.

Definition step (rq : request) (σ : state) (p : pc) : state * pc :=
  match p with
  | AtEntry =>
      if reset_counts rq then
        (* request_counts.pop(client_ip, None); return {...} *)
        (mkState (delete (client_ip rq) (request_counts σ)) (heap σ),
         Done (ResetDone
           {| rb_status := "reset";
              rb_message := "Rate limit counter reset for " +:+ client_ip rq;
              rb_limit := limit rq;
              rb_window := window rq |}))
      else
        (* if client_ip not in request_counts:
               request_counts[client_ip] = {"count": 0, "window_start": current_time} *)
        match request_counts σ !! client_ip rq with
        | None =>
            (mkState (<[client_ip rq := length (heap σ)]> (request_counts σ))
                     (heap σ ++ [mkCounter 0 (current_time rq)]),
             AtFetch)
        | Some _ => (σ, AtFetch)
        end
  | AtFetch =>
      (* count_data = request_counts[client_ip] *)
      match request_counts σ !! client_ip rq with
      | Some count_data => (σ, AtWindow count_data)
      | None => (σ, Done KeyError)
      end
  | AtWindow count_data =>
      (* if current_time - count_data["window_start"] > window:
             count_data["count"] = 0
             count_data["window_start"] = current_time *)
      match heap σ !! count_data with
      | Some c =>
          if window_expired rq c
          then (set_heap σ (<[count_data := mkCounter 0 (current_time rq)]> (heap σ)),
                AtCheck count_data)
          else (σ, AtCheck count_data)
      | None => (σ, Done Fault)
      end
  | AtCheck count_data =>
      (* if count_data["count"] >= limit: ... return JSONResponse(429, ...) *)
      match heap σ !! count_data with
      | Some c =>
          if limit rq <=? count c
          then (σ, Done (limited_outcome rq c))
          else (σ, AtIncrement count_data)
      | None => (σ, Done Fault)
      end
  | AtIncrement count_data =>
      (* count_data["count"] += 1 *)
      match heap σ !! count_data with
      | Some c =>
          (set_heap σ (<[count_data := mkCounter (count c + 1) (window_start c)]> (heap σ)),
           AtReply count_data)
      | None => (σ, Done Fault)
      end
  | AtReply count_data =>
      (* remaining = limit - count_data["count"]; return JSONResponse(...) *)
      match heap σ !! count_data with
      | Some c => (σ, Done (allowed_outcome rq c))
      | None => (σ, Done Fault)
      end
  | Done o => (σ, Done o)
  end.

(** [n] steps of one call, nothing else running. *)
Fixpoint run (n : nat) (rq : request) (σ : state) (p : pc) : state * pc :=
  match n with
  | O => (σ, p)
  | S n' => let '(σ', p') := step rq σ p in run n' rq σ' p'
  end.

(** The outcome of a finished call. *)
Definition outcome_of (p : pc) : outcome :=
  match p with
  | Done o => o
  | _ => Fault
  end.

(** The handler called on its own: six steps reach the reply on every
    path (see [simulate_rate_limit_returns]). *)
Definition simulate_rate_limit (rq : request) (σ : state) : state * outcome :=
  let '(σ', p) := run 6 rq σ AtEntry in (σ', outcome_of p).

(** Calls served one after another, each to its reply before the next
    one starts. *)
Fixpoint serve (rqs : list request) (σ : state) : state * list outcome :=
  match rqs with
  | [] => (σ, [])
  | rq :: rest =>
      let '(σ1, o) := simulate_rate_limit rq σ in
      let '(σ2, os) := serve rest σ1 in
      (σ2, o :: os)
  end.

(** Calls in flight form a pool: each call with the step it has reached.
    [start rqs] is the pool of the calls [rqs], none of them begun. *)
Definition start (rqs : list request) : list (request * pc) :=
  (λ rq, (rq, AtEntry)) <$> rqs.

(** [sched schedule σ ts]: the calls of [ts] advance in the order given
    by [schedule], one step of call [i] for each occurrence of [i]. *)
Fixpoint sched (schedule : list nat) (σ : state) (ts : list (request * pc))
  : state * list (request * pc) :=
  match schedule with
  | [] => (σ, ts)
  | i :: rest =>
      match ts !! i with
      | Some (rq, p) =>
          let '(σ', p') := step rq σ p in
          sched rest σ' (<[i := (rq, p')]> ts)
      | None => sched rest σ ts
      end
  end.

Definition finished (t : request * pc) : bool :=
  match t.2 with
  | Done _ => true
  | _ => false
  end.

Definition succeeded (t : request * pc) : bool :=
  match t.2 with
  | Done (Allowed _) => true
  | _ => false
  end.

(** The counter a client has in the store, if any. *)
Definition counter_of (σ : state) (ip : string) : option counter :=
  request_counts σ !! ip ≫= λ l, heap σ !! l.

(** Every reference held by [request_counts] is to an allocated counter,
    and two clients never share one. *)
Definition wf (σ : state) : Prop :=
  (∀ ip l, request_counts σ !! ip = Some l → (l < length (heap σ))%nat) ∧
  (∀ ip1 ip2 l, request_counts σ !! ip1 = Some l →
                request_counts σ !! ip2 = Some l → ip1 = ip2).

(** The data model's invariant [count >= 0], for every client. *)
Definition counts_nonneg (σ : state) : Prop :=
  ∀ ip c, counter_of σ ip = Some c → 0 ≤ count c.

(** The stores the process can be in between two calls: [init], then
    any number of calls served one after another. *)
Inductive reachable : state → Prop :=
| reachable_init : reachable init
| reachable_call rq σ :
    reachable σ → reachable (simulate_rate_limit rq σ).1.

(** *** The handler as section 4.5 of the specification words it *)

(** Fetch-or-create: the client's counter, a fresh one when absent. *)
Definition fetched (rq : request) (σ : state) : counter :=
  default (mkCounter 0 (current_time rq)) (counter_of σ (client_ip rq)).

(** Window rollover: elapsed time above [window] resets the counter. *)
Definition expired (rq : request) (c : counter) : Prop :=
  window_expired rq c = true.

Definition rolled (rq : request) (c : counter) : counter :=
  if window_expired rq c then mkCounter 0 (current_time rq) else c.

(** The counter after [count += 1]. *)
Definition incremented (c : counter) : counter :=
  mkCounter (count c + 1) (window_start c).

(** The store after lazy creation of the client's counter. *)
Definition created (rq : request) (σ : state) : state :=
  mkState (<[client_ip rq := length (heap σ)]> (request_counts σ))
          (heap σ ++ [mkCounter 0 (current_time rq)]).

(** Remaining window seconds at the time of the call, as a real number:
    what [time_remaining] computes in floats. *)
Definition time_left (rq : request) (c : counter) : Q :=
  (inject_Z (window rq) - (current_time rq - window_start c))%Q.

(** *** Ranges of the parameters *)

(** The window and the clock reading of a call are far inside the range
    of the doubles. *)
Definition bounded_request (rq : request) : Prop :=
  Z.abs (window rq) ≤ 2 ^ 1000 ∧ PyFloat.moderate (current_time rq).

(** So is every window start of the store. *)
Definition bounded_store (σ : state) : Prop :=
  Forall (λ c, PyFloat.moderate (window_start c)) (heap σ).

(** The float operations behind [retry_after] are exact for the call
    [rq] on the counter [c]. *)
Definition exact_remaining (rq : request) (c : counter) : Prop :=
  PyFloat.exact (inject_Z (window rq))
  ∧ PyFloat.exact (current_time rq - window_start c)
  ∧ PyFloat.exact (time_left rq c).

(** *** Calls of one client in flight together *)

(** A non-reset call of client [ip] with limit [n], in range. *)
Definition same_client_call (ip : string) (n : nat) (rq : request) : Prop :=
  client_ip rq = ip ∧ reset_counts rq = false ∧ limit rq = Z.of_nat n
  ∧ bounded_request rq.

(** The call has performed its increment. *)
Definition incremented_already (t : request * pc) : bool :=
  match t.2 with
  | AtReply _ | Done _ => true
  | _ => false
  end.

(** How many calls of the pool have performed their increment. *)
Definition passed (ts : list (request * pc)) : nat :=
  length (filter (λ t, incremented_already t = true) ts).

(** The step a call of the pool may be at, once the client's counter
    lives at [l]: any step holding the reference [l], or a success
    reply. *)
Definition pc_ok (l : nat) (p : pc) : Prop :=
  match p with
  | AtEntry | AtFetch => True
  | AtWindow l' | AtCheck l' | AtIncrement l' | AtReply l' => l' = l
  | Done (Allowed resp) => status_code resp = 200
  | Done _ => False
  end.

(** What every interleaving of [n] calls of one client with limit [n]
    maintains: the count never exceeds the number of calls that have
    performed their increment, and the window start stays in range. *)
Definition pool_inv (ip : string) (n : nat) (σ : state) (ts : list (request * pc)) : Prop :=
  length ts = n
  ∧ Forall (λ t, same_client_call ip n t.1) ts
  ∧ match request_counts σ !! ip with
    | None => Forall (λ t, t.2 = AtEntry) ts
    | Some l =>
        ∃ c, heap σ !! l = Some c
             ∧ Forall (λ t, pc_ok l t.2) ts
             ∧ count c ≤ Z.of_nat (passed ts)
             ∧ PyFloat.moderate (window_start c)
    end.

(** *** Calls of any clients in flight together *)

(** The steps a call has left before it is finished, at most. *)
Definition steps_left (p : pc) : nat :=
  match p with
  | AtEntry => 6
  | AtFetch => 5
  | AtWindow _ => 4
  | AtCheck _ => 3
  | AtIncrement _ => 2
  | AtReply _ => 1
  | Done _ => 0
  end.

(** What a call in flight relies on: the reference it holds is to an
    allocated counter; once finished it has one of the three replies or
    an exception of the source, never a dangling reference. *)
Definition pc_safe (σ : state) (p : pc) : Prop :=
  match p with
  | AtEntry | AtFetch => True
  | AtWindow l | AtCheck l | AtIncrement l | AtReply l =>
      (l < length (heap σ))%nat
  | Done Fault => False
  | Done KeyError => True
  | Done (Crashed _) => True
  | Done o => outcome_status o = 200 ∨ outcome_status o = 429
  end.

(** In a pool where no call resets: a call past its first step finds its
    client's entry, so it does not end in [KeyError]. *)
Definition pc_entered (σ : state) (rq : request) (p : pc) : Prop :=
  match p with
  | AtFetch => is_Some (request_counts σ !! client_ip rq)
  | Done KeyError => False
  | _ => True
  end.

(** In a pool of calls in range on a store in range: no call ends in an
    exception of a float conversion. *)
Definition pc_in_range (p : pc) : Prop :=
  match p with
  | Done (Crashed _) => False
  | _ => True
  end.

End RateLimit.

(** * Properties *)

(** ** Floats: rounding to the nearest double *)

Section FloatFacts.
Import PyFloat.

Lemma rne_proper (m m' : Q) : (m == m')%Q → rne m = rne m'.
Proof.
  intros H. unfold rne. rewrite (Qfloor_comp _ _ H).
  assert (Hc : ((m - inject_Z (Qfloor m')) ?= (1 # 2))%Q
               = ((m' - inject_Z (Qfloor m')) ?= (1 # 2))%Q).
  { apply Qcompare_comp; [rewrite H; reflexivity | reflexivity]. }
  rewrite Hc. reflexivity.
Qed.

Lemma rne_le (m : Q) (N : Z) : (m <= inject_Z N)%Q → rne m ≤ N.
Proof.
  intros Hm. unfold rne.
  assert (Hf : Qfloor m ≤ N).
  { rewrite <- (Qfloor_Z N). apply Qfloor_resp_le. exact Hm. }
  destruct (Qcompare_spec (m - inject_Z (Qfloor m)) (1 # 2)) as [He | Hl | Hg].
  - destruct (Z.even (Qfloor m)); [exact Hf |].
    destruct (Z.eq_dec (Qfloor m) N) as [Heq | Hne]; [| lia].
    exfalso. rewrite Heq in He. lra.
  - exact Hf.
  - destruct (Z.eq_dec (Qfloor m) N) as [Heq | Hne]; [| lia].
    exfalso. rewrite Heq in Hg. lra.
Qed.

Lemma rne_ge (m : Q) (N : Z) : (inject_Z N <= m)%Q → N ≤ rne m.
Proof.
  intros Hm. unfold rne.
  assert (Hf : N ≤ Qfloor m).
  { rewrite <- (Qfloor_Z N). apply Qfloor_resp_le. exact Hm. }
  destruct (Qcompare (m - inject_Z (Qfloor m)) (1 # 2));
    [destruct (Z.even (Qfloor m)) | |]; lia.
Qed.

Lemma rne_Z (n : Z) : rne (inject_Z n) = n.
Proof.
  apply Z.le_antisymm; [apply rne_le | apply rne_ge]; apply Qle_refl.
Qed.

Lemma qexp_nonneg (s : Q) : 0 ≤ qexp s.
Proof. unfold qexp. lia. Qed.

Lemma quantum_pos (s : Q) : 0 < quantum s.
Proof. unfold quantum. apply Z.pow_pos_nonneg; [lia | apply qexp_nonneg]. Qed.

Lemma quantum_proper (s s' : Q) : (s == s')%Q → quantum s = quantum s'.
Proof.
  intros H. unfold quantum, qexp.
  assert (Ha : (Qabs s == Qabs s')%Q) by (rewrite H; reflexivity).
  rewrite (Qfloor_comp _ _ Ha). reflexivity.
Qed.

Lemma scale_pos : (0 < inject_Z scale)%Q.
Proof.
  change 0%Q with (inject_Z 0). rewrite <- Zlt_Qlt. unfold scale.
  apply Z.pow_pos_nonneg; lia.
Qed.

(** Rounding depends on the value of its argument only. *)
Lemma nearest_proper (x y : Q) : (x == y)%Q → nearest x = nearest y.
Proof.
  intros H. unfold nearest, units_of.
  assert (Hs : (x * inject_Z scale == y * inject_Z scale)%Q) by (rewrite H; reflexivity).
  rewrite (quantum_proper _ _ Hs).
  assert (Hr : (x * inject_Z scale / inject_Z (quantum (y * inject_Z scale))
                == y * inject_Z scale / inject_Z (quantum (y * inject_Z scale)))%Q)
    by (rewrite Hs; reflexivity).
  rewrite (rne_proper _ _ Hr). reflexivity.
Qed.

Lemma round_proper (x y : Q) : (x == y)%Q → round x = round y.
Proof. intros H. unfold round. rewrite (nearest_proper _ _ H). reflexivity. Qed.

(** The rounded number of units stays on the side of a bound that is
    itself on the grid of the argument. *)
Lemma rounded_le (s : Q) (N : Z) :
  (s <= inject_Z N)%Q → (quantum s | N) →
  rne (s / inject_Z (quantum s)) * quantum s ≤ N.
Proof.
  intros Hs [N' ->]. pose proof (quantum_pos s) as Hk.
  apply Z.mul_le_mono_nonneg_r; [lia |]. apply rne_le.
  apply Qle_shift_div_r.
  - change 0%Q with (inject_Z 0). rewrite <- Zlt_Qlt. exact Hk.
  - rewrite <- inject_Z_mult. exact Hs.
Qed.

Lemma rounded_ge (s : Q) (N : Z) :
  (inject_Z N <= s)%Q → (quantum s | N) →
  N ≤ rne (s / inject_Z (quantum s)) * quantum s.
Proof.
  intros Hs [N' ->]. pose proof (quantum_pos s) as Hk.
  apply Z.mul_le_mono_nonneg_r; [lia |]. apply rne_ge.
  apply Qle_shift_div_l.
  - change 0%Q with (inject_Z 0). rewrite <- Zlt_Qlt. exact Hk.
  - rewrite <- inject_Z_mult. exact Hs.
Qed.

Lemma quantum_divides (s : Q) (K : Z) :
  0 ≤ K → (Qabs s <= inject_Z (2 ^ K))%Q → (quantum s | 2 ^ K).
Proof.
  intros HK Hs. unfold quantum, qexp.
  assert (Hf : Qfloor (Qabs s) ≤ 2 ^ K).
  { rewrite <- (Qfloor_Z (2 ^ K)). apply Qfloor_resp_le. exact Hs. }
  assert (Hl : Z.log2 (Qfloor (Qabs s)) ≤ K).
  { rewrite <- (Z.log2_pow2 K HK). apply Z.log2_le_mono. exact Hf. }
  set (j := Z.max 0 (Z.log2 (Qfloor (Qabs s)) - 52)).
  assert (Hj : 0 ≤ j ≤ K) by lia.
  exists (2 ^ (K - j)). rewrite <- Z.pow_add_r by lia. f_equal. lia.
Qed.

(** Rounding does not cross a power of two. *)
Lemma nearest_bounded (x : Q) (k : Z) :
  0 ≤ k → (Qabs x <= inject_Z (2 ^ k))%Q →
  (Qabs (nearest x) <= inject_Z (2 ^ k))%Q.
Proof.
  intros Hk Hx. unfold nearest, units_of.
  set (s := (x * inject_Z scale)%Q).
  pose proof scale_pos as Hsc.
  assert (Hpow : 2 ^ (k + 1074) = 2 ^ k * scale).
  { unfold scale. apply Z.pow_add_r; lia. }
  assert (Hs : (Qabs s <= inject_Z (2 ^ (k + 1074)))%Q).
  { unfold s. rewrite Qabs_Qmult, (Qabs_pos (inject_Z scale)) by (apply Qlt_le_weak, Hsc).
    rewrite Hpow, inject_Z_mult. apply Qmult_le_compat_r; [exact Hx |].
    apply Qlt_le_weak, Hsc. }
  assert (Hk' : 0 ≤ k + 1074) by lia.
  pose proof (quantum_divides s (k + 1074) Hk' Hs) as Hd.
  apply Qabs_Qle_condition in Hs as [Hlo Hhi].
  assert (Hr1 : rne (s / inject_Z (quantum s)) * quantum s ≤ 2 ^ (k + 1074))
    by (apply rounded_le; assumption).
  assert (Hr2 : - 2 ^ (k + 1074) ≤ rne (s / inject_Z (quantum s)) * quantum s).
  { apply rounded_ge; [rewrite inject_Z_opp; exact Hlo |].
    apply Z.divide_opp_r. exact Hd. }
  set (r := rne (s / inject_Z (quantum s)) * quantum s) in *.
  rewrite Qred_correct. apply Qabs_Qle_condition. rewrite Hpow in Hr1, Hr2.
  split.
  - apply Qle_shift_div_l; [exact Hsc |].
    rewrite <- inject_Z_opp, <- inject_Z_mult, <- Zle_Qle. lia.
  - apply Qle_shift_div_r; [exact Hsc |].
    rewrite <- inject_Z_mult, <- Zle_Qle. lia.
Qed.

(** Below 2^1024 in magnitude there is no overflow. *)
Lemma round_bounded (x : Q) (k : Z) :
  0 ≤ k ≤ 1023 → (Qabs x <= inject_Z (2 ^ k))%Q →
  round x = Finite (nearest x) ∧ (Qabs (nearest x) <= inject_Z (2 ^ k))%Q.
Proof.
  intros Hk Hx. assert (Hk0 : 0 ≤ k) by lia.
  pose proof (nearest_bounded x k Hk0 Hx) as Hy.
  split; [| exact Hy]. unfold round.
  destruct (Qle_bool (inject_Z (2 ^ 1024)) (Qabs (nearest x))) eqn:Hb; [| reflexivity].
  exfalso. apply Qle_bool_iff in Hb.
  assert (Hlt : (inject_Z (2 ^ k) < inject_Z (2 ^ 1024))%Q).
  { rewrite <- Zlt_Qlt. apply Z.pow_lt_mono_r; lia. }
  apply (Qlt_irrefl (inject_Z (2 ^ 1024))).
  eapply Qle_lt_trans; [exact Hb |]. eapply Qle_lt_trans; [exact Hy | exact Hlt].
Qed.

Lemma nearest_nonneg (x : Q) : (0 <= x)%Q → (0 <= nearest x)%Q.
Proof.
  intros Hx. unfold nearest, units_of. set (s := (x * inject_Z scale)%Q).
  pose proof scale_pos as Hsc.
  assert (Hs : (inject_Z 0 <= s)%Q).
  { unfold s. apply Qmult_le_0_compat; [exact Hx | apply Qlt_le_weak, Hsc]. }
  pose proof (rounded_ge s 0 Hs (Z.divide_0_r _)) as Hr.
  rewrite Qred_correct. apply Qle_shift_div_l; [exact Hsc |].
  rewrite Qmult_0_l. change 0%Q with (inject_Z 0). rewrite <- Zle_Qle. exact Hr.
Qed.

Lemma nearest_nonpos (x : Q) : (x <= 0)%Q → (nearest x <= 0)%Q.
Proof.
  intros Hx. unfold nearest, units_of. set (s := (x * inject_Z scale)%Q).
  pose proof scale_pos as Hsc.
  assert (Hs : (s <= inject_Z 0)%Q).
  { assert (Hz : (0 * inject_Z scale == inject_Z 0)%Q) by ring.
    unfold s. rewrite <- Hz.
    apply Qmult_le_compat_r; [exact Hx | apply Qlt_le_weak, Hsc]. }
  pose proof (rounded_le s 0 Hs (Z.divide_0_r _)) as Hr.
  rewrite Qred_correct. apply Qle_shift_div_r; [exact Hsc |].
  rewrite Qmult_0_l. change 0%Q with (inject_Z 0). rewrite <- Zle_Qle. exact Hr.
Qed.

Lemma nearest_le_pow2 (x : Q) (k : Z) :
  0 ≤ k → (x <= inject_Z (2 ^ k))%Q → (nearest x <= inject_Z (2 ^ k))%Q.
Proof.
  intros Hk Hx. destruct (Qlt_le_dec 0 x) as [Hpos | Hneg].
  - eapply Qle_trans; [apply Qle_Qabs |]. apply nearest_bounded; [exact Hk |].
    rewrite Qabs_pos by (apply Qlt_le_weak, Hpos). exact Hx.
  - eapply Qle_trans; [apply nearest_nonpos, Hneg |].
    change 0%Q with (inject_Z 0). rewrite <- Zle_Qle. apply Z.pow_nonneg. lia.
Qed.

(** A whole number of units of 2^-1074 with at most 53 significant bits
    is a double: rounding leaves it as it is. *)
Lemma nearest_units (S t : Z) :
  0 ≤ t → (2 ^ t | S) → Z.abs S < 2 ^ (53 + t) →
  (nearest (inject_Z S / inject_Z scale) == inject_Z S / inject_Z scale)%Q.
Proof.
  intros Ht [M HM] Hb. unfold nearest, units_of.
  pose proof scale_pos as Hsc.
  assert (Hs : (inject_Z S / inject_Z scale * inject_Z scale == inject_Z S)%Q).
  { field. intros H0. rewrite H0 in Hsc. exact (Qlt_irrefl _ Hsc). }
  rewrite (quantum_proper _ _ Hs).
  assert (Hq : (quantum (inject_Z S) | S)).
  { unfold quantum, qexp.
    assert (Hfl : Qfloor (Qabs (inject_Z S)) = Z.abs S).
    { rewrite <- (Qfloor_Z (Z.abs S)). apply Qfloor_comp.
      unfold Qabs, inject_Z. cbn. reflexivity. }
    rewrite Hfl.
    set (j := Z.max 0 (Z.log2 (Z.abs S) - 52)).
    assert (Hj : 0 ≤ j ≤ t).
    { unfold j. destruct (Z.eq_dec S 0) as [-> | Hne];
        [change (Z.log2 (Z.abs 0)) with 0; lia |].
      assert (Z.log2 (Z.abs S) < 53 + t) by (apply Z.log2_lt_pow2; lia).
      lia. }
    apply (Z.divide_trans _ (2 ^ t)); [| by exists M].
    exists (2 ^ (t - j)). rewrite <- Z.pow_add_r by lia. f_equal. lia. }
  destruct Hq as [M' HM'].
  set (K := quantum (inject_Z S)) in *.
  assert (HK : 0 < K) by apply quantum_pos.
  assert (Hm : (inject_Z S / inject_Z scale * inject_Z scale / inject_Z K
                == inject_Z M')%Q).
  { rewrite Hs, HM', inject_Z_mult. field.
    intros H0. apply (Qlt_irrefl 0). rewrite <- H0 at 2.
    change 0%Q with (inject_Z 0). rewrite <- Zlt_Qlt. exact HK. }
  rewrite (rne_proper _ _ Hm), rne_Z, <- HM', Qred_correct. reflexivity.
Qed.

(** What an exact operation returns. *)
Lemma exact_value (x : Q) :
  (nearest x == x)%Q → (Qabs x < inject_Z (2 ^ 1024))%Q → exact x.
Proof.
  intros Hn Hb. unfold exact, round.
  destruct (Qle_bool (inject_Z (2 ^ 1024)) (Qabs (nearest x))) eqn:Hle.
  - exfalso. apply Qle_bool_iff in Hle. rewrite Hn in Hle.
    exact (Qlt_not_le _ _ Hb Hle).
  - f_equal. unfold nearest in *. apply Qred_complete.
    rewrite Qred_correct in Hn. exact Hn.
Qed.

(** An [int] of at most 53 bits converts without rounding. *)
Lemma exact_int (z : Z) : Z.abs z < 2 ^ 53 → exact (inject_Z z).
Proof.
  intros Hz. pose proof scale_pos as Hsc.
  assert (Hx : (inject_Z z == inject_Z (z * scale) / inject_Z scale)%Q).
  { rewrite inject_Z_mult. field.
    intros H0. rewrite H0 in Hsc. exact (Qlt_irrefl _ Hsc). }
  apply exact_value.
  - rewrite (nearest_proper _ _ Hx).
    eapply Qeq_trans; [| symmetry; exact Hx].
    apply (nearest_units (z * scale) 1074); [lia | |].
    + exists z. reflexivity.
    + rewrite Z.abs_mul, Z.pow_add_r by lia.
      rewrite (Z.abs_eq scale) by (unfold scale; apply Z.pow_nonneg; lia).
      apply Z.mul_lt_mono_pos_r; [unfold scale; apply Z.pow_pos_nonneg; lia | exact Hz].
  - assert (Ha : (Qabs (inject_Z z) == inject_Z (Z.abs z))%Q) by reflexivity.
    rewrite Ha, <- Zlt_Qlt.
    eapply Z.lt_trans; [exact Hz |]. apply Z.pow_lt_mono_r; lia.
Qed.

Lemma round_zero : round 0 = Finite 0.
Proof. vm_compute. reflexivity. Qed.

Lemma of_int_exact (z : Z) :
  exact (inject_Z z) → of_int z = Ok (Qred (inject_Z z)).
Proof. unfold exact, of_int. intros ->. reflexivity. Qed.

Lemma of_int_bounded (z : Z) :
  Z.abs z ≤ 2 ^ 1000 →
  ∃ w, of_int z = Ok w ∧ (Qabs w <= inject_Z (2 ^ 1000))%Q.
Proof.
  intros Hz.
  assert (Ha : (Qabs (inject_Z z) <= inject_Z (2 ^ 1000))%Q).
  { assert (Hab : (Qabs (inject_Z z) == inject_Z (Z.abs z))%Q) by reflexivity.
    rewrite Hab, <- Zle_Qle. exact Hz. }
  assert (Hk : 0 ≤ 1000 ≤ 1023) by lia.
  destruct (round_bounded (inject_Z z) 1000 Hk Ha) as [Hr Hb].
  exists (nearest (inject_Z z)). unfold of_int. rewrite Hr. split; [reflexivity | exact Hb].
Qed.

(** Sums and differences of numbers of magnitude at most 2^k. *)
Lemma pow2_double (k : Z) : 0 ≤ k → (inject_Z (2 ^ k) + inject_Z (2 ^ k) == inject_Z (2 ^ (k + 1)))%Q.
Proof.
  intros Hk. rewrite <- inject_Z_plus, Z.pow_add_r by lia.
  apply inject_Z_injective. lia.
Qed.

Lemma sub_bounded (x y : Q) (k : Z) :
  0 ≤ k ≤ 1022 →
  (Qabs x <= inject_Z (2 ^ k))%Q → (Qabs y <= inject_Z (2 ^ k))%Q →
  ∃ d, sub (Finite x) (Finite y) = Finite d ∧ (Qabs d <= inject_Z (2 ^ (k + 1)))%Q.
Proof.
  intros Hk Hx Hy.
  assert (Hd : (Qabs (x - y) <= inject_Z (2 ^ (k + 1)))%Q).
  { assert (Hk0 : 0 ≤ k) by lia. rewrite <- (pow2_double k Hk0).
    eapply Qle_trans; [apply Qabs_triangle |].
    rewrite Qabs_opp. apply Qplus_le_compat; assumption. }
  assert (Hk1 : 0 ≤ k + 1 ≤ 1023) by lia.
  destruct (round_bounded (x - y) (k + 1) Hk1 Hd) as [Hr Hb].
  exists (nearest (x - y)). cbn [sub]. rewrite Hr. split; [reflexivity | exact Hb].
Qed.

Lemma add_bounded (x y : Q) (k : Z) :
  0 ≤ k ≤ 1022 →
  (Qabs x <= inject_Z (2 ^ k))%Q → (Qabs y <= inject_Z (2 ^ k))%Q →
  ∃ d, add (Finite x) (Finite y) = Finite d ∧ (Qabs d <= inject_Z (2 ^ (k + 1)))%Q.
Proof.
  intros Hk Hx Hy.
  assert (Hd : (Qabs (x + y) <= inject_Z (2 ^ (k + 1)))%Q).
  { assert (Hk0 : 0 ≤ k) by lia. rewrite <- (pow2_double k Hk0).
    eapply Qle_trans; [apply Qabs_triangle |].
    apply Qplus_le_compat; assumption. }
  assert (Hk1 : 0 ≤ k + 1 ≤ 1023) by lia.
  destruct (round_bounded (x + y) (k + 1) Hk1 Hd) as [Hr Hb].
  exists (nearest (x + y)). cbn [add]. rewrite Hr. split; [reflexivity | exact Hb].
Qed.

Lemma pow2_le_weaken (x : Q) (k k' : Z) :
  k ≤ k' → (Qabs x <= inject_Z (2 ^ k))%Q → (Qabs x <= inject_Z (2 ^ k'))%Q.
Proof.
  intros Hk Hx. eapply Qle_trans; [exact Hx |].
  rewrite <- Zle_Qle. apply Z.pow_le_mono_r; lia.
Qed.

Lemma nearest_units_of (q : Q) :
  (nearest q == inject_Z (units_of q) / inject_Z scale)%Q.
Proof. unfold nearest. apply Qred_correct. Qed.

Lemma abs_lt_pow2 (s : Q) : (Qabs s < inject_Z (2 ^ (53 + qexp s)))%Q.
Proof.
  pose proof (Qabs_nonneg s) as Hn.
  assert (Hf : 0 ≤ Qfloor (Qabs s)).
  { rewrite <- (Qfloor_Z 0). apply Qfloor_resp_le. exact Hn. }
  assert (Hlt : Qfloor (Qabs s) < 2 ^ (53 + qexp s)).
  { destruct (Z.eq_dec (Qfloor (Qabs s)) 0) as [-> | Hne].
    - apply Z.pow_pos_nonneg; [lia |]. pose proof (qexp_nonneg s). lia.
    - apply Z.log2_lt_pow2; [lia |]. unfold qexp. lia. }
  eapply Qlt_le_trans; [apply (Qlt_floor (Qabs s)) |].
  rewrite <- Zle_Qle. lia.
Qed.

(** The nearest double has at most 53 significant bits on its grid. *)
Lemma units_of_bound (q : Q) :
  Z.abs (units_of q) ≤ 2 ^ (53 + qexp (q * inject_Z scale)).
Proof.
  unfold units_of. set (s := (q * inject_Z scale)%Q).
  pose proof (abs_lt_pow2 s) as Hs. pose proof (qexp_nonneg s) as Hj.
  assert (Hp : 2 ^ (53 + qexp s) = 2 ^ 53 * 2 ^ qexp s) by (apply Z.pow_add_r; lia).
  assert (Hd : (quantum s | 2 ^ (53 + qexp s))) by (exists (2 ^ 53); exact Hp).
  assert (Hd' : (quantum s | - 2 ^ (53 + qexp s))) by (apply Z.divide_opp_r, Hd).
  apply Qlt_le_weak, Qabs_Qle_condition in Hs as [Hlo Hhi].
  rewrite <- inject_Z_opp in Hlo.
  pose proof (rounded_le s _ Hhi Hd) as H1. pose proof (rounded_ge s _ Hlo Hd') as H2.
  lia.
Qed.

Lemma units_of_divisible (q : Q) : (2 ^ qexp (q * inject_Z scale) | units_of q).
Proof. unfold units_of, quantum. apply Z.divide_factor_r. Qed.

Lemma floor_abs_ge (s : Q) (j : Z) :
  0 < j → qexp s = j → (inject_Z (2 ^ (j + 52)) <= Qabs s)%Q.
Proof.
  intros Hj Hq. unfold qexp in Hq.
  assert (Hb : Z.log2 (Qfloor (Qabs s)) = j + 52) by lia.
  assert (Hpos : 0 < Qfloor (Qabs s)).
  { destruct (Z.lt_ge_cases 0 (Qfloor (Qabs s))) as [H | H]; [exact H |].
    rewrite Z.log2_nonpos in Hb by exact H. lia. }
  destruct (Z.log2_spec _ Hpos) as [Hlo _]. rewrite Hb in Hlo.
  eapply Qle_trans; [| apply Qfloor_le]. rewrite <- Zle_Qle. exact Hlo.
Qed.

(** A double that is not above [q2] is not above the double nearest to
    [q2]: rounding does not cross a double. *)
Lemma nearest_ge_double (q1 q2 : Q) :
  (nearest q1 <= q2)%Q → (nearest q1 <= nearest q2)%Q.
Proof.
  intros Hle. pose proof scale_pos as Hsc.
  assert (Hne : ¬ (inject_Z scale == 0)%Q).
  { intros H0. rewrite H0 in Hsc. exact (Qlt_irrefl _ Hsc). }
  rewrite (nearest_units_of q2). rewrite (nearest_units_of q1) in Hle |- *.
  pose proof (units_of_bound q1) as HDb. pose proof (units_of_divisible q1) as HDd.
  set (D := units_of q1) in *.
  set (s1 := (q1 * inject_Z scale)%Q) in *. set (s2 := (q2 * inject_Z scale)%Q).
  assert (Hs2 : (inject_Z D <= s2)%Q).
  { unfold s2. apply (Qmult_le_r _ _ (inject_Z scale) Hsc) in Hle.
    assert (He : (inject_Z D / inject_Z scale * inject_Z scale == inject_Z D)%Q)
      by (field; exact Hne).
    rewrite He in Hle. exact Hle. }
  assert (Hgoal : D ≤ units_of q2).
  { unfold units_of. fold s2.
    pose proof (qexp_nonneg s1) as Hj1. pose proof (qexp_nonneg s2) as Hj2.
    destruct (Z.le_gt_cases (qexp s2) (qexp s1)) as [Hj | Hj].
    - apply (rounded_ge s2 D Hs2).
      apply (Z.divide_trans _ (2 ^ qexp s1)); [| exact HDd].
      exists (2 ^ (qexp s1 - qexp s2)). unfold quantum.
      rewrite <- Z.pow_add_r by lia. f_equal. lia.
    - assert (Hpos : 0 < qexp s2) by lia.
      pose proof (floor_abs_ge s2 (qexp s2) Hpos eq_refl) as Habs.
      assert (Hbig : 2 ^ (53 + qexp s1) ≤ 2 ^ (qexp s2 + 52))
        by (apply Z.pow_le_mono_r; lia).
      assert (Hdiv : (quantum s2 | 2 ^ (qexp s2 + 52))).
      { exists (2 ^ 52). unfold quantum. rewrite <- Z.pow_add_r by lia. f_equal. lia. }
      destruct (Qlt_le_dec s2 0) as [Hneg | Hnn].
      + rewrite (Qabs_neg s2) in Habs by (apply Qlt_le_weak, Hneg).
        assert (HD : (inject_Z D <= - inject_Z (2 ^ (qexp s2 + 52)))%Q) by lra.
        rewrite <- inject_Z_opp, <- Zle_Qle in HD.
        assert (HDeq : D = - 2 ^ (qexp s2 + 52)) by lia.
        apply (rounded_ge s2 D Hs2). rewrite HDeq. apply Z.divide_opp_r, Hdiv.
      + rewrite (Qabs_pos s2) in Habs by exact Hnn.
        pose proof (rounded_ge s2 _ Habs Hdiv) as Hr. lia. }
  apply Qmult_le_compat_r; [rewrite <- Zle_Qle; exact Hgoal |].
  apply Qlt_le_weak, Qinv_lt_0_compat, Hsc.
Qed.

(** A double that is not below [q2] is not below the double nearest to
    [q2]. *)
Lemma nearest_le_double (q1 q2 : Q) :
  (q2 <= nearest q1)%Q → (nearest q2 <= nearest q1)%Q.
Proof.
  intros Hle. pose proof scale_pos as Hsc.
  assert (Hne : ¬ (inject_Z scale == 0)%Q).
  { intros H0. rewrite H0 in Hsc. exact (Qlt_irrefl _ Hsc). }
  rewrite (nearest_units_of q2). rewrite (nearest_units_of q1) in Hle |- *.
  pose proof (units_of_bound q1) as HDb. pose proof (units_of_divisible q1) as HDd.
  set (D := units_of q1) in *.
  set (s1 := (q1 * inject_Z scale)%Q) in *. set (s2 := (q2 * inject_Z scale)%Q).
  assert (Hs2 : (s2 <= inject_Z D)%Q).
  { unfold s2. apply (Qmult_le_r _ _ (inject_Z scale) Hsc) in Hle.
    assert (He : (inject_Z D / inject_Z scale * inject_Z scale == inject_Z D)%Q)
      by (field; exact Hne).
    rewrite He in Hle. exact Hle. }
  assert (Hgoal : units_of q2 ≤ D).
  { unfold units_of. fold s2.
    pose proof (qexp_nonneg s1) as Hj1. pose proof (qexp_nonneg s2) as Hj2.
    destruct (Z.le_gt_cases (qexp s2) (qexp s1)) as [Hj | Hj].
    - apply (rounded_le s2 D Hs2).
      apply (Z.divide_trans _ (2 ^ qexp s1)); [| exact HDd].
      exists (2 ^ (qexp s1 - qexp s2)). unfold quantum.
      rewrite <- Z.pow_add_r by lia. f_equal. lia.
    - assert (Hpos : 0 < qexp s2) by lia.
      pose proof (floor_abs_ge s2 (qexp s2) Hpos eq_refl) as Habs.
      assert (Hbig : 2 ^ (53 + qexp s1) ≤ 2 ^ (qexp s2 + 52))
        by (apply Z.pow_le_mono_r; lia).
      assert (Hdiv : (quantum s2 | 2 ^ (qexp s2 + 52))).
      { exists (2 ^ 52). unfold quantum. rewrite <- Z.pow_add_r by lia. f_equal. lia. }
      destruct (Qlt_le_dec s2 0) as [Hneg | Hnn].
      + rewrite (Qabs_neg s2) in Habs by (apply Qlt_le_weak, Hneg).
        assert (Hs : (s2 <= inject_Z (- 2 ^ (qexp s2 + 52)))%Q)
          by (rewrite inject_Z_opp; lra).
        pose proof (rounded_le s2 _ Hs (proj2 (Z.divide_opp_r _ _) Hdiv)) as Hr. lia.
      + rewrite (Qabs_pos s2) in Habs by exact Hnn.
        assert (HD : (inject_Z (2 ^ (qexp s2 + 52)) <= inject_Z D)%Q) by lra.
        rewrite <- Zle_Qle in HD.
        assert (HDeq : D = 2 ^ (qexp s2 + 52)) by lia.
        apply (rounded_le s2 D Hs2). rewrite HDeq. exact Hdiv. }
  apply Qmult_le_compat_r; [rewrite <- Zle_Qle; exact Hgoal |].
  apply Qlt_le_weak, Qinv_lt_0_compat, Hsc.
Qed.

(** Truncation depends on the value only. *)
Lemma Qtrunc_floor (x : Q) :
  Qtrunc x = if Qle_bool 0 x then Qfloor x else - Qfloor (- x).
Proof.
  destruct x as [n d]. unfold Qtrunc, Qfloor, Qle_bool, Qopp.
  cbn [Qnum Qden]. change (0 * Z.pos d) with 0. rewrite Z.mul_1_r.
  destruct (Z.leb_spec 0 n) as [Hn | Hn].
  - apply Z.quot_div_nonneg; lia.
  - rewrite <- (Z.opp_involutive n) at 1. rewrite Z.quot_opp_l by lia.
    f_equal. apply Z.quot_div_nonneg; lia.
Qed.

Lemma Qtrunc_proper (x y : Q) : (x == y)%Q → Qtrunc x = Qtrunc y.
Proof.
  intros H. rewrite !Qtrunc_floor.
  assert (Hb : Qle_bool 0 x = Qle_bool 0 y).
  { apply eq_true_iff_eq. rewrite !Qle_bool_iff, H. reflexivity. }
  rewrite Hb. destruct (Qle_bool 0 y).
  - apply Qfloor_comp, H.
  - f_equal. apply Qfloor_comp. rewrite H. reflexivity.
Qed.

Lemma round_finite (x y : Q) :
  round x = Finite y → y = nearest x.
Proof.
  unfold round. destruct (Qle_bool _ _); [discriminate |].
  by intros [= <-].
Qed.

Lemma of_int_nearest (z : Z) (w : Q) :
  of_int z = Ok w → w = nearest (inject_Z z).
Proof.
  unfold of_int. destruct (round (inject_Z z)) as [y | |] eqn:Hr; try discriminate.
  intros [= <-]. by apply round_finite.
Qed.

(** Whole numbers below 2^53 in magnitude are doubles. *)
Lemma nearest_int (z : Z) :
  Z.abs z < 2 ^ 53 → (nearest (inject_Z z) == inject_Z z)%Q.
Proof.
  intros Hz. pose proof (exact_int z Hz) as He. unfold exact in He.
  apply round_finite in He. rewrite <- He. apply Qred_correct.
Qed.

Lemma of_int_small (z : Z) :
  Z.abs z < 2 ^ 53 → ∃ w, of_int z = Ok w ∧ (w == inject_Z z)%Q.
Proof.
  intros Hz. exists (Qred (inject_Z z)).
  split; [apply of_int_exact, exact_int, Hz | apply Qred_correct].
Qed.

(** From 2^1024 on, the conversion of an [int] raises. *)
Lemma of_int_overflow (z : Z) :
  2 ^ 1024 ≤ Z.abs z → of_int z = Error OverflowError.
Proof.
  intros Hz. unfold of_int, round.
  assert (Hbig : (inject_Z (2 ^ 1024) <= Qabs (nearest (inject_Z z)))%Q).
  { destruct (Z_le_gt_dec 0 z) as [Hpos | Hneg].
    - assert (H1 : (nearest (inject_Z (2 ^ 1024)) == inject_Z (2 ^ 1024))%Q)
        by (vm_compute; reflexivity).
      assert (Hle : (nearest (inject_Z (2 ^ 1024)) <= inject_Z z)%Q).
      { rewrite H1. rewrite <- Zle_Qle. lia. }
      pose proof (nearest_ge_double _ _ Hle) as H. rewrite H1 in H.
      eapply Qle_trans; [exact H | apply Qle_Qabs].
    - assert (H1 : (nearest (inject_Z (- 2 ^ 1024)) == inject_Z (- 2 ^ 1024))%Q)
        by (vm_compute; reflexivity).
      assert (Hle : (inject_Z z <= nearest (inject_Z (- 2 ^ 1024)))%Q).
      { rewrite H1. rewrite <- Zle_Qle. lia. }
      pose proof (nearest_le_double _ _ Hle) as H. rewrite H1 in H.
      rewrite <- Qabs_opp.
      eapply Qle_trans; [| apply Qle_Qabs].
      rewrite inject_Z_opp in H. lra. }
  apply Qle_bool_iff in Hbig. rewrite Hbig. reflexivity.
Qed.

End FloatFacts.

(** ** Fault catalog *)

Section ErrorsFacts.
Import Errors.

Lemma error_catalog_dom :
  dom error_catalog = list_to_set [400; 401; 403; 404; 422; 429; 500; 502; 503; 504].
Proof. unfold error_catalog. rewrite dom_list_to_map_L. reflexivity. Qed.

(** C9. A code present in the static catalog gets the catalog's
    (title, message, fix) unchanged; a code absent from it gets the
    generic entry: title "Unknown Error", a message that echoes the code
    in decimal, and the generic remediation text. *)
Theorem get_error_details_catalog (code : Z) :
  (∀ entry, error_catalog !! code = Some entry → get_error_details code = entry) ∧
  (error_catalog !! code = None →
     get_error_details code =
       ("Unknown Error",
        "HTTP status code " +:+ pretty code +:+ " was returned.",
        "Refer to HTTP status code documentation for this specific error.")).
Proof.
  unfold get_error_details. split.
  - intros entry Hin. rewrite Hin. reflexivity.
  - intros Hout. rewrite Hout. reflexivity.
Qed.

Lemma get_error_details_catalog_witness :
  get_error_details 401 =
    ("Unauthorized",
     "Authentication credentials are missing or invalid.",
     "Include a valid API key in the 'x-api-key' header or check your authentication token.")
  ∧ get_error_details 418 =
    ("Unknown Error", "HTTP status code 418 was returned.",
     "Refer to HTTP status code documentation for this specific error.").
Proof.
  split.
  - apply (proj1 (get_error_details_catalog 401)). reflexivity.
  - apply (proj2 (get_error_details_catalog 418)). reflexivity.
Defined.

End ErrorsFacts.

(** ** Status simulation handler *)

Section StatusFacts.
Import Errors Simulate.

Lemma in_range_test (code : Z) :
  200 ≤ code ≤ 599 → ((code <? 200) || (599 <? code))%bool = false.
Proof. intros [Hlo Hhi]. apply orb_false_iff. split; apply Z.ltb_ge; lia. Qed.

Lemma out_of_range_test (code : Z) :
  ¬ (200 ≤ code ≤ 599) → ((code <? 200) || (599 <? code))%bool = true.
Proof.
  intros Hout. apply orb_true_iff.
  destruct (Z.ltb_spec code 200) as [Hlt | Hge]; [left; reflexivity | right].
  apply Z.ltb_lt. lia.
Qed.

(** In range, the handler returns a response whose status and body code
    are the requested code and whose title is the catalog's. *)
Lemma simulate_status_returns ts rid code ih :
  200 ≤ code ≤ 599 →
  ∃ resp, simulate_status ts rid code ih = Return resp
          ∧ status_code resp = code
          ∧ sb_code (content resp) = code
          ∧ sb_error (content resp) = (get_error_details code).1.1
          ∧ sb_request_id (content resp) = rid.
Proof.
  intros Hr. unfold simulate_status. rewrite (in_range_test code Hr).
  destruct (get_error_details code) as [[title message] fix_hint].
  eexists. split; [reflexivity |]. cbn. auto.
Qed.

(** C3. For a code in [200, 599] the handler returns a response with
    exactly that status and with the code in its body; for a code
    outside the range it raises the 400 validation error and returns no
    response. *)
Theorem simulate_status_range ts rid (code : Z) ih :
  (200 ≤ code ≤ 599 →
     ∃ resp, simulate_status ts rid code ih = Return resp
             ∧ status_code resp = code ∧ sb_code (content resp) = code) ∧
  (¬ (200 ≤ code ≤ 599) →
     simulate_status ts rid code ih = Raise 400 "Status code must be between 200-599").
Proof.
  split.
  - intros Hr. destruct (simulate_status_returns ts rid code ih Hr)
      as (resp & Heq & Hs & Hc & _).
    exists resp. auto.
  - intros Hout. unfold simulate_status. rewrite (out_of_range_test code Hout).
    reflexivity.
Qed.

Lemma simulate_status_range_witness :
  (∃ resp, simulate_status "2024-01-01T00:00:00Z" "req_0123456789ab" 503 false = Return resp
           ∧ status_code resp = 503 ∧ sb_code (content resp) = 503)
  ∧ simulate_status "2024-01-01T00:00:00Z" "req_0123456789ab" 600 true
    = Raise 400 "Status code must be between 200-599".
Proof.
  split.
  - apply (proj1 (simulate_status_range _ _ 503 false)). lia.
  - apply (proj2 (simulate_status_range _ _ 600 true)). lia.
Defined.

(** C5, as the code has it.  With include_headers true the response
    carries x-debug-mode, the request identifier of the body as
    x-request-id, and x-error-type equal to the title lowercased with
    spaces turned into underscores; for code 429 it also carries
    retry-after 60, x-ratelimit-remaining 0 and x-ratelimit-limit 100
    (only the remaining quota is zero), and for code 401 it carries
    www-authenticate Bearer. *)
Theorem simulate_status_debug_headers ts rid (code : Z) :
  200 ≤ code ≤ 599 →
  ∃ resp, simulate_status ts rid code true = Return resp
    ∧ headers resp !! "x-debug-mode" = Some "true"
    ∧ headers resp !! "x-request-id" = Some (sb_request_id (content resp))
    ∧ sb_request_id (content resp) = rid
    ∧ headers resp !! "x-error-type"
      = Some (PyStr.replace " " "_" (PyStr.lower (sb_error (content resp))))
    ∧ (code = 429 →
         headers resp !! "retry-after" = Some "60"
         ∧ headers resp !! "x-ratelimit-limit" = Some "100"
         ∧ headers resp !! "x-ratelimit-remaining" = Some "0")
    ∧ (code = 401 → headers resp !! "www-authenticate" = Some "Bearer").
Proof.
  intros Hr. unfold simulate_status. rewrite (in_range_test code Hr).
  destruct (get_error_details code) as [[title message] fix_hint].
  eexists. split; [reflexivity |]. cbn [headers content sb_request_id sb_error].
  destruct (Z.eqb_spec code 429) as [-> | Hn429];
    [| destruct (Z.eqb_spec code 401) as [-> | Hn401]].
  - repeat split; try (intros; discriminate); by simplify_map_eq.
  - repeat split; try (intros; discriminate); by simplify_map_eq.
  - repeat split; try (intros; congruence); by simplify_map_eq.
Qed.

Lemma simulate_status_debug_headers_witness :
  ∃ resp, simulate_status "2024-01-01T00:00:00Z" "req_0123456789ab" 429 true = Return resp
    ∧ headers resp !! "x-error-type" = Some "too_many_requests"
    ∧ headers resp !! "retry-after" = Some "60"
    ∧ headers resp !! "x-ratelimit-remaining" = Some "0".
Proof.
  destruct (simulate_status_debug_headers "2024-01-01T00:00:00Z" "req_0123456789ab" 429)
    as (resp & Heq & _ & _ & _ & Hty & H429 & _); [lia |].
  exists resp. destruct (H429 eq_refl) as (Hra & _ & Hrem).
  split; [exact Heq |]. split; [| split; assumption].
  rewrite Hty. f_equal.
  injection Heq as <-. reflexivity.
Defined.

(** C5 as first stated fails on one header: for code 429 the rate-limit
    headers are not all zero, x-ratelimit-limit is 100. *)
Lemma simulate_status_429_limit_header :
  ∃ resp, simulate_status "2024-01-01T00:00:00Z" "req_0123456789ab" 429 true = Return resp
    ∧ headers resp !! "x-ratelimit-remaining" = Some "0"
    ∧ headers resp !! "x-ratelimit-limit" = Some "100"
    ∧ headers resp !! "x-ratelimit-limit" ≠ Some "0".
Proof.
  eexists. split; [reflexivity |]. cbn [headers].
  split; [by simplify_map_eq |]. split; [by simplify_map_eq |].
  by simplify_map_eq.
Qed.

End StatusFacts.

(** ** Malformed-JSON handler *)

Section InvalidJsonFacts.
Import Simulate.

Lemma json_errors_dom : dom json_errors = list_to_set json_error_types.
Proof. unfold json_errors. rewrite dom_list_to_map_L. reflexivity. Qed.

Lemma json_error_types_cases (error_type : string) :
  error_type ∈ json_error_types →
  error_type = "missing_comma" ∨ error_type = "unclosed_brace"
  ∨ error_type = "invalid_escape" ∨ error_type = "trailing_comma"
  ∨ error_type = "unquoted_key" ∨ error_type = "single_quotes".
Proof.
  unfold json_error_types. rewrite !elem_of_cons, elem_of_nil. tauto.
Qed.

Lemma simulate_invalid_json_unknown (error_type : string) :
  error_type ∉ json_error_types →
  simulate_invalid_json error_type = simulate_invalid_json "missing_comma".
Proof.
  intros Hout. unfold simulate_invalid_json at 1.
  destruct (decide (error_type ∈ dom json_errors)) as [Hin | _].
  - rewrite json_errors_dom, elem_of_list_to_set in Hin. contradiction.
  - reflexivity.
Qed.

(** C7. For every error_type the handler returns status 200 with
    content-type application/json and a body that is one of the literal
    constants of the table; a value outside the six enumerated types is
    answered exactly as missing_comma is (the handler has no failing
    outcome), and the missing_comma body is the literal text. *)
Theorem simulate_invalid_json_literal (error_type : string) :
  status_code (simulate_invalid_json error_type) = 200
  ∧ headers (simulate_invalid_json error_type) !! "content-type"
    = Some "application/json"
  ∧ (∃ k, k ∈ json_error_types
          ∧ json_errors !! k = Some (content (simulate_invalid_json error_type)))
  ∧ (error_type ∉ json_error_types →
       simulate_invalid_json error_type = simulate_invalid_json "missing_comma")
  ∧ content (simulate_invalid_json "missing_comma") = missing_comma_literal.
Proof.
  split; [reflexivity |]. split; [reflexivity |].
  split; [| split; [apply simulate_invalid_json_unknown | reflexivity]].
  destruct (decide (error_type ∈ json_error_types)) as [Hin | Hout].
  - exists error_type. split; [exact Hin |].
    destruct (json_error_types_cases _ Hin)
      as [-> | [-> | [-> | [-> | [-> | ->]]]]]; reflexivity.
  - exists "missing_comma". split; [unfold json_error_types; apply elem_of_cons; by left |].
    rewrite (simulate_invalid_json_unknown _ Hout). reflexivity.
Qed.

Lemma simulate_invalid_json_literal_witness :
  simulate_invalid_json "no_such_type" = simulate_invalid_json "missing_comma"
  ∧ content (simulate_invalid_json "no_such_type") = missing_comma_literal.
Proof.
  destruct (simulate_invalid_json_literal "no_such_type")
    as (_ & _ & _ & Hfb & Hlit).
  assert (Hout : "no_such_type" ∉ json_error_types).
  { unfold json_error_types. rewrite !elem_of_cons, elem_of_nil.
    intros [H | [H | [H | [H | [H | [H | []]]]]]]; discriminate H. }
  split; [exact (Hfb Hout) |]. rewrite (Hfb Hout). exact Hlit.
Defined.

End InvalidJsonFacts.

(** ** Network-error handler *)

Section NetworkFacts.
Import Simulate.

(** C8. connection_reset raises the simulated 500 failure "Connection
    reset by peer"; dns_failure and ssl_error return structured 502
    bodies with their fixed error type and common-causes list; every
    other value raises the 400 validation error "Unknown network error
    type". *)
Theorem simulate_network_error_cases (error_type : string) :
  (error_type = "connection_reset" →
     simulate_network_error error_type = Raise 500 "Connection reset by peer")
  ∧ (error_type = "dns_failure" →
     ∃ resp, simulate_network_error error_type = Return resp
       ∧ status_code resp = 502 ∧ nb_code (content resp) = 502
       ∧ nb_message (content resp) = "DNS resolution failed for upstream service"
       ∧ nb_debug_error_type (content resp) = "dns_resolution_failure"
       ∧ nb_debug_common_causes (content resp)
         = ["Network connectivity issues"; "DNS server problems";
            "Firewall blocking DNS"])
  ∧ (error_type = "ssl_error" →
     ∃ resp, simulate_network_error error_type = Return resp
       ∧ status_code resp = 502 ∧ nb_code (content resp) = 502
       ∧ nb_message (content resp) = "SSL certificate verification failed"
       ∧ nb_debug_error_type (content resp) = "ssl_verification_failure"
       ∧ nb_debug_common_causes (content resp)
         = ["Expired certificate"; "Self-signed certificate";
            "Certificate chain issues"])
  ∧ (error_type ∉ ["connection_reset"; "dns_failure"; "ssl_error"] →
     simulate_network_error error_type = Raise 400 "Unknown network error type").
Proof.
  repeat split.
  - intros ->. reflexivity.
  - intros ->. eexists. split; [reflexivity |]. cbn. auto.
  - intros ->. eexists. split; [reflexivity |]. cbn. auto.
  - rewrite !elem_of_cons, elem_of_nil. intros Hout.
    unfold simulate_network_error.
    destruct (String.eqb_spec error_type "connection_reset") as [-> | _]; [tauto |].
    destruct (String.eqb_spec error_type "dns_failure") as [-> | _]; [tauto |].
    destruct (String.eqb_spec error_type "ssl_error") as [-> | _]; [tauto |].
    reflexivity.
Qed.

Lemma simulate_network_error_cases_witness :
  simulate_network_error "connection_reset" = Raise 500 "Connection reset by peer"
  ∧ simulate_network_error "timeout" = Raise 400 "Unknown network error type".
Proof.
  split.
  - apply (proj1 (simulate_network_error_cases "connection_reset")). reflexivity.
  - apply (proj2 (proj2 (proj2 (simulate_network_error_cases "timeout")))).
    rewrite !elem_of_cons, elem_of_nil.
    intros [H | [H | [H | []]]]; discriminate H.
Defined.

End NetworkFacts.

(** ** Delay handler *)

Section SlowFacts.
Import Simulate.

(** [max(0.1, x)] on a finite float. *)
Lemma max_point_one (x : Q) :
  ∃ d, PyFloat.max (PyFloat.Finite point_one) (PyFloat.Finite x) = PyFloat.Finite d
       ∧ (point_one <= d)%Q ∧ (x <= d)%Q
       ∧ ((point_one <= x)%Q → (d == x)%Q)
       ∧ (d = x ∨ d = point_one).
Proof.
  unfold PyFloat.max, PyFloat.gt.
  destruct (Qlt_le_dec point_one x) as [Hlt | Hle].
  - exists x. split; [reflexivity |]. split; [lra |]. split; [lra |].
    split; [reflexivity | by left].
  - exists point_one. split; [reflexivity |]. split; [lra |]. split; [lra |].
    split; [lra | by right].
Qed.

(** C6, at the input where the code departs from it.  For seconds =
    -10^400, which passes the check seconds > 30, the handler gives no
    response: with jitter the conversion of seconds to a float at line
    120 raises OverflowError before any delay; without jitter the sleep
    is requested and the format .2f of line 129 raises OverflowError
    after it.  Either way the client gets a 500. *)
Theorem simulate_slow_overflow (u : Q) :
  simulate_slow u (- 10 ^ 400) true = ([], Uncaught OverflowError)
  ∧ simulate_slow u (- 10 ^ 400) false
    = ([Sleep (inject_Z (- 10 ^ 400))], Uncaught OverflowError).
Proof.
  assert (Hlt : (30 <? - 10 ^ 400) = false) by (vm_compute; reflexivity).
  assert (Hov : PyFloat.of_int (- 10 ^ 400) = Error OverflowError)
    by (vm_compute; reflexivity).
  unfold simulate_slow. rewrite Hlt, Hov. split; reflexivity.
Qed.

End SlowFacts.

(** ** Random fault handler *)

Section RandomFacts.
Import Errors Simulate.

Lemma possible_codes_in_range (code : Z) :
  code ∈ possible_codes → 200 ≤ code ≤ 599.
Proof.
  unfold possible_codes. rewrite !elem_of_cons, elem_of_nil.
  intros [-> | [-> | [-> | [-> | [-> | [-> | [-> | [-> | [-> | [-> | []]]]]]]]]]]; lia.
Qed.

Lemma random_choice_elem (r : nat) (seq : list Z) :
  seq ≠ [] → ∃ x, random_choice r seq = Some x ∧ x ∈ seq.
Proof.
  intros Hne. unfold random_choice.
  assert (Hlt : (r mod length seq < length seq)%nat).
  { apply Nat.mod_upper_bound. destruct seq; [contradiction | discriminate]. }
  destruct (lookup_lt_is_Some_2 seq _ Hlt) as [x Hx].
  exists x. split; [exact Hx |]. eapply list_elem_of_lookup_2, Hx.
Qed.

Lemma remaining_codes_nonempty (exclude_codes : string) :
  remaining_codes exclude_codes ≠ [].
Proof.
  unfold remaining_codes.
  destruct (decide (exclude_codes = EmptyString)); [discriminate |].
  destruct (parse_excluded exclude_codes) as [excluded |]; [| discriminate].
  destruct (filter _ possible_codes); discriminate.
Qed.

Lemma remaining_codes_in_range (exclude_codes : string) (code : Z) :
  code ∈ remaining_codes exclude_codes → 200 ≤ code ≤ 599.
Proof.
  unfold remaining_codes.
  destruct (decide (exclude_codes = EmptyString)); [apply possible_codes_in_range |].
  destruct (parse_excluded exclude_codes) as [excluded |];
    [| apply possible_codes_in_range].
  destruct (filter _ possible_codes) as [| c l] eqn:Hf.
  - rewrite list_elem_of_singleton. intros ->. lia.
  - rewrite <- Hf, list_elem_of_filter. intros [_ Hin].
    by apply possible_codes_in_range.
Qed.

(** The handler always answers, with a status drawn from
    [remaining_codes]. *)
Lemma simulate_random_returns r p d ts rid exclude_codes :
  ∃ resp, (simulate_random r p d ts rid exclude_codes).2 = Return resp
          ∧ status_code resp ∈ remaining_codes exclude_codes.
Proof.
  unfold simulate_random.
  destruct (random_choice_elem r _ (remaining_codes_nonempty exclude_codes))
    as (code & Hch & Hin).
  rewrite Hch. cbn [snd].
  destruct (simulate_status_returns ts rid code true
              (remaining_codes_in_range _ _ Hin)) as (resp & Heq & Hs & _).
  exists resp. split; [exact Heq |]. by rewrite Hs.
Qed.

Lemma remaining_codes_parsed (exclude_codes : string) (excluded : list Z) :
  exclude_codes ≠ EmptyString →
  Forall2 (λ entry v, PyStr.int (PyStr.strip entry) = Some v)
          (PyStr.split "," exclude_codes) excluded →
  remaining_codes exclude_codes
  = match filter (λ code, code ∉ excluded) possible_codes with
    | [] => [500]
    | l => l
    end.
Proof.
  intros Hne Hall. unfold remaining_codes.
  destruct (decide (exclude_codes = EmptyString)); [contradiction |].
  unfold parse_excluded. rewrite (mapM_Some_2 _ _ _ Hall).
  destruct (filter _ possible_codes); reflexivity.
Qed.

Lemma remaining_codes_malformed (exclude_codes : string) :
  Exists (λ entry, PyStr.int (PyStr.strip entry) = None)
         (PyStr.split "," exclude_codes) →
  remaining_codes exclude_codes = possible_codes.
Proof.
  intros Hbad. unfold remaining_codes.
  destruct (decide (exclude_codes = EmptyString)); [reflexivity |].
  unfold parse_excluded. rewrite (mapM_None_2 _ _ Hbad). reflexivity.
Qed.

(** What the handler returns is the draw of [random.choice] from
    [remaining_codes]. *)
Lemma simulate_random_draw r p d ts rid exclude_codes :
  ∃ resp, (simulate_random r p d ts rid exclude_codes).2 = Return resp
          ∧ random_choice r (remaining_codes exclude_codes)
            = Some (status_code resp)
          ∧ status_code resp ∈ remaining_codes exclude_codes.
Proof.
  unfold simulate_random.
  destruct (random_choice_elem r _ (remaining_codes_nonempty exclude_codes))
    as (code & Hch & Hin).
  rewrite Hch. cbn [snd].
  destruct (simulate_status_returns ts rid code true
              (remaining_codes_in_range _ _ Hin)) as (resp & Heq & Hs & _).
  exists resp. split; [exact Heq |]. rewrite Hs. by split.
Qed.

(** C4, as the code has it.  The handler always answers, with the
    status code that random.choice draws from the pool left after the
    exclusions.  With an empty exclude_codes, or as soon as one
    comma-separated entry does not parse as an integer, the whole
    exclusion list is set aside: the pool is the full pool, entries that
    did parse included, and the code is drawn from it.  When every entry
    parses, the pool is the full pool minus the parsed values, or 500
    alone if that leaves nothing: the code is then not an excluded one,
    it is 500 if everything was excluded, and if exactly one code is
    left, that code is returned. *)
Theorem simulate_random_pool r p d ts rid (exclude_codes : string) :
  ∃ resp,
    (simulate_random r p d ts rid exclude_codes).2 = Return resp
    ∧ random_choice r (remaining_codes exclude_codes) = Some (status_code resp)
    ∧ (exclude_codes = EmptyString →
       remaining_codes exclude_codes = possible_codes
       ∧ random_choice r possible_codes = Some (status_code resp)
       ∧ status_code resp ∈ possible_codes)
    ∧ (Exists (λ entry, PyStr.int (PyStr.strip entry) = None)
              (PyStr.split "," exclude_codes) →
       remaining_codes exclude_codes = possible_codes
       ∧ random_choice r possible_codes = Some (status_code resp)
       ∧ status_code resp ∈ possible_codes)
    ∧ (∀ excluded,
         exclude_codes ≠ EmptyString →
         Forall2 (λ entry v, PyStr.int (PyStr.strip entry) = Some v)
                 (PyStr.split "," exclude_codes) excluded →
         remaining_codes exclude_codes
         = match filter (λ code, code ∉ excluded) possible_codes with
           | [] => [500]
           | l => l
           end
         ∧ ((∃ c, c ∈ possible_codes ∧ c ∉ excluded) →
            status_code resp ∈ possible_codes ∧ status_code resp ∉ excluded)
         ∧ ((∀ c, c ∈ possible_codes → c ∈ excluded) → status_code resp = 500)
         ∧ (∀ c, c ∈ possible_codes → c ∉ excluded →
                 (∀ c', c' ∈ possible_codes → c' ∉ excluded → c' = c) →
                 status_code resp = c)).
Proof.
  destruct (simulate_random_draw r p d ts rid exclude_codes)
    as (resp & Heq & Hdraw & Hin).
  exists resp. split; [exact Heq |]. split; [exact Hdraw |]. split; [| split].
  - intros ->. split; [reflexivity |]. split; [exact Hdraw | exact Hin].
  - intros Hbad. rewrite (remaining_codes_malformed _ Hbad) in Hin, Hdraw.
    split; [by apply remaining_codes_malformed |]. by split.
  - intros excluded Hne Hall.
    split; [by apply remaining_codes_parsed |].
    rewrite (remaining_codes_parsed _ _ Hne Hall) in Hin.
    destruct (filter (λ code, code ∉ excluded) possible_codes) as [| c0 l] eqn:Hf.
    + apply list_elem_of_singleton in Hin.
      assert (Hnone : ∀ c, c ∈ possible_codes → c ∈ excluded).
      { intros c Hc. destruct (decide (c ∈ excluded)) as [|Hn]; [done |].
        assert (Hcf : c ∈ filter (λ code, code ∉ excluded) possible_codes)
          by (apply list_elem_of_filter; done).
        rewrite Hf in Hcf. by apply elem_of_nil in Hcf. }
      split; [| split].
      * intros (c & Hc & Hn). destruct (Hn (Hnone c Hc)).
      * intros _. exact Hin.
      * intros c Hc Hn _. destruct (Hn (Hnone c Hc)).
    + rewrite <- Hf in Hin. apply list_elem_of_filter in Hin as [Hn Hp].
      split; [| split].
      * intros _. done.
      * intros Hallx. destruct (Hn (Hallx _ Hp)).
      * intros c _ _ Huniq. by apply Huniq.
Qed.

Lemma simulate_random_pool_witness :
  ∃ resp,
    (simulate_random 7 (1 # 2) 1 "2024-01-01T00:00:00Z" "req_0123456789ab"
       "400,401,403,404,422,429,500,502,503").2 = Return resp
    ∧ status_code resp = 504.
Proof.
  destruct (simulate_random_pool 7 (1 # 2) 1 "2024-01-01T00:00:00Z" "req_0123456789ab"
              "400,401,403,404,422,429,500,502,503")
    as (resp & Heq & _ & _ & _ & Hparsed).
  exists resp. split; [exact Heq |].
  destruct (Hparsed [400; 401; 403; 404; 422; 429; 500; 502; 503])
    as (_ & _ & _ & Hone).
  - discriminate.
  - apply mapM_Some_1. vm_compute. reflexivity.
  - apply (Hone 504).
    + unfold possible_codes. rewrite !elem_of_cons. tauto.
    + rewrite !elem_of_cons, elem_of_nil. intros H.
      repeat (destruct H as [H | H]; [discriminate H |]). exact H.
    + intros c'. unfold possible_codes. rewrite !elem_of_cons, !elem_of_nil.
      intros Hc' Hn.
      repeat (destruct Hc' as [Hc' | Hc'];
              [try (subst c'; reflexivity); exfalso; apply Hn; subst c'; tauto |]).
      destruct Hc'.
Defined.

(** C4 as first stated fails: the entry 400 parses, the entry x does
    not, and the handler then keeps 400 in the pool and can return it. *)
Lemma simulate_random_malformed_entry :
  PyStr.split "," "400,x" = ["400"; "x"]
  ∧ PyStr.int (PyStr.strip "400") = Some 400
  ∧ PyStr.int (PyStr.strip "x") = None
  ∧ ∃ resp,
      (simulate_random 0 (1 # 2) 1 "2024-01-01T00:00:00Z" "req_0123456789ab"
         "400,x").2 = Return resp
      ∧ status_code resp = 400.
Proof.
  split; [reflexivity |]. split; [reflexivity |]. split; [reflexivity |].
  eexists. split; [vm_compute; reflexivity | reflexivity].
Qed.

End RandomFacts.

(** ** Rate-limit handler: one call *)

Section RateLimitSteps.
Import RateLimit.

Lemma run_S n rq σ p :
  run (S n) rq σ p = run n rq (step rq σ p).1 (step rq σ p).2.
Proof. cbn [run]. destruct (step rq σ p). reflexivity. Qed.

Lemma run_done n rq σ o : run n rq σ (Done o) = (σ, Done o).
Proof. induction n as [| n IH]; [reflexivity | cbn; exact IH]. Qed.

Lemma set_heap_id σ : set_heap σ (heap σ) = σ.
Proof. destruct σ. reflexivity. Qed.

Lemma step_entry_present rq σ l :
  reset_counts rq = false →
  request_counts σ !! client_ip rq = Some l →
  step rq σ AtEntry = (σ, AtFetch).
Proof. intros Hr Hl. cbn. rewrite Hr, Hl. reflexivity. Qed.

Lemma step_entry_absent rq σ :
  reset_counts rq = false →
  request_counts σ !! client_ip rq = None →
  step rq σ AtEntry = (created rq σ, AtFetch).
Proof. intros Hr Hl. cbn. rewrite Hr, Hl. reflexivity. Qed.

Lemma step_fetch rq σ l :
  request_counts σ !! client_ip rq = Some l →
  step rq σ AtFetch = (σ, AtWindow l).
Proof. intros Hl. cbn. rewrite Hl. reflexivity. Qed.

Lemma step_window rq σ l c :
  heap σ !! l = Some c →
  step rq σ (AtWindow l) = (set_heap σ (<[l := rolled rq c]> (heap σ)), AtCheck l).
Proof.
  intros Hc. cbn [step]. rewrite Hc. unfold rolled.
  destruct (window_expired rq c); [reflexivity |].
  rewrite (list_insert_id _ _ _ Hc), set_heap_id. reflexivity.
Qed.

Lemma step_check rq σ l c :
  heap σ !! l = Some c →
  step rq σ (AtCheck l)
  = if limit rq <=? count c
    then (σ, Done (limited_outcome rq c))
    else (σ, AtIncrement l).
Proof. intros Hc. cbn. rewrite Hc. reflexivity. Qed.

Lemma step_increment rq σ l c :
  heap σ !! l = Some c →
  step rq σ (AtIncrement l)
  = (set_heap σ (<[l := incremented c]> (heap σ)), AtReply l).
Proof. intros Hc. cbn. rewrite Hc. reflexivity. Qed.

Lemma step_reply rq σ l c :
  heap σ !! l = Some c →
  step rq σ (AtReply l) = (σ, Done (allowed_outcome rq c)).
Proof. intros Hc. cbn. rewrite Hc. reflexivity. Qed.

Lemma heap_set_insert σ l (c c' : counter) :
  heap σ !! l = Some c →
  heap (set_heap σ (<[l := c']> (heap σ))) !! l = Some c'.
Proof.
  intros Hc. cbn. apply list_lookup_insert_eq. eapply lookup_lt_Some, Hc.
Qed.

(** From the window test to the reply: four steps. *)
Lemma run_from_window rq σ l c :
  heap σ !! l = Some c →
  run 4 rq σ (AtWindow l)
  = if limit rq <=? count (rolled rq c)
    then (set_heap σ (<[l := rolled rq c]> (heap σ)),
          Done (limited_outcome rq (rolled rq c)))
    else (set_heap σ (<[l := incremented (rolled rq c)]> (heap σ)),
          Done (allowed_outcome rq (incremented (rolled rq c)))).
Proof.
  intros Hc.
  pose proof (heap_set_insert σ l c (rolled rq c) Hc) as H1.
  rewrite run_S, (step_window rq σ l c Hc). cbn [fst snd].
  rewrite run_S, (step_check rq _ l _ H1).
  destruct (limit rq <=? count (rolled rq c)); cbn [fst snd].
  - apply run_done.
  - pose proof (heap_set_insert _ l _ (incremented (rolled rq c)) H1) as H2.
    rewrite run_S, (step_increment rq _ l _ H1). cbn [fst snd].
    rewrite run_S, (step_reply rq _ l _ H2). cbn [fst snd run].
    cbn [set_heap heap request_counts]. rewrite list_insert_insert_eq.
    reflexivity.
Qed.

(** The two replying paths end in a reply or in an exception of a float
    conversion. *)
Lemma limited_outcome_cases rq c :
  (∃ resp, limited_response rq c = Ok resp ∧ limited_outcome rq c = Limited resp)
  ∨ (∃ e, limited_outcome rq c = Crashed e).
Proof.
  unfold limited_outcome. destruct (limited_response rq c) as [resp | e];
    [left | right]; eauto.
Qed.

Lemma allowed_outcome_cases rq c :
  (∃ resp, allowed_response rq c = Ok resp ∧ allowed_outcome rq c = Allowed resp)
  ∨ (∃ e, allowed_outcome rq c = Crashed e).
Proof.
  unfold allowed_outcome. destruct (allowed_response rq c) as [resp | e];
    [left | right]; eauto.
Qed.

(** A non-reset call reaches its reply in six steps, once its first step
    has made sure that the client has a counter [c] at [l]. *)
Lemma run_from_entry rq σ σ1 l c :
  step rq σ AtEntry = (σ1, AtFetch) →
  request_counts σ1 !! client_ip rq = Some l →
  heap σ1 !! l = Some c →
  ∃ σ' o, run 6 rq σ AtEntry = (σ', Done o) ∧ o ≠ Fault ∧ o ≠ KeyError.
Proof.
  intros He Hl Hc.
  rewrite run_S, He. cbn [fst snd].
  rewrite run_S, (step_fetch rq σ1 l Hl). cbn [fst snd].
  rewrite (run_from_window rq σ1 l c Hc).
  destruct (limit rq <=? count (rolled rq c)); eexists _, _;
    (split; [reflexivity |]).
  - destruct (limited_outcome_cases rq (rolled rq c)) as [(r & _ & ->) | [e ->]];
      split; discriminate.
  - destruct (allowed_outcome_cases rq (incremented (rolled rq c)))
      as [(r & _ & ->) | [e ->]]; split; discriminate.
Qed.

(** A non-reset call, once its first step has made sure that the client
    has a counter [c] at [l]. *)
Lemma simulate_rate_limit_from_entry rq σ σ1 l c :
  step rq σ AtEntry = (σ1, AtFetch) →
  request_counts σ1 !! client_ip rq = Some l →
  heap σ1 !! l = Some c →
  simulate_rate_limit rq σ
  = if limit rq <=? count (rolled rq c)
    then (set_heap σ1 (<[l := rolled rq c]> (heap σ1)),
          limited_outcome rq (rolled rq c))
    else (set_heap σ1 (<[l := incremented (rolled rq c)]> (heap σ1)),
          allowed_outcome rq (incremented (rolled rq c))).
Proof.
  intros He Hl Hc. unfold simulate_rate_limit.
  rewrite run_S, He. cbn [fst snd].
  rewrite run_S, (step_fetch rq σ1 l Hl). cbn [fst snd].
  rewrite (run_from_window rq σ1 l c Hc).
  destruct (limit rq <=? count (rolled rq c)); reflexivity.
Qed.

End RateLimitSteps.

(** ** Rate-limit handler: the store stays well formed *)

Section RateLimitStore.
Import RateLimit.

Lemma wf_init : wf init.
Proof. split; intros *; cbn; rewrite lookup_empty; discriminate. Qed.

Lemma wf_lookup σ ip l :
  wf σ → request_counts σ !! ip = Some l → is_Some (heap σ !! l).
Proof. intros [Hb _] Hl. apply lookup_lt_is_Some_2. eapply Hb, Hl. Qed.

Lemma counter_of_None σ ip :
  wf σ → counter_of σ ip = None → request_counts σ !! ip = None.
Proof.
  intros Hwf. unfold counter_of.
  destruct (request_counts σ !! ip) as [l |] eqn:Hl; [| reflexivity].
  destruct (wf_lookup σ ip l Hwf Hl) as [c Hc]. cbn. rewrite Hc. discriminate.
Qed.

Lemma wf_created rq σ :
  wf σ → request_counts σ !! client_ip rq = None → wf (created rq σ).
Proof.
  intros [Hb Hinj] Hnone. split; cbn.
  - intros ip l. rewrite length_app. cbn. rewrite lookup_insert.
    case_decide.
    + intros [= <-]. lia.
    + intros Hl. specialize (Hb ip l Hl). lia.
  - intros ip1 ip2 l. rewrite !lookup_insert.
    repeat case_decide; subst.
    + reflexivity.
    + intros [= <-] H2. specialize (Hb _ _ H2). lia.
    + intros H1 [= <-]. specialize (Hb _ _ H1). lia.
    + apply Hinj.
Qed.

Lemma wf_set_heap σ h :
  wf σ → length h = length (heap σ) → wf (set_heap σ h).
Proof. intros [Hb Hinj] Hlen. split; cbn; [rewrite Hlen |]; assumption. Qed.

Lemma wf_insert σ l c : wf σ → wf (set_heap σ (<[l := c]> (heap σ))).
Proof. intros Hwf. apply wf_set_heap; [exact Hwf | apply length_insert]. Qed.

Lemma wf_popped σ ip :
  wf σ → wf (mkState (delete ip (request_counts σ)) (heap σ)).
Proof.
  intros [Hb Hinj]. split; cbn.
  - intros ip' l. rewrite lookup_delete. case_decide; [discriminate | apply Hb].
  - intros ip1 ip2 l. rewrite !lookup_delete.
    repeat case_decide; try discriminate. apply Hinj.
Qed.

Lemma counter_of_created rq σ ip :
  wf σ → request_counts σ !! client_ip rq = None →
  counter_of (created rq σ) ip
  = if decide (ip = client_ip rq) then Some (mkCounter 0 (current_time rq))
    else counter_of σ ip.
Proof.
  intros [Hb _] Hnone. unfold counter_of. cbn. rewrite lookup_insert.
  case_decide as Hd; subst.
  - rewrite decide_True by reflexivity. cbn.
    apply list_lookup_middle. reflexivity.
  - rewrite decide_False by congruence.
    destruct (request_counts σ !! ip) as [l |] eqn:Hl; [| reflexivity].
    cbn. apply lookup_app_l. eapply Hb, Hl.
Qed.

Lemma counter_of_insert σ ip l c ip' :
  wf σ → request_counts σ !! ip = Some l →
  counter_of (set_heap σ (<[l := c]> (heap σ))) ip'
  = if decide (ip' = ip) then Some c else counter_of σ ip'.
Proof.
  intros [Hb Hinj] Hl. unfold counter_of. cbn.
  case_decide as Hd; subst.
  - rewrite Hl. cbn. apply list_lookup_insert_eq. eapply Hb, Hl.
  - destruct (request_counts σ !! ip') as [l' |] eqn:Hl'; [| reflexivity].
    cbn. apply list_lookup_insert_ne. intros ->. apply Hd. eapply Hinj; eassumption.
Qed.

(** The first step of a non-reset call leaves the client with a counter:
    the one it had, or a fresh one. *)
Lemma entry_ensures rq σ :
  wf σ → reset_counts rq = false →
  ∃ σ1 l,
    step rq σ AtEntry = (σ1, AtFetch)
    ∧ request_counts σ1 !! client_ip rq = Some l
    ∧ heap σ1 !! l = Some (fetched rq σ)
    ∧ wf σ1
    ∧ (∀ ip, ip ≠ client_ip rq → counter_of σ1 ip = counter_of σ ip)
    ∧ ((is_Some (counter_of σ (client_ip rq)) ∧ σ1 = σ)
       ∨ (counter_of σ (client_ip rq) = None ∧ σ1 = created rq σ)).
Proof.
  intros Hwf Hr. unfold fetched.
  destruct (request_counts σ !! client_ip rq) as [l |] eqn:Hl.
  - destruct (wf_lookup σ _ l Hwf Hl) as [c Hc].
    assert (Hco : counter_of σ (client_ip rq) = Some c).
    { unfold counter_of. rewrite Hl. exact Hc. }
    exists σ, l. rewrite Hco. cbn [default].
    split; [by apply (step_entry_present rq σ l) |].
    split; [exact Hl |]. split; [exact Hc |]. split; [exact Hwf |].
    split; [reflexivity |]. left. split; [by exists c | reflexivity].
  - assert (Hco : counter_of σ (client_ip rq) = None).
    { unfold counter_of. rewrite Hl. reflexivity. }
    exists (created rq σ), (length (heap σ)). rewrite Hco. cbn [default].
    split; [by apply step_entry_absent |].
    split; [cbn; apply lookup_insert_eq |].
    split; [cbn; by apply list_lookup_middle |].
    split; [by apply wf_created |].
    split; [| right; done].
    intros ip Hne. rewrite (counter_of_created rq σ ip Hwf Hl).
    by rewrite decide_False.
Qed.

(** One non-reset call on a well-formed store, in full: the reply is
    decided by the fetched counter after rollover; the client's counter
    becomes that counter, incremented on success; other clients' counters
    are untouched; the store stays well formed. *)
Lemma simulate_rate_limit_nonreset rq σ :
  wf σ → reset_counts rq = false →
  ∃ σ1 l,
    request_counts σ1 !! client_ip rq = Some l
    ∧ wf σ1
    ∧ ((is_Some (counter_of σ (client_ip rq)) ∧ σ1 = σ)
       ∨ (counter_of σ (client_ip rq) = None ∧ σ1 = created rq σ))
    ∧ (∀ ip, ip ≠ client_ip rq → counter_of σ1 ip = counter_of σ ip)
    ∧ heap σ1 !! l = Some (fetched rq σ)
    ∧ simulate_rate_limit rq σ
      = if limit rq <=? count (rolled rq (fetched rq σ))
        then (set_heap σ1 (<[l := rolled rq (fetched rq σ)]> (heap σ1)),
              limited_outcome rq (rolled rq (fetched rq σ)))
        else (set_heap σ1 (<[l := incremented (rolled rq (fetched rq σ))]> (heap σ1)),
              allowed_outcome rq (incremented (rolled rq (fetched rq σ)))).
Proof.
  intros Hwf Hr.
  destruct (entry_ensures rq σ Hwf Hr) as (σ1 & l & He & Hl & Hc & Hwf1 & Hfr & Hcase).
  exists σ1, l.
  split; [exact Hl |]. split; [exact Hwf1 |]. split; [exact Hcase |].
  split; [exact Hfr |]. split; [exact Hc |].
  by apply simulate_rate_limit_from_entry.
Qed.

Lemma simulate_rate_limit_reset rq σ :
  reset_counts rq = true →
  (simulate_rate_limit rq σ).1
  = mkState (delete (client_ip rq) (request_counts σ)) (heap σ).
Proof.
  intros Hr. unfold simulate_rate_limit.
  rewrite run_S. cbn [step]. rewrite Hr. cbn [fst snd].
  rewrite run_done. reflexivity.
Qed.

(** On a well-formed store the handler always reaches a reply: six steps
    end in [Done], never in an uncaught exception. *)
Lemma simulate_rate_limit_returns rq σ :
  wf σ → ∃ σ' o, run 6 rq σ AtEntry = (σ', Done o) ∧ o ≠ Fault ∧ o ≠ KeyError.
Proof.
  intros Hwf. destruct (reset_counts rq) eqn:Hr.
  - rewrite run_S. cbn [step]. rewrite Hr. cbn [fst snd]. rewrite run_done.
    eexists _, _. split; [reflexivity | split; discriminate].
  - destruct (entry_ensures rq σ Hwf Hr) as (σ1 & l & He & Hl & Hc & _).
    by apply (run_from_entry rq σ σ1 l _ He Hl Hc).
Qed.

(** Every call keeps the store well formed. *)
Lemma simulate_rate_limit_wf rq σ : wf σ → wf (simulate_rate_limit rq σ).1.
Proof.
  intros Hwf. destruct (reset_counts rq) eqn:Hr.
  - rewrite (simulate_rate_limit_reset rq σ Hr). by apply wf_popped.
  - destruct (simulate_rate_limit_nonreset rq σ Hwf Hr)
      as (σ1 & l & _ & Hwf1 & _ & _ & _ & Heq).
    rewrite Heq. destruct (limit rq <=? _); cbn [fst]; by apply wf_insert.
Qed.

Lemma reachable_wf σ : reachable σ → wf σ.
Proof.
  induction 1 as [| rq σ _ IH]; [apply wf_init | by apply simulate_rate_limit_wf].
Qed.

End RateLimitStore.

(** ** Rate-limit handler: what one call does *)

Section RateLimitCall.
Import RateLimit.

Lemma rolled_expired rq c :
  expired rq c → rolled rq c = mkCounter 0 (current_time rq).
Proof. unfold expired, rolled. intros ->. reflexivity. Qed.

Lemma rolled_live rq c : ¬ expired rq c → rolled rq c = c.
Proof.
  unfold expired, rolled. destruct (window_expired rq c); [| reflexivity].
  intros H. by destruct H.
Qed.

Lemma rolled_fresh rq :
  rolled rq (mkCounter 0 (current_time rq)) = mkCounter 0 (current_time rq).
Proof. unfold rolled. destruct (window_expired _ _); reflexivity. Qed.

Lemma rolled_count_nonneg rq c : 0 ≤ count c → 0 ≤ count (rolled rq c).
Proof. unfold rolled. destruct (window_expired _ _); cbn; lia. Qed.

Lemma rolled_window_start rq c :
  window_start (rolled rq c) = window_start c
  ∨ window_start (rolled rq c) = current_time rq.
Proof. unfold rolled. destruct (window_expired _ _); cbn; auto. Qed.

Lemma inject_Z_nonneg (z : Z) : 0 ≤ z → (0 <= inject_Z z)%Q.
Proof. intros Hz. unfold Qle. cbn. lia. Qed.

Lemma Qtrunc_nonneg (x : Q) : (0 <= x)%Q → 0 ≤ Qtrunc x.
Proof.
  unfold Qle, Qtrunc. cbn. intros Hx.
  apply Z.quot_pos; lia.
Qed.

(** Truncation plus one is rounding up, except on whole numbers. *)
Lemma Qtrunc_succ_ceiling (x : Q) :
  (0 <= x)%Q → (∀ n : Z, ¬ (x == inject_Z n)%Q) → Qtrunc x + 1 = Qceiling x.
Proof.
  destruct x as [n d]. unfold Qle, Qtrunc, Qceiling, Qfloor, Qeq. cbn.
  intros Hn Hfrac.
  assert (Hn0 : 0 ≤ n) by lia.
  rewrite Z.quot_div_nonneg by lia.
  assert (Hmod : n mod Z.pos d ≠ 0).
  { intros Hm. apply (Hfrac (n / Z.pos d)).
    rewrite Z.mul_1_r. rewrite Z.mul_comm.
    apply Z.div_exact; [lia | exact Hm]. }
  rewrite Z.div_opp_l_nz by lia. lia.
Qed.

(** On a non-negative number, truncation plus one is the least integer
    strictly above it. *)
Lemma Qtrunc_bounds (x : Q) :
  (0 <= x)%Q → (inject_Z (Qtrunc x) <= x)%Q ∧ (x < inject_Z (Qtrunc x + 1))%Q.
Proof.
  intros Hx.
  assert (Heq : Qtrunc x = Qfloor x).
  { destruct x as [n d]. unfold Qle in Hx. unfold Qtrunc, Qfloor. cbn in *.
    apply Z.quot_div_nonneg; lia. }
  rewrite Heq. split; [apply Qfloor_le | apply Qlt_floor].
Qed.

(** [int(x)] of a float that is a whole number is that number. *)
Lemma Qtrunc_whole (x : Q) (n : Z) : (x == inject_Z n)%Q → Qtrunc x = n.
Proof.
  destruct x as [a d]. unfold Qeq, Qtrunc. cbn. intros Heq.
  rewrite Z.mul_1_r in Heq. rewrite Heq. apply Z.quot_mul. lia.
Qed.

(** *** The float operations of one call *)

(** The elapsed time measured on a counter just created or rolled over
    is zero. *)
Lemma elapsed_fresh rq n :
  elapsed rq (mkCounter n (current_time rq)) = PyFloat.Finite 0.
Proof.
  unfold elapsed. cbn [PyFloat.sub window_start].
  rewrite (round_proper _ 0) by ring. apply round_zero.
Qed.

Lemma elapsed_bounded rq c :
  PyFloat.moderate (current_time rq) → PyFloat.moderate (window_start c) →
  ∃ d, elapsed rq c = PyFloat.Finite d ∧ (Qabs d <= inject_Z (2 ^ 1001))%Q.
Proof.
  intros Hn Hw. unfold elapsed.
  assert (Hk : 0 ≤ 1000 ≤ 1022) by lia.
  exact (sub_bounded _ _ 1000 Hk Hn Hw).
Qed.

(** In range, the remaining time is a finite float and [retry_after] is
    its truncation plus one. *)
Lemma retry_after_bounded rq c :
  bounded_request rq → PyFloat.moderate (window_start c) →
  ∃ t, time_remaining rq c = Ok (PyFloat.Finite t)
       ∧ retry_after rq c = Ok (Qtrunc t + 1).
Proof.
  intros [Hwin Hn] Hws.
  destruct (of_int_bounded _ Hwin) as (w & Hw & Hwb).
  destruct (elapsed_bounded rq c Hn Hws) as (d & Hd & Hdb).
  assert (Hk : 0 ≤ 1001 ≤ 1022) by lia.
  assert (Hle : 1000 ≤ 1001) by lia.
  destruct (sub_bounded w d 1001 Hk (pow2_le_weaken _ _ _ Hle Hwb) Hdb)
    as (t & Ht & _).
  exists t. unfold retry_after, time_remaining. rewrite Hw.
  cbn [mbind result_bind]. rewrite Hd, Ht. split; reflexivity.
Qed.

Lemma reset_time_bounded rq c :
  bounded_request rq → PyFloat.moderate (window_start c) →
  ∃ reset, reset_time rq c = Ok reset.
Proof.
  intros [Hwin Hn] Hws.
  destruct (of_int_bounded _ Hwin) as (w & Hw & Hwb).
  assert (Hk : 0 ≤ 1000 ≤ 1022) by lia.
  destruct (add_bounded (window_start c) w 1000 Hk Hws Hwb) as (r & Hr & _).
  exists (Qtrunc r). unfold reset_time. rewrite Hw.
  cbn [mbind result_bind]. rewrite Hr. reflexivity.
Qed.

(** The reset time depends on the window start only. *)
Lemma reset_time_incremented rq c :
  reset_time rq (incremented c) = reset_time rq c.
Proof. reflexivity. Qed.

(** The 429 reply, once its two float computations have succeeded. *)
Lemma limited_response_ok rq c seconds reset :
  retry_after rq c = Ok seconds → reset_time rq c = Ok reset →
  ∃ resp,
    limited_response rq c = Ok resp
    ∧ limited_outcome rq c = Limited resp
    ∧ status_code resp = 429
    ∧ lb_retry_after (content resp) = seconds
    ∧ lb_remaining (content resp) = 0
    ∧ lb_debug_current_count (content resp) = count c
    ∧ headers resp !! "retry-after" = Some (PyStr.str seconds)
    ∧ headers resp !! "x-ratelimit-remaining" = Some "0"
    ∧ headers resp !! "x-ratelimit-reset" = Some (PyStr.str reset).
Proof.
  intros Hra Hrt. unfold limited_outcome, limited_response. rewrite Hra, Hrt.
  eexists. split; [reflexivity |]. split; [reflexivity |].
  cbn [status_code content headers lb_retry_after lb_remaining lb_debug_current_count].
  repeat split; by simplify_map_eq.
Qed.

(** The success reply, once its float computation has succeeded. *)
Lemma allowed_response_ok rq c reset :
  reset_time rq c = Ok reset →
  ∃ resp,
    allowed_response rq c = Ok resp
    ∧ allowed_outcome rq c = Allowed resp
    ∧ status_code resp = 200
    ∧ ab_current_count (content resp) = count c
    ∧ ab_remaining (content resp) = limit rq - count c
    ∧ headers resp !! "x-ratelimit-remaining"
      = Some (PyStr.str (limit rq - count c))
    ∧ headers resp !! "x-ratelimit-reset" = Some (PyStr.str reset).
Proof.
  intros Hrt. unfold allowed_outcome, allowed_response. rewrite Hrt.
  eexists. split; [reflexivity |]. split; [reflexivity |].
  cbn [status_code content headers ab_current_count ab_remaining].
  repeat split; by simplify_map_eq.
Qed.

(** What a reply that was given tells about the float computations. *)
Lemma limited_response_inv rq c resp :
  limited_response rq c = Ok resp →
  ∃ t reset,
    time_remaining rq c = Ok (PyFloat.Finite t)
    ∧ retry_after rq c = Ok (Qtrunc t + 1)
    ∧ reset_time rq c = Ok reset
    ∧ status_code resp = 429
    ∧ lb_retry_after (content resp) = Qtrunc t + 1
    ∧ lb_remaining (content resp) = 0
    ∧ lb_debug_current_count (content resp) = count c.
Proof.
  unfold limited_response, retry_after.
  destruct (time_remaining rq c) as [f | e] eqn:Ht; [| discriminate].
  destruct f as [t | neg |]; cbn; [| discriminate | discriminate].
  destruct (reset_time rq c) as [reset | e]; cbn; [| discriminate].
  intros [= <-]. exists t, reset. cbn. repeat split; reflexivity.
Qed.

(** A window that has not expired has no negative time left, whatever
    the rounding: the elapsed time is a double that is not above
    [window], so it is not above the double nearest to [window]. *)
Lemma time_remaining_nonneg rq c t :
  ¬ expired rq c → time_remaining rq c = Ok (PyFloat.Finite t) → (0 <= t)%Q.
Proof.
  unfold expired, window_expired. intros Hlive Ht.
  unfold time_remaining, PyFloat.of_int in Ht.
  destruct (PyFloat.round (inject_Z (window rq))) as [w | |] eqn:Hw;
    cbn [mbind result_bind] in Ht; try discriminate Ht.
  injection Ht as Ht.
  destruct (elapsed rq c) as [d | neg |] eqn:Hd;
    cbn [PyFloat.sub] in Ht; try discriminate Ht.
  apply round_finite in Ht. apply round_finite in Hw.
  unfold elapsed in Hd. cbn [PyFloat.sub] in Hd. apply round_finite in Hd.
  cbn [PyFloat.gt_int] in Hlive.
  destruct (Qlt_le_dec (inject_Z (window rq)) d) as [Hlt | Hle]; [by destruct Hlive |].
  subst. apply nearest_nonneg.
  pose proof (nearest_ge_double _ _ Hle). lra.
Qed.

(** After rollover a window that is not negative has not expired. *)
Lemma rolled_not_expired rq c :
  0 ≤ window rq → ¬ expired rq (rolled rq c).
Proof.
  intros Hw. unfold rolled. destruct (window_expired rq c) eqn:He.
  - unfold expired, window_expired. rewrite elapsed_fresh. cbn.
    destruct (Qlt_le_dec _ _) as [Hlt | _]; [| discriminate].
    exfalso. pose proof (inject_Z_nonneg _ Hw). lra.
  - unfold expired. rewrite He. discriminate.
Qed.

(** When its three float operations are exact, the remaining time is the
    real remaining time. *)
Lemma time_remaining_exact rq c :
  exact_remaining rq c →
  ∃ t, time_remaining rq c = Ok (PyFloat.Finite t) ∧ (t == time_left rq c)%Q.
Proof.
  intros (Hw & He & Ht). exists (Qred (time_left rq c)).
  split; [| apply Qred_correct].
  unfold time_remaining. rewrite (of_int_exact _ Hw). cbn [mbind result_bind].
  unfold elapsed. cbn [PyFloat.sub]. rewrite He. cbn [PyFloat.sub].
  rewrite <- Ht. f_equal. apply round_proper.
  unfold time_left. rewrite !Qred_correct. reflexivity.
Qed.

(** The counter the client is left with, and the reply. *)
Lemma simulate_rate_limit_effect rq σ :
  wf σ → reset_counts rq = false →
  let c1 := rolled rq (fetched rq σ) in
  (∀ ip, counter_of (simulate_rate_limit rq σ).1 ip
         = if decide (ip = client_ip rq)
           then Some (if limit rq <=? count c1 then c1 else incremented c1)
           else counter_of σ ip)
  ∧ (simulate_rate_limit rq σ).2
    = if limit rq <=? count c1
      then limited_outcome rq c1
      else allowed_outcome rq (incremented c1).
Proof.
  intros Hwf Hr c1.
  destruct (simulate_rate_limit_nonreset rq σ Hwf Hr)
    as (σ1 & l & Hl & Hwf1 & _ & Hfr & _ & Heq).
  fold c1 in Heq. rewrite Heq. split.
  - intros ip.
    destruct (limit rq <=? count c1); cbn [fst];
      rewrite (counter_of_insert σ1 (client_ip rq) l _ ip Hwf1 Hl);
      case_decide; try reflexivity; by apply Hfr.
  - destruct (limit rq <=? count c1); reflexivity.
Qed.

Lemma simulate_rate_limit_nonneg rq σ :
  wf σ → counts_nonneg σ → counts_nonneg (simulate_rate_limit rq σ).1.
Proof.
  intros Hwf Hnn ip c. destruct (reset_counts rq) eqn:Hr.
  - rewrite (simulate_rate_limit_reset rq σ Hr). unfold counter_of. cbn.
    rewrite lookup_delete. case_decide; [discriminate |]. apply (Hnn ip c).
  - destruct (simulate_rate_limit_effect rq σ Hwf Hr) as [Hco _].
    rewrite Hco. case_decide; [| apply Hnn].
    assert (Hf : 0 ≤ count (fetched rq σ)).
    { unfold fetched. destruct (counter_of σ (client_ip rq)) as [c0 |] eqn:Hc0;
        cbn; [eapply Hnn, Hc0 | lia]. }
    pose proof (rolled_count_nonneg rq _ Hf) as Hc1.
    destruct (limit rq <=? _); intros [= <-]; cbn; lia.
Qed.

Lemma reachable_nonneg σ : reachable σ → counts_nonneg σ.
Proof.
  induction 1 as [| rq σ Hre IH].
  - intros ip c. unfold counter_of. cbn. rewrite lookup_empty. discriminate.
  - apply simulate_rate_limit_nonneg; [by apply reachable_wf | exact IH].
Qed.

(** *** Stores in range *)

Lemma bounded_store_init : bounded_store init.
Proof. apply Forall_nil_2. Qed.

Lemma bounded_store_counter σ ip c :
  bounded_store σ → counter_of σ ip = Some c → PyFloat.moderate (window_start c).
Proof.
  unfold counter_of. intros Hb.
  destruct (request_counts σ !! ip) as [l |]; [| discriminate]. cbn.
  intros Hc. exact (Forall_lookup_1 _ _ _ _ Hb Hc).
Qed.

(** A step of a call in range keeps the store in range. *)
Lemma step_bounded_store rq σ p :
  PyFloat.moderate (current_time rq) → bounded_store σ →
  bounded_store (step rq σ p).1.
Proof.
  intros Hn Hb. unfold bounded_store in *.
  destruct p as [| | l | l | l | l | o]; cbn [step].
  - destruct (reset_counts rq); [exact Hb |].
    destruct (request_counts σ !! client_ip rq); [exact Hb |]. cbn.
    apply Forall_app. split; [exact Hb |]. by apply Forall_singleton.
  - destruct (request_counts σ !! client_ip rq); exact Hb.
  - destruct (heap σ !! l) as [c |] eqn:Hc; [| exact Hb].
    destruct (window_expired rq c); [| exact Hb]. cbn.
    apply Forall_insert; [exact Hb | exact Hn].
  - destruct (heap σ !! l) as [c |]; [| exact Hb].
    destruct (limit rq <=? count c); exact Hb.
  - destruct (heap σ !! l) as [c |] eqn:Hc; [| exact Hb]. cbn.
    apply Forall_insert; [exact Hb |]. exact (Forall_lookup_1 _ _ _ _ Hb Hc).
  - destruct (heap σ !! l); exact Hb.
  - exact Hb.
Qed.

Lemma run_bounded_store n rq σ p :
  PyFloat.moderate (current_time rq) → bounded_store σ →
  bounded_store (run n rq σ p).1.
Proof.
  intros Hn. revert σ p. induction n as [| n IH]; intros σ p Hb; [exact Hb |].
  rewrite run_S. apply IH. by apply step_bounded_store.
Qed.

Lemma simulate_rate_limit_bounded_store rq σ :
  PyFloat.moderate (current_time rq) → bounded_store σ →
  bounded_store (simulate_rate_limit rq σ).1.
Proof.
  intros Hn Hb. unfold simulate_rate_limit.
  pose proof (run_bounded_store 6 rq σ AtEntry Hn Hb) as H.
  destruct (run 6 rq σ AtEntry) as [σ' p]. exact H.
Qed.

(** In range, both replies can be built. *)
Lemma limited_outcome_bounded rq c :
  bounded_request rq → PyFloat.moderate (window_start c) →
  ∃ resp, limited_response rq c = Ok resp
          ∧ limited_outcome rq c = Limited resp
          ∧ status_code resp = 429.
Proof.
  intros Hrq Hc.
  destruct (retry_after_bounded rq c Hrq Hc) as (t & _ & Hra).
  destruct (reset_time_bounded rq c Hrq Hc) as (reset & Hrt).
  destruct (limited_response_ok rq c _ _ Hra Hrt) as (resp & Hresp & Hout & Hs & _).
  exists resp. auto.
Qed.

Lemma allowed_outcome_bounded rq c :
  bounded_request rq → PyFloat.moderate (window_start c) →
  ∃ resp, allowed_response rq c = Ok resp
          ∧ allowed_outcome rq c = Allowed resp
          ∧ status_code resp = 200
          ∧ ab_current_count (content resp) = count c
          ∧ ab_remaining (content resp) = limit rq - count c
          ∧ headers resp !! "x-ratelimit-remaining"
            = Some (PyStr.str (limit rq - count c)).
Proof.
  intros Hrq Hc.
  destruct (reset_time_bounded rq c Hrq Hc) as (reset & Hrt).
  destruct (allowed_response_ok rq c reset Hrt)
    as (resp & Hresp & Hout & Hs & Hcc & Hrem & Hh & _).
  exists resp. auto 10.
Qed.

(** In range, a call that is not a reset is answered: the counter after
    rollover decides between the two replies, and both can be built. *)
Lemma simulate_rate_limit_answer rq σ :
  wf σ → reset_counts rq = false →
  bounded_request rq → bounded_store σ →
  let c1 := rolled rq (fetched rq σ) in
  PyFloat.moderate (window_start c1)
  ∧ (limit rq ≤ count c1 →
       ∃ resp, limited_response rq c1 = Ok resp
               ∧ (simulate_rate_limit rq σ).2 = Limited resp
               ∧ status_code resp = 429)
  ∧ (count c1 < limit rq →
       ∃ resp, allowed_response rq (incremented c1) = Ok resp
               ∧ (simulate_rate_limit rq σ).2 = Allowed resp
               ∧ status_code resp = 200).
Proof.
  intros Hwf Hr Hrq Hst c1.
  assert (Hf : PyFloat.moderate (window_start (fetched rq σ))).
  { unfold fetched. destruct (counter_of σ (client_ip rq)) as [c0 |] eqn:Hc0;
      cbn [default from_option id window_start].
    - by eapply bounded_store_counter.
    - apply Hrq. }
  assert (Hc1 : PyFloat.moderate (window_start c1)).
  { unfold c1. destruct (rolled_window_start rq (fetched rq σ)) as [-> | ->];
      [exact Hf | apply Hrq]. }
  destruct (simulate_rate_limit_effect rq σ Hwf Hr) as [_ Ho].
  fold c1 in Ho. rewrite Ho. split; [exact Hc1 |]. split; intros Hl.
  - rewrite (proj2 (Z.leb_le _ _) Hl).
    destruct (retry_after_bounded rq c1 Hrq Hc1) as (t & _ & Hra).
    destruct (reset_time_bounded rq c1 Hrq Hc1) as (reset & Hrt).
    destruct (limited_response_ok rq c1 _ _ Hra Hrt) as (resp & Hresp & Hout & Hs & _).
    exists resp. auto.
  - rewrite (proj2 (Z.leb_gt _ _) Hl).
    destruct (reset_time_bounded rq c1 Hrq Hc1) as (reset & Hrt).
    destruct (allowed_response_ok rq (incremented c1) reset Hrt)
      as (resp & Hresp & Hout & Hs & _).
    exists resp. auto.
Qed.

End RateLimitCall.

Section RateLimitClaims.
Import RateLimit.

(** C1, as the code has it.  For a non-reset call with parameters limit
    and window, on a store and with a window and a clock reading far
    inside the range of the doubles, let c0 be the client's counter (a
    fresh one, count 0 and windowStart now, when the client has none)
    and c1 the counter after the rollover test: count 0 and windowStart
    now if the elapsed time since c0's windowStart, a float, exceeds
    window, c0 otherwise.
    If count c1 >= limit the handler replies 429, leaves the client's
    counter at c1 (no increment) and reports
    retry_after = int(remaining) + 1, where remaining is the float
    window - (now - windowStart c1) and int truncates; whenever
    window >= 0, remaining is not negative and retry_after is at least 1
    and is the least whole number strictly above remaining, so it is
    remaining rounded up exactly when remaining is not a whole number;
    when the float operations are exact, remaining is the real remaining
    time.
    Otherwise the handler increments count by exactly 1 and replies 200
    with remaining quota limit - count, count being the new value. *)
Theorem simulate_rate_limit_decision rq σ :
  wf σ → reset_counts rq = false →
  bounded_request rq → bounded_store σ →
  (expired rq (fetched rq σ) →
     rolled rq (fetched rq σ) = mkCounter 0 (current_time rq))
  ∧ (¬ expired rq (fetched rq σ) → rolled rq (fetched rq σ) = fetched rq σ)
  ∧ (limit rq ≤ count (rolled rq (fetched rq σ)) →
       counter_of (simulate_rate_limit rq σ).1 (client_ip rq)
       = Some (rolled rq (fetched rq σ))
       ∧ ∃ resp t,
           (simulate_rate_limit rq σ).2 = Limited resp
           ∧ status_code resp = 429
           ∧ time_remaining rq (rolled rq (fetched rq σ)) = Ok (PyFloat.Finite t)
           ∧ lb_retry_after (content resp) = Qtrunc t + 1
           ∧ headers resp !! "retry-after"
             = Some (PyStr.str (lb_retry_after (content resp)))
           ∧ (0 ≤ window rq →
              (0 <= t)%Q
              ∧ 1 ≤ lb_retry_after (content resp)
              ∧ (inject_Z (lb_retry_after (content resp) - 1) <= t)%Q
              ∧ (t < inject_Z (lb_retry_after (content resp)))%Q
              ∧ ((∀ n : Z, ¬ (t == inject_Z n)%Q) →
                 lb_retry_after (content resp) = Qceiling t))
           ∧ (exact_remaining rq (rolled rq (fetched rq σ)) →
              (t == time_left rq (rolled rq (fetched rq σ)))%Q))
  ∧ (count (rolled rq (fetched rq σ)) < limit rq →
       counter_of (simulate_rate_limit rq σ).1 (client_ip rq)
       = Some (mkCounter (count (rolled rq (fetched rq σ)) + 1)
                         (window_start (rolled rq (fetched rq σ))))
       ∧ ∃ resp,
           (simulate_rate_limit rq σ).2 = Allowed resp
           ∧ status_code resp = 200
           ∧ ab_current_count (content resp)
             = count (rolled rq (fetched rq σ)) + 1
           ∧ ab_remaining (content resp)
             = limit rq - ab_current_count (content resp)
           ∧ headers resp !! "x-ratelimit-remaining"
             = Some (PyStr.str (ab_remaining (content resp)))).
Proof.
  intros Hwf Hr Hrq Hst.
  destruct (simulate_rate_limit_effect rq σ Hwf Hr) as [Hco Hout].
  specialize (Hco (client_ip rq)). rewrite decide_True in Hco by reflexivity.
  destruct (simulate_rate_limit_answer rq σ Hwf Hr Hrq Hst) as (Hc1 & _ & _).
  cbv zeta in Hco, Hout, Hc1.
  set (c1 := rolled rq (fetched rq σ)) in *.
  split; [apply rolled_expired |]. split; [apply rolled_live |]. split.
  - intros Hge. apply Z.leb_le in Hge. rewrite Hge in Hco, Hout.
    split; [exact Hco |].
    destruct (retry_after_bounded rq c1 Hrq Hc1) as (t & Ht & Hra).
    destruct (reset_time_bounded rq c1 Hrq Hc1) as (reset & Hrt).
    destruct (limited_response_ok rq c1 _ _ Hra Hrt)
      as (resp & _ & Hlo & Hs & Hsec & _ & _ & Hh & _).
    exists resp, t. rewrite Hout, Hsec.
    split; [exact Hlo |]. split; [exact Hs |]. split; [exact Ht |].
    split; [reflexivity |]. split; [exact Hh |]. split.
    + intros Hw.
      assert (Hpos : (0 <= t)%Q).
      { apply (time_remaining_nonneg rq c1); [| exact Ht].
        by apply rolled_not_expired. }
      destruct (Qtrunc_bounds t Hpos) as [Hlo' Hhi'].
      pose proof (Qtrunc_nonneg t Hpos).
      split; [exact Hpos |]. split; [lia |].
      split; [by replace (Qtrunc t + 1 - 1) with (Qtrunc t) by lia |].
      split; [exact Hhi' |]. intros Hfrac. by apply Qtrunc_succ_ceiling.
    + intros Hex. destruct (time_remaining_exact rq c1 Hex) as (t' & Ht' & Heq).
      rewrite Ht in Ht'. injection Ht' as <-. exact Heq.
  - intros Hlt. apply Z.leb_gt in Hlt. rewrite Hlt in Hco, Hout.
    split; [exact Hco |].
    destruct (allowed_outcome_bounded rq (incremented c1) Hrq Hc1)
      as (resp & _ & Hao & Hs & Hcc & Hrem & Hh).
    exists resp. rewrite Hout, Hcc, Hrem. cbn [incremented count].
    split; [exact Hao |]. split; [exact Hs |]. split; [reflexivity |].
    split; [reflexivity |]. exact Hh.
Qed.

Lemma simulate_rate_limit_decision_witness :
  ∃ resp,
    (simulate_rate_limit (mkRequest "127.0.0.1" (11 # 2) 1 60 false)
       (simulate_rate_limit (mkRequest "127.0.0.1" 0 1 60 false) init).1).2
    = Limited resp
    ∧ status_code resp = 429
    ∧ lb_retry_after (content resp) = 55.
Proof.
  destruct (simulate_rate_limit_decision
              (mkRequest "127.0.0.1" (11 # 2) 1 60 false)
              (simulate_rate_limit (mkRequest "127.0.0.1" 0 1 60 false) init).1)
    as (_ & _ & Hlim & _).
  - apply simulate_rate_limit_wf, wf_init.
  - reflexivity.
  - split; vm_compute; discriminate.
  - apply simulate_rate_limit_bounded_store; [vm_compute; discriminate |].
    apply bounded_store_init.
  - destruct Hlim as (_ & resp & t & Heq & Hst & Ht & Hra & _).
    + vm_compute. discriminate.
    + exists resp. split; [exact Heq |]. split; [exact Hst |].
      rewrite Hra. vm_compute in Ht. injection Ht as <-. reflexivity.
Defined.

(** C1 as first stated fails on whole seconds: with 55 seconds of the
    window left, rounding up with a minimum of 1 gives 55, and the
    handler reports 56.  Every float operation of this call is exact. *)
Lemma retry_after_whole_seconds :
  ∃ resp,
    (simulate_rate_limit (mkRequest "127.0.0.1" 5 1 60 false)
       (simulate_rate_limit (mkRequest "127.0.0.1" 0 1 60 false) init).1).2
    = Limited resp
    ∧ time_remaining (mkRequest "127.0.0.1" 5 1 60 false) (mkCounter 1 0)
      = Ok (PyFloat.Finite 55)
    ∧ (time_left (mkRequest "127.0.0.1" 5 1 60 false)
         (rolled (mkRequest "127.0.0.1" 5 1 60 false)
            (fetched (mkRequest "127.0.0.1" 5 1 60 false)
               (simulate_rate_limit (mkRequest "127.0.0.1" 0 1 60 false) init).1))
       == 55)%Q
    ∧ Z.max 1 (Qceiling 55) = 55
    ∧ lb_retry_after (content resp) = 56.
Proof.
  eexists. split; [vm_compute; reflexivity |].
  split; [vm_compute; reflexivity |].
  split; [vm_compute; reflexivity |]. split; reflexivity.
Qed.

(** C10, at the input where the code departs from it.  A first call
    with limit 0 and window 10^400: the window has not expired and
    0 >= limit holds, so the claim promises 429; the handler converts
    window to a float to compute the remaining time, the conversion
    raises OverflowError, and the client gets a 500.  The store is as
    the claim says: only the fresh counter was added. *)
Theorem nonpositive_limit_window_overflow :
  ¬ expired (mkRequest "127.0.0.1" 0 0 (10 ^ 400) false) (mkCounter 0 0)
  ∧ (simulate_rate_limit (mkRequest "127.0.0.1" 0 0 (10 ^ 400) false) init).2
    = Crashed OverflowError
  ∧ outcome_status
      (simulate_rate_limit (mkRequest "127.0.0.1" 0 0 (10 ^ 400) false) init).2
    = 500
  ∧ counter_of
      (simulate_rate_limit (mkRequest "127.0.0.1" 0 0 (10 ^ 400) false) init).1
      "127.0.0.1"
    = Some (mkCounter 0 0).
Proof.
  split; [vm_compute; discriminate |].
  split; [vm_compute; reflexivity |].
  split; vm_compute; reflexivity.
Qed.

End RateLimitClaims.

(** ** Rate-limit handler: calls of one client, in sequence and interleaved *)

Section RateLimitSequence.
Import RateLimit.

Lemma serve_cons rq rqs σ :
  serve (rq :: rqs) σ
  = ((serve rqs (simulate_rate_limit rq σ).1).1,
     (simulate_rate_limit rq σ).2 :: (serve rqs (simulate_rate_limit rq σ).1).2).
Proof.
  cbn [serve]. destruct (simulate_rate_limit rq σ) as [σ1 o]. cbn [fst snd].
  destruct (serve rqs σ1) as [σ2 os]. reflexivity.
Qed.

(** Calls served one after another inside one window: the first
    [n - k] of them succeed, [k] being the count already used. *)
Lemma serve_statuses ip (n k : nat) t0 rqs σ :
  wf σ → PyFloat.moderate t0 →
  Forall (λ rq, same_client_call ip n rq ∧ ¬ expired rq (mkCounter 0 t0)) rqs →
  (∀ rq, head rqs = Some rq → fetched rq σ = mkCounter (Z.of_nat k) t0) →
  outcome_status <$> (serve rqs σ).2
  = (replicate (Nat.min (n - k) (length rqs)) 200
     ++ replicate (length rqs - (n - k)) 429)%list.
Proof.
  intros Hwf Ht0. revert σ k Hwf.
  induction rqs as [| rq rest IH]; intros σ k Hwf Hall Hhead.
  - cbn. rewrite Nat.min_0_r. reflexivity.
  - apply Forall_cons in Hall as [[(Hip & Hr & Hlim & Hrange) Hlive] Hrest].
    specialize (Hhead rq eq_refl).
    destruct (simulate_rate_limit_effect rq σ Hwf Hr) as [Hco Hout].
    specialize (Hco ip). rewrite decide_True in Hco by (symmetry; exact Hip).
    rewrite Hhead in Hco, Hout.
    assert (Hroll : rolled rq (mkCounter (Z.of_nat k) t0) = mkCounter (Z.of_nat k) t0)
      by (apply rolled_live; exact Hlive).
    rewrite Hroll in Hco, Hout. cbn [count] in Hco, Hout. rewrite Hlim in Hco, Hout.
    pose proof (simulate_rate_limit_wf rq σ Hwf) as Hwf1.
    rewrite serve_cons. cbn [snd fmap list_fmap length].
    destruct (Z.leb_spec (Z.of_nat n) (Z.of_nat k)) as [Hle | Hgt].
    + destruct (limited_outcome_bounded rq (mkCounter (Z.of_nat k) t0) Hrange Ht0)
        as (resp & _ & Hlo & Hs).
      rewrite Hout, Hlo. cbn [outcome_status]. rewrite Hs.
      rewrite (IH _ k Hwf1 Hrest).
      * replace (n - k)%nat with 0%nat by lia. cbn.
        rewrite Nat.sub_0_r. reflexivity.
      * intros rq' Hrq'. destruct rest as [| r rest']; [discriminate |].
        injection Hrq' as ->. apply Forall_cons in Hrest as [[(Hip' & _) _] _].
        unfold fetched. rewrite Hip', Hco. reflexivity.
    + destruct (allowed_outcome_bounded rq
                  (incremented (mkCounter (Z.of_nat k) t0)) Hrange Ht0)
        as (resp & _ & Hao & Hs & _).
      rewrite Hout, Hao. cbn [outcome_status]. rewrite Hs.
      rewrite (IH _ (S k) Hwf1 Hrest).
      * replace (n - k)%nat with (S (n - S k)) by lia. cbn. reflexivity.
      * intros rq' Hrq'. destruct rest as [| r rest']; [discriminate |].
        injection Hrq' as ->. apply Forall_cons in Hrest as [[(Hip' & _) _] _].
        unfold fetched. rewrite Hip', Hco. cbn. unfold incremented. cbn.
        f_equal. lia.
Qed.

End RateLimitSequence.

Section RateLimitInterleaving.
Import RateLimit.

Lemma passed_cons t ts :
  passed (t :: ts) = ((if incremented_already t then 1 else 0) + passed ts)%nat.
Proof.
  unfold passed. rewrite filter_cons.
  destruct (incremented_already t); case_decide; try done.
Qed.

Lemma passed_insert ts i t t' :
  ts !! i = Some t →
  (passed (<[i := t']> ts) + (if incremented_already t then 1 else 0)
   = passed ts + (if incremented_already t' then 1 else 0))%nat.
Proof.
  revert i. induction ts as [| x ts IH]; intros [| i] Hi; try discriminate.
  - injection Hi as ->.
    change (<[0%nat := t']> (t :: ts)) with (t' :: ts).
    rewrite !passed_cons. lia.
  - change (<[S i := t']> (x :: ts)) with (x :: <[i := t']> ts).
    rewrite !passed_cons. specialize (IH i Hi). lia.
Qed.

Lemma passed_lt ts i t :
  ts !! i = Some t → incremented_already t = false → (passed ts < length ts)%nat.
Proof.
  revert i. induction ts as [| x ts IH]; intros [| i] Hi Hb; try discriminate.
  - injection Hi as ->. rewrite passed_cons, Hb. cbn.
    pose proof (length_filter (λ t, incremented_already t = true) ts).
    unfold passed. lia.
  - rewrite passed_cons. cbn. specialize (IH i Hi Hb).
    destruct (incremented_already x); lia.
Qed.

Lemma passed_same ts i rq p p' :
  ts !! i = Some (rq, p) →
  incremented_already (rq, p) = incremented_already (rq, p') →
  passed (<[i := (rq, p')]> ts) = passed ts.
Proof.
  intros Hi Hb. pose proof (passed_insert ts i _ (rq, p') Hi) as H.
  rewrite Hb in H. lia.
Qed.

(** One step of one call of the pool keeps the invariant. *)
Lemma step_pool_inv ip n σ ts i rq p :
  pool_inv ip n σ ts →
  ts !! i = Some (rq, p) →
  pool_inv ip n (step rq σ p).1 (<[i := (rq, (step rq σ p).2)]> ts).
Proof.
  intros (Hlen & Hcalls & Hpcs) Hi.
  pose proof (Forall_lookup_1 _ _ _ _ Hcalls Hi) as (Hip & Hr & Hlim & Hrange).
  cbn [fst] in Hip, Hr, Hlim, Hrange.
  assert (Hcalls' : ∀ p', Forall (λ t, same_client_call ip n t.1) (<[i := (rq, p')]> ts)).
  { intros p'. apply Forall_insert; [exact Hcalls | done]. }
  split; [by rewrite length_insert |]. split; [apply Hcalls' |].
  destruct (request_counts σ !! ip) as [l |] eqn:Hl.
  - destruct Hpcs as (c & Hc & Hok & Hcnt & Hmod).
    pose proof (Forall_lookup_1 _ _ _ _ Hok Hi) as Hp. cbn [snd] in Hp.
    destruct p as [| | l' | l' | l' | l' | o]; cbn [pc_ok] in Hp; subst.
    + (* AtEntry, counter present *)
      rewrite (step_entry_present rq σ l Hr Hl). cbn [fst snd]. rewrite Hl.
      exists c. split; [exact Hc |]. split; [by apply Forall_insert |].
      split; [| exact Hmod].
      by rewrite (passed_same ts i rq AtEntry AtFetch Hi).
    + (* AtFetch *)
      rewrite (step_fetch rq σ l Hl). cbn [fst snd]. rewrite Hl.
      exists c. split; [exact Hc |]. split; [by apply Forall_insert |].
      split; [| exact Hmod].
      by rewrite (passed_same ts i rq AtFetch (AtWindow l) Hi).
    + (* AtWindow *)
      rewrite (step_window rq σ l c Hc). cbn [fst snd set_heap request_counts heap].
      rewrite Hl. exists (rolled rq c).
      split; [apply list_lookup_insert_eq; eapply lookup_lt_Some, Hc |].
      split; [by apply Forall_insert |].
      rewrite (passed_same ts i rq (AtWindow l) (AtCheck l) Hi) by reflexivity.
      split.
      * unfold rolled. destruct (window_expired rq c); cbn [count]; lia.
      * destruct (rolled_window_start rq c) as [-> | ->]; [exact Hmod | apply Hrange].
    + (* AtCheck: the call has not incremented yet, so a slot is left *)
      pose proof (passed_lt ts i _ Hi eq_refl) as Hfree.
      rewrite (step_check rq σ l c Hc).
      assert (Hgt : (limit rq <=? count c) = false) by (apply Z.leb_gt; lia).
      rewrite Hgt. cbn [fst snd]. rewrite Hl.
      exists c. split; [exact Hc |]. split; [by apply Forall_insert |].
      split; [| exact Hmod].
      by rewrite (passed_same ts i rq (AtCheck l) (AtIncrement l) Hi).
    + (* AtIncrement *)
      rewrite (step_increment rq σ l c Hc). cbn [fst snd set_heap request_counts heap].
      rewrite Hl. exists (incremented c).
      split; [apply list_lookup_insert_eq; eapply lookup_lt_Some, Hc |].
      split; [by apply Forall_insert |].
      pose proof (passed_insert ts i _ (rq, AtReply l) Hi) as Hpass.
      cbn in Hpass. cbn [incremented count window_start].
      split; [lia | exact Hmod].
    + (* AtReply: in range, the reply can be built *)
      rewrite (step_reply rq σ l c Hc). cbn [fst snd]. rewrite Hl.
      destruct (allowed_outcome_bounded rq c Hrange Hmod) as (resp & _ & Hao & Hs & _).
      rewrite Hao.
      exists c. split; [exact Hc |].
      split; [apply Forall_insert; [exact Hok | exact Hs] |].
      split; [| exact Hmod].
      by rewrite (passed_same ts i rq (AtReply l) (Done _) Hi).
    + (* Done *)
      cbn [step fst snd]. rewrite Hl. rewrite (list_insert_id _ _ _ Hi).
      exists c. done.
  - pose proof (Forall_lookup_1 _ _ _ _ Hpcs Hi) as Hp. cbn [snd] in Hp. subst p.
    rewrite (step_entry_absent rq σ Hr); [| by rewrite Hip].
    cbn [fst snd created request_counts heap]. rewrite Hip, lookup_insert_eq.
    exists (mkCounter 0 (current_time rq)).
    split; [by apply list_lookup_middle |].
    split; [| split; [cbn [count]; lia | apply Hrange]].
    apply Forall_insert; [| done].
    eapply Forall_impl; [exact Hpcs |]. intros [rq' p'] Hp'. cbn in Hp' |- *.
    by subst p'.
Qed.

(** Every schedule keeps the invariant. *)
Lemma sched_pool_inv ip n schedule σ ts :
  pool_inv ip n σ ts →
  pool_inv ip n (sched schedule σ ts).1 (sched schedule σ ts).2.
Proof.
  revert σ ts. induction schedule as [| i rest IH]; intros σ ts Hinv; [exact Hinv |].
  cbn [sched]. destruct (ts !! i) as [[rq p] |] eqn:Hi; [| by apply IH].
  pose proof (step_pool_inv ip n σ ts i rq p Hinv Hi) as Hstep.
  destruct (step rq σ p) as [σ' p']. by apply IH.
Qed.

Lemma start_pool_inv ip rqs σ :
  request_counts σ !! ip = None →
  Forall (same_client_call ip (length rqs)) rqs →
  pool_inv ip (length rqs) σ (start rqs).
Proof.
  intros Hnone Hall. unfold start.
  split; [by rewrite length_fmap |]. split.
  - apply Forall_fmap. eapply Forall_impl; [exact Hall |]. done.
  - rewrite Hnone. apply Forall_fmap, Forall_true. done.
Qed.

(** In a pool under the invariant, every finished call succeeded. *)
Lemma pool_inv_finished ip n σ ts :
  pool_inv ip n σ ts →
  Forall (λ t, finished t = true → succeeded t = true ∧ outcome_status (outcome_of t.2) = 200) ts.
Proof.
  intros (_ & _ & Hpcs).
  destruct (request_counts σ !! ip) as [l |].
  - destruct Hpcs as (c & _ & Hok & _).
    eapply Forall_impl; [exact Hok |]. intros [rq p]. unfold finished, succeeded. cbn.
    destruct p as [| | | | | | o]; try discriminate.
    destruct o; cbn; try contradiction. done.
  - eapply Forall_impl; [exact Hpcs |]. intros [rq p]. unfold finished. cbn.
    intros ->. discriminate.
Qed.

(** Every step takes a call closer to its end. *)
Lemma step_steps_left rq σ p :
  (steps_left (step rq σ p).2 ≤ pred (steps_left p))%nat.
Proof.
  destruct p as [| | l | l | l | l | o]; cbn [step].
  - destruct (reset_counts rq); [cbn; lia |].
    destruct (request_counts σ !! client_ip rq); cbn; lia.
  - destruct (request_counts σ !! client_ip rq); cbn; lia.
  - destruct (heap σ !! l); [destruct (window_expired rq _) |]; cbn; lia.
  - destruct (heap σ !! l); [destruct (limit rq <=? _) |]; cbn; lia.
  - destruct (heap σ !! l); cbn; lia.
  - destruct (heap σ !! l); cbn; lia.
  - cbn. lia.
Qed.

Lemma sched_steps_left schedule σ ts i rq p :
  ts !! i = Some (rq, p) →
  ∃ p', (sched schedule σ ts).2 !! i = Some (rq, p')
        ∧ (steps_left p' ≤ steps_left p - count_occ Nat.eq_dec schedule i)%nat.
Proof.
  revert σ ts p. induction schedule as [| j rest IH]; intros σ ts p Hi.
  - exists p. split; [exact Hi |]. cbn. lia.
  - cbn [sched count_occ]. destruct (Nat.eq_dec j i) as [-> | Hne].
    + rewrite Hi. pose proof (step_steps_left rq σ p) as Hstep.
      destruct (step rq σ p) as [σ1 p1]. cbn [snd] in Hstep.
      destruct (IH σ1 (<[i := (rq, p1)]> ts) p1) as (p' & Hp' & Hle).
      { apply list_lookup_insert_eq. eapply lookup_lt_Some, Hi. }
      exists p'. split; [exact Hp' | lia].
    + destruct (ts !! j) as [[rqj pj] |] eqn:Hj; [| by apply IH].
      destruct (step rqj σ pj) as [σ1 p1].
      apply IH. rewrite list_lookup_insert_ne by exact Hne. exact Hi.
Qed.

(** Under a schedule that gives every call six steps, every call of the
    pool has finished. *)
Lemma sched_all_finished schedule σ rqs :
  (∀ i, (i < length rqs)%nat → (6 ≤ count_occ Nat.eq_dec schedule i)%nat) →
  Forall (λ t, finished t = true) (sched schedule σ (start rqs)).2.
Proof.
  intros Hfair. apply Forall_lookup. intros i t Ht.
  assert (Hlen : ∀ sch σ0 ts, length (sched sch σ0 ts).2 = length ts).
  { induction sch as [| j rest IH]; intros σ0 ts; [reflexivity |].
    cbn [sched]. destruct (ts !! j) as [[rqj pj] |]; [| apply IH].
    destruct (step rqj σ0 pj) as [σ1 p1]. rewrite IH. apply length_insert. }
  assert (Hi : (i < length rqs)%nat).
  { apply lookup_lt_Some in Ht. rewrite Hlen in Ht. unfold start in Ht.
    by rewrite length_fmap in Ht. }
  destruct (lookup_lt_is_Some_2 rqs i Hi) as [rq Hrq].
  assert (Hs : start rqs !! i = Some (rq, AtEntry)).
  { unfold start. rewrite list_lookup_fmap, Hrq. reflexivity. }
  destruct (sched_steps_left schedule σ _ i rq AtEntry Hs) as (p' & Hp' & Hle).
  rewrite Hp' in Ht. injection Ht as <-.
  specialize (Hfair i Hi). unfold finished. cbn [snd].
  destruct p' as [| | l | l | l | l | o]; cbn in Hle; first [reflexivity | lia].
Qed.

Lemma filter_all {A} (P : A → Prop) `{∀ x, Decision (P x)} (l : list A) :
  Forall P l → filter P l = l.
Proof.
  induction 1 as [| x l Hx _ IH]; [reflexivity |].
  rewrite filter_cons, decide_True by exact Hx. by rewrite IH.
Qed.

End RateLimitInterleaving.

Section RateLimitConcurrency.
Import RateLimit.

(** C2, as the code has it.  The handler takes no lock, so calls of one
    client are not serialized (see [interleaved_calls_both_pass]).  What
    holds for a client that has no counter yet, for calls whose window
    and clock reading are far inside the range of the doubles:
    - when its calls are served one after another inside one window,
      each call sees the count left by the previous one: with limit n
      the first n calls get 200 and all later ones 429;
    - when n calls with limit n are in flight together, under every
      interleaving of their steps each call that has finished got 200,
      and once every call has been given its six steps all n calls have
      finished with 200: n calls yield exactly n successes. *)
Theorem same_client_calls ip (rqs : list request) σ :
  wf σ → counter_of σ ip = None →
  (∀ (n : nat) (t0 : Q),
     Forall (λ rq, same_client_call ip n rq ∧ ¬ expired rq (mkCounter 0 t0)) rqs →
     current_time <$> head rqs = Some t0 →
     outcome_status <$> (serve rqs σ).2
     = (replicate (Nat.min n (length rqs)) 200
        ++ replicate (length rqs - n) 429)%list)
  ∧ (Forall (same_client_call ip (length rqs)) rqs →
     ∀ schedule : list nat,
       length (sched schedule σ (start rqs)).2 = length rqs
       ∧ Forall (λ t, finished t = true →
                      succeeded t = true ∧ outcome_status (outcome_of t.2) = 200)
                (sched schedule σ (start rqs)).2
       ∧ ((∀ i, (i < length rqs)%nat →
                (6 ≤ count_occ Nat.eq_dec schedule i)%nat) →
          Forall (λ t, succeeded t = true ∧ outcome_status (outcome_of t.2) = 200)
                 (sched schedule σ (start rqs)).2
          ∧ length (filter (λ t, succeeded t = true)
                           (sched schedule σ (start rqs)).2) = length rqs)).
Proof.
  intros Hwf Hnone. split.
  - intros n t0 Hall Hhead.
    assert (Ht0 : PyFloat.moderate t0).
    { destruct rqs as [| r rest]; [discriminate |]. injection Hhead as <-.
      apply Forall_cons in Hall as [[(_ & _ & _ & _ & Hm) _] _]. exact Hm. }
    rewrite (serve_statuses ip n 0 t0 rqs σ Hwf Ht0 Hall).
    + rewrite Nat.sub_0_r. reflexivity.
    + intros rq Hrq. rewrite Hrq in Hhead. injection Hhead as <-.
      destruct rqs as [| r rest]; [discriminate |]. injection Hrq as ->.
      apply Forall_cons in Hall as [[(Hip & _) _] _].
      unfold fetched. rewrite Hip, Hnone. reflexivity.
  - intros Hall schedule.
    pose proof (start_pool_inv ip rqs σ (counter_of_None σ ip Hwf Hnone) Hall) as Hinv.
    pose proof (sched_pool_inv ip (length rqs) schedule σ (start rqs) Hinv) as Hinv'.
    pose proof (pool_inv_finished _ _ _ _ Hinv') as Hfin.
    split; [apply Hinv' |]. split; [exact Hfin |].
    intros Hfair.
    assert (Hall' : Forall (λ t, succeeded t = true
                                 ∧ outcome_status (outcome_of t.2) = 200)
                           (sched schedule σ (start rqs)).2).
    { pose proof (sched_all_finished schedule σ rqs Hfair) as Hdone.
      apply Forall_lookup. intros i t Ht.
      apply (Forall_lookup_1 _ _ _ _ Hfin Ht).
      exact (Forall_lookup_1 _ _ _ _ Hdone Ht). }
    split; [exact Hall' |].
    rewrite filter_all; [apply Hinv' |].
    eapply Forall_impl; [exact Hall' |]. by intros t [Hs _].
Qed.

Lemma same_client_calls_witness :
  outcome_status <$>
    (serve [mkRequest "127.0.0.1" 0 2 60 false;
            mkRequest "127.0.0.1" 1 2 60 false;
            mkRequest "127.0.0.1" 2 2 60 false] init).2
  = [200; 200; 429]
  ∧ Forall (λ t, succeeded t = true ∧ outcome_status (outcome_of t.2) = 200)
      (sched [0; 1; 0; 1; 0; 1; 0; 1; 0; 1; 0; 1]%nat init
         (start [mkRequest "127.0.0.1" 0 2 60 false;
                 mkRequest "127.0.0.1" 0 2 60 false])).2.
Proof.
  split.
  - destruct (same_client_calls "127.0.0.1"
                [mkRequest "127.0.0.1" 0 2 60 false;
                 mkRequest "127.0.0.1" 1 2 60 false;
                 mkRequest "127.0.0.1" 2 2 60 false] init) as [Hseq _].
    + apply wf_init.
    + reflexivity.
    + apply (Hseq 2%nat 0%Q).
      * repeat (apply Forall_cons; split;
                [split;
                 [split; [reflexivity |]; split; [reflexivity |];
                  split; [reflexivity |]; split; vm_compute; discriminate
                 | intros H; vm_compute in H; discriminate H] |]).
        apply Forall_nil. exact I.
      * reflexivity.
  - destruct (same_client_calls "127.0.0.1"
                [mkRequest "127.0.0.1" 0 2 60 false;
                 mkRequest "127.0.0.1" 0 2 60 false] init) as [_ Hpar].
    + apply wf_init.
    + reflexivity.
    + destruct (Hpar
        ltac:(repeat (apply Forall_cons; split;
                [split; [reflexivity |]; split; [reflexivity |];
                 split; [reflexivity |]; split; vm_compute; discriminate |]);
              apply Forall_nil; exact I)
        [0; 1; 0; 1; 0; 1; 0; 1; 0; 1; 0; 1]%nat) as (_ & _ & Hfair).
      apply Hfair. intros i Hi.
      destruct i as [| [| i]]; [vm_compute; lia | vm_compute; lia |].
      cbn in Hi. lia.
Defined.

(** C2 as first stated fails.  Two calls of one client with limit 1:
    each runs up to its test of count against limit before the other
    increments, both read count 0, both pass, both increment, and both
    are answered 200, the count ending at 2. *)
Lemma interleaved_calls_both_pass :
  (sched [0; 0; 0; 0; 1; 1; 1; 1]%nat init
     (start [mkRequest "127.0.0.1" 0 1 60 false;
             mkRequest "127.0.0.1" (1 # 128) 1 60 false])).2
  = [(mkRequest "127.0.0.1" 0 1 60 false, AtIncrement 0);
     (mkRequest "127.0.0.1" (1 # 128) 1 60 false, AtIncrement 0)]
  ∧ counter_of
      (sched [0; 0; 0; 0; 1; 1; 1; 1]%nat init
         (start [mkRequest "127.0.0.1" 0 1 60 false;
                 mkRequest "127.0.0.1" (1 # 128) 1 60 false])).1
      "127.0.0.1"
    = Some (mkCounter 0 0)
  ∧ (λ t, outcome_status (outcome_of t.2)) <$>
      (sched [0; 0; 0; 0; 1; 1; 1; 1; 0; 0; 1; 1]%nat init
         (start [mkRequest "127.0.0.1" 0 1 60 false;
                 mkRequest "127.0.0.1" (1 # 128) 1 60 false])).2
    = [200; 200]
  ∧ counter_of
      (sched [0; 0; 0; 0; 1; 1; 1; 1; 0; 0; 1; 1]%nat init
         (start [mkRequest "127.0.0.1" 0 1 60 false;
                 mkRequest "127.0.0.1" (1 # 128) 1 60 false])).1
      "127.0.0.1"
    = Some (mkCounter 2 0).
Proof. repeat split; vm_compute; reflexivity. Qed.

End RateLimitConcurrency.


(** * Further properties of the code *)

(** ** utils/errors.py: request identifiers and timestamps *)

Section ErrorsExtras.
Import Errors.

Lemma substring_prefix_length (n : nat) (s : string) :
  String.length (substring 0 n s) = Nat.min n (String.length s)
  ∧ String.prefix (substring 0 n s) s = true.
Proof.
  revert s. induction n as [| n IH]; intros s.
  - destruct s; split; reflexivity.
  - destruct s as [| c s]; [split; reflexivity |].
    destruct (IH s) as [Hlen Hpre]. cbn. rewrite Hlen. split; [reflexivity |].
    destruct (ascii_dec c c) as [_ | Hne]; [exact Hpre | contradiction].
Qed.

(** X1. A request identifier made from a uuid of at least twelve
    characters is sixteen characters long: the prefix req_ followed by the
    first twelve characters of the uuid's hex form. *)
Theorem generate_request_id_format (hex : string) :
  (12 ≤ String.length hex)%nat →
  String.length (generate_request_id hex) = 16%nat
  ∧ ∃ h, generate_request_id hex = "req_" +:+ h
         ∧ String.length h = 12%nat
         ∧ String.prefix h hex = true.
Proof.
  intros Hlen. destruct (substring_prefix_length 12 hex) as [Hl Hp].
  rewrite Nat.min_l in Hl by exact Hlen.
  split.
  - unfold generate_request_id.
    change (String.length ("req_" +:+ substring 0 12 hex))
      with (4 + String.length (substring 0 12 hex))%nat.
    rewrite Hl. reflexivity.
  - exists (substring 0 12 hex). split; [reflexivity |]. split; assumption.
Qed.

Lemma generate_request_id_format_witness :
  String.length (generate_request_id "0123456789abcdef0123456789abcdef") = 16%nat
  ∧ generate_request_id "0123456789abcdef0123456789abcdef" = "req_0123456789ab".
Proof.
  destruct (generate_request_id_format "0123456789abcdef0123456789abcdef") as [Hlen _].
  - cbn. lia.
  - split; [exact Hlen | reflexivity].
Defined.

(** X2. The timestamp of a valid datetime has the shape
    YYYY-MM-DDTHH:MM:SS followed by Z, twenty characters, when the
    microseconds are zero; otherwise a dot and six more digits come before
    the Z, twenty-seven characters.  The last character is always Z. *)
Theorem get_current_timestamp_format (now : datetime) :
  valid_datetime now →
  String.get 4 (get_current_timestamp now) = Some "-"%char
  ∧ String.get 7 (get_current_timestamp now) = Some "-"%char
  ∧ String.get 10 (get_current_timestamp now) = Some "T"%char
  ∧ String.get 13 (get_current_timestamp now) = Some ":"%char
  ∧ String.get 16 (get_current_timestamp now) = Some ":"%char
  ∧ (microsecond now = 0 →
       String.length (get_current_timestamp now) = 20%nat
       ∧ String.get 19 (get_current_timestamp now) = Some "Z"%char)
  ∧ (microsecond now ≠ 0 →
       String.length (get_current_timestamp now) = 27%nat
       ∧ String.get 19 (get_current_timestamp now) = Some "."%char
       ∧ String.get 26 (get_current_timestamp now) = Some "Z"%char).
Proof.
  intros (Hy & Hmo & Hd & Hh & Hmi & Hs & Hus).
  unfold get_current_timestamp, isoformat, zero_padded.
  change (10 ^ Z.of_nat 4) with 10000. change (10 ^ Z.of_nat 2) with 100.
  change (10 ^ Z.of_nat 6) with 1000000.
  rewrite (proj2 (Z.ltb_lt (year now) 10000)) by lia.
  rewrite (proj2 (Z.ltb_lt (month now) 100)) by lia.
  rewrite (proj2 (Z.ltb_lt (day now) 100)) by lia.
  rewrite (proj2 (Z.ltb_lt (hour now) 100)) by lia.
  rewrite (proj2 (Z.ltb_lt (minute now) 100)) by lia.
  rewrite (proj2 (Z.ltb_lt (second now) 100)) by lia.
  rewrite (proj2 (Z.ltb_lt (microsecond now) 1000000)) by lia.
  cbn [digits].
  do 5 (split; [reflexivity |]).
  destruct (Z.eqb_spec (microsecond now) 0) as [Hz | Hnz]; split.
  - intros _. split; reflexivity.
  - intros Hne. contradiction.
  - intros Hz. contradiction.
  - intros _. repeat split; reflexivity.
Qed.

Lemma get_current_timestamp_format_witness :
  String.length (get_current_timestamp (mkDatetime 2024 1 2 3 4 5 1234)) = 27%nat
  ∧ get_current_timestamp (mkDatetime 2024 1 2 3 4 5 1234)
    = "2024-01-02T03:04:05.001234Z".
Proof.
  destruct (get_current_timestamp_format (mkDatetime 2024 1 2 3 4 5 1234))
    as (_ & _ & _ & _ & _ & _ & Hus).
  - unfold valid_datetime. cbn. lia.
  - destruct Hus as [Hlen _]; [discriminate |].
    split; [exact Hlen | reflexivity].
Defined.

End ErrorsExtras.

(** ** The three tables keyed by status code *)

Section CatalogExtras.
Import Errors Simulate.

Lemma causes_map_dom : dom causes_map = list_to_set possible_codes.
Proof. unfold causes_map. rewrite dom_list_to_map_L. reflexivity. Qed.

Lemma possible_codes_cases (code : Z) :
  code ∈ possible_codes →
  code = 400 ∨ code = 401 ∨ code = 403 ∨ code = 404 ∨ code = 422
  ∨ code = 429 ∨ code = 500 ∨ code = 502 ∨ code = 503 ∨ code = 504.
Proof. unfold possible_codes. rewrite !elem_of_cons, elem_of_nil. tauto. Qed.

Lemma uncatalogued_code (code : Z) :
  code ∉ possible_codes →
  error_catalog !! code = None ∧ causes_map !! code = None.
Proof.
  intros Hout. split; apply not_elem_of_dom.
  - rewrite error_catalog_dom. change (code ∉ (list_to_set possible_codes : gset Z)).
    by rewrite elem_of_list_to_set.
  - rewrite causes_map_dom. by rewrite elem_of_list_to_set.
Qed.

Lemma catalogued_title (code : Z) :
  code ∈ possible_codes → (get_error_details code).1.1 ≠ "Unknown Error".
Proof.
  intros Hin.
  destruct (possible_codes_cases _ Hin)
    as [-> | [-> | [-> | [-> | [-> | [-> | [-> | [-> | [-> | ->]]]]]]]]];
    vm_compute; discriminate.
Qed.

(** X3. The catalog of [get_error_details], the table of
    [get_common_causes] and the pool of the random handler have the same
    ten codes.  A code of the pool has a title other than "Unknown Error"
    and exactly three causes, none of them the generic one, and its title
    is the title of no other code of the pool; a code outside the pool
    gets the generic title and the single generic cause. *)
Theorem catalog_tables_agree (code : Z) :
  (code ∈ possible_codes →
     (get_error_details code).1.1 ≠ "Unknown Error"
     ∧ length (get_common_causes code) = 3%nat
     ∧ ("Unknown cause" ∉ get_common_causes code)
     ∧ (∀ code', code' ∈ possible_codes →
          (get_error_details code').1.1 = (get_error_details code).1.1 →
          code' = code))
  ∧ (code ∉ possible_codes →
     (get_error_details code).1.1 = "Unknown Error"
     ∧ get_common_causes code = ["Unknown cause"]).
Proof.
  split.
  - intros Hin. split; [by apply catalogued_title |].
    destruct (possible_codes_cases _ Hin)
      as [-> | [-> | [-> | [-> | [-> | [-> | [-> | [-> | [-> | ->]]]]]]]]].
    all: split; [reflexivity |].
    all: split; [refine (bool_decide_unpack _ _); vm_compute; exact I |].
    all: intros code' Hin' Ht;
      destruct (possible_codes_cases _ Hin')
        as [-> | [-> | [-> | [-> | [-> | [-> | [-> | [-> | [-> | ->]]]]]]]]];
      first [reflexivity | vm_compute in Ht; discriminate Ht].
  - intros Hout. destruct (uncatalogued_code _ Hout) as [He Hc].
    unfold get_error_details, get_common_causes. rewrite He, Hc. split; reflexivity.
Qed.

Lemma catalog_tables_agree_witness :
  ((get_error_details 503).1.1 ≠ "Unknown Error"
   ∧ length (get_common_causes 503) = 3%nat)
  ∧ (get_error_details 418).1.1 = "Unknown Error"
  ∧ get_common_causes 418 = ["Unknown cause"].
Proof.
  assert (Hin : 503 ∈ possible_codes).
  { unfold possible_codes. rewrite !elem_of_cons. tauto. }
  assert (Hout : 418 ∉ possible_codes).
  { unfold possible_codes. rewrite !elem_of_cons, elem_of_nil.
    intros H. repeat (destruct H as [H | H]; [discriminate H |]). exact H. }
  split.
  - destruct (proj1 (catalog_tables_agree 503) Hin) as (Ht & Hl & _).
    split; assumption.
  - exact (proj2 (catalog_tables_agree 418) Hout).
Defined.

End CatalogExtras.

(** ** /simulate/status: which headers a response carries *)

Section StatusExtras.
Import Errors Simulate.

(** The headers of a response built with include_headers true. *)
Lemma simulate_status_true_headers ts rid (code : Z) :
  200 ≤ code ≤ 599 →
  ∃ resp, simulate_status ts rid code true = Return resp
    ∧ status_code resp = code
    ∧ sb_code (content resp) = code
    ∧ sb_error (content resp) = (get_error_details code).1.1
    ∧ headers resp !! "x-debug-mode" = Some "true"
    ∧ headers resp !! "x-request-id" = Some rid
    ∧ headers resp !! "x-error-type"
      = Some (PyStr.replace " " "_" (PyStr.lower (get_error_details code).1.1)).
Proof.
  intros Hr. unfold simulate_status. rewrite (in_range_test code Hr).
  destruct (get_error_details code) as [[title message] fix_hint].
  eexists. split; [reflexivity |]. cbn [headers content status_code sb_code sb_error sb_request_id fst].
  do 3 (split; [reflexivity |]).
  destruct (Z.eqb_spec code 429) as [-> | Hn429];
    [| destruct (Z.eqb_spec code 401) as [-> | Hn401]];
    repeat split; by simplify_map_eq.
Qed.

(** X4. The header set of a status response, exactly.  Without
    include_headers the response has no header of the handler's at all;
    with it the response has x-debug-mode, x-request-id and x-error-type,
    the three rate-limit headers for code 429 and for no other code, and
    www-authenticate for code 401 and for no other code. *)
Theorem simulate_status_header_keys ts rid (code : Z) (include_headers : bool) :
  200 ≤ code ≤ 599 →
  ∃ resp, simulate_status ts rid code include_headers = Return resp
    ∧ (include_headers = false → headers resp = ∅)
    ∧ ∀ k, is_Some (headers resp !! k) ↔
           include_headers = true
           ∧ (k ∈ ["x-debug-mode"; "x-request-id"; "x-error-type"]
              ∨ (code = 429
                 ∧ k ∈ ["retry-after"; "x-ratelimit-limit"; "x-ratelimit-remaining"])
              ∨ (code = 401 ∧ k = "www-authenticate")).
Proof.
  intros Hr. unfold simulate_status. rewrite (in_range_test code Hr).
  destruct (get_error_details code) as [[title message] fix_hint].
  eexists. split; [reflexivity |]. cbn [headers content sb_request_id].
  destruct include_headers.
  - split; [discriminate |]. intros k. rewrite <- elem_of_dom.
    destruct (Z.eqb_spec code 429) as [-> | Hn429];
      [| destruct (Z.eqb_spec code 401) as [-> | Hn401]];
      rewrite !dom_insert_L, dom_empty_L, !elem_of_union, !elem_of_singleton,
        !elem_of_cons, !elem_of_nil, elem_of_empty.
    + split; [intros H; split; [reflexivity |]; tauto |].
      intros [_ [H | [[_ H] | [H _]]]]; [tauto | tauto | discriminate H].
    + split; [intros H; split; [reflexivity |]; tauto |].
      intros [_ [H | [[H _] | [_ H]]]]; [tauto | discriminate H | tauto].
    + split; [intros H; split; [reflexivity |]; tauto |].
      intros [_ [H | [[H _] | [H _]]]]; [tauto | contradiction | contradiction].
  - split; [reflexivity |]. intros k. rewrite lookup_empty. split.
    + intros [x Hx]. discriminate Hx.
    + intros [H _]. discriminate H.
Qed.

Lemma simulate_status_header_keys_witness :
  ∃ resp, simulate_status "2024-01-01T00:00:00Z" "req_0123456789ab" 404 true = Return resp
    ∧ headers resp !! "retry-after" = None
    ∧ headers resp !! "www-authenticate" = None
    ∧ is_Some (headers resp !! "x-error-type").
Proof.
  destruct (simulate_status_header_keys "2024-01-01T00:00:00Z" "req_0123456789ab" 404 true)
    as (resp & Heq & _ & Hk); [lia |].
  exists resp. split; [exact Heq |].
  split; [| split].
  - apply eq_None_not_Some. rewrite Hk. intros [_ [H | [[H _] | [H _]]]];
      [| discriminate H | discriminate H].
    rewrite !elem_of_cons, elem_of_nil in H.
    destruct H as [H | [H | [H | []]]]; discriminate H.
  - apply eq_None_not_Some. rewrite Hk. intros [_ [H | [[H _] | [H _]]]];
      [| discriminate H | discriminate H].
    rewrite !elem_of_cons, elem_of_nil in H.
    destruct H as [H | [H | [H | []]]]; discriminate H.
  - apply Hk. split; [reflexivity |]. left. rewrite !elem_of_cons. tauto.
Defined.

(** [lower] leaves no letter of [A-Z]. *)
Lemma lower_char_not_upper (c : ascii) :
  ¬ (65 ≤ nat_of_ascii (PyStr.lower_char c) ≤ 90)%nat.
Proof.
  destruct c as [[] [] [] [] [] [] [] []]; vm_compute; lia.
Qed.

Lemma lower_char_space (c : ascii) :
  PyStr.lower_char c = " "%char → c = " "%char.
Proof.
  destruct c as [[] [] [] [] [] [] [] []]; vm_compute; congruence.
Qed.

Lemma slug_length (s : string) :
  String.length (PyStr.replace " " "_" (PyStr.lower s)) = String.length s.
Proof. induction s as [| c s IH]; [reflexivity |]. cbn. by rewrite IH. Qed.

Lemma slug_get (s : string) (i : nat) :
  String.get i (PyStr.replace " " "_" (PyStr.lower s))
  = (λ c, if Ascii.eqb (PyStr.lower_char c) " " then "_"%char
          else PyStr.lower_char c) <$> String.get i s.
Proof.
  revert i. induction s as [| c s IH]; intros i; [reflexivity |].
  destruct i as [| i]; [reflexivity |]. cbn [PyStr.lower PyStr.replace String.get].
  apply IH.
Qed.

(** X5. The x-error-type header is a slug of the title: it has the
    title's length, position by position a space of the title has become
    an underscore, a letter [A-Z] its lower-case letter and any other
    character is kept, so the value holds no space and no capital
    letter.  For a code outside the catalog it is "unknown_error". *)
Theorem simulate_status_error_type_slug ts rid (code : Z) :
  200 ≤ code ≤ 599 →
  ∃ resp v,
    simulate_status ts rid code true = Return resp
    ∧ headers resp !! "x-error-type" = Some v
    ∧ String.length v = String.length (sb_error (content resp))
    ∧ (∀ i c, String.get i v = Some c →
              c ≠ " "%char ∧ ¬ (65 ≤ nat_of_ascii c ≤ 90)%nat)
    ∧ (∀ i c, String.get i (sb_error (content resp)) = Some c →
              String.get i v
              = Some (if Ascii.eqb c " " then "_"%char else PyStr.lower_char c))
    ∧ (code ∉ possible_codes → v = "unknown_error").
Proof.
  intros Hr.
  destruct (simulate_status_true_headers ts rid code Hr)
    as (resp & Heq & _ & _ & Ht & _ & _ & Hv).
  exists resp, (PyStr.replace " " "_" (PyStr.lower (get_error_details code).1.1)).
  split; [exact Heq |]. split; [exact Hv |]. rewrite Ht.
  split; [apply slug_length |]. split; [| split].
  - intros i c. rewrite slug_get.
    destruct (String.get i (get_error_details code).1.1) as [c0 |]; [| discriminate].
    cbn [fmap option_fmap option_map]. intros [= <-].
    destruct (Ascii.eqb_spec (PyStr.lower_char c0) " ") as [Hsp | Hnsp].
    + split; [discriminate | vm_compute; lia].
    + split; [exact Hnsp | apply lower_char_not_upper].
  - intros i c Hc. rewrite slug_get, Hc. cbn [fmap option_fmap option_map].
    f_equal.
    destruct (Ascii.eqb_spec (PyStr.lower_char c) " ") as [Hsp | Hnsp].
    + rewrite (lower_char_space _ Hsp). reflexivity.
    + destruct (Ascii.eqb_spec c " ") as [-> | _]; [| reflexivity].
      exfalso. apply Hnsp. reflexivity.
  - intros Hout. destruct (uncatalogued_code _ Hout) as [He _].
    unfold get_error_details. rewrite He. reflexivity.
Qed.

Lemma simulate_status_error_type_slug_witness :
  ∃ resp v,
    simulate_status "2024-01-01T00:00:00Z" "req_0123456789ab" 500 true = Return resp
    ∧ headers resp !! "x-error-type" = Some v
    ∧ String.length v = String.length (sb_error (content resp)).
Proof.
  destruct (simulate_status_error_type_slug "2024-01-01T00:00:00Z" "req_0123456789ab" 500)
    as (resp & v & Heq & Hv & Hl & _); [lia |].
  exists resp, v. auto.
Defined.

End StatusExtras.

(** ** /simulate/invalid-json: the header that names the body *)

Section InvalidJsonExtras.
Import Simulate.

Lemma json_errors_lookup_cases (k body : string) :
  json_errors !! k = Some body → k ∈ json_error_types.
Proof.
  intros Hk. apply (elem_of_list_to_set (C := gset string)).
  rewrite <- json_errors_dom. apply elem_of_dom. by exists body.
Qed.

(** X6. The x-json-error-type header names the table entry whose text is
    the body, and no other entry has that text, so a client can tell from
    either one which malformation it was sent.  The header repeats the
    requested type when it is one of the six, and says missing_comma
    otherwise. *)
Theorem simulate_invalid_json_type_header (error_type : string) :
  ∃ k, headers (simulate_invalid_json error_type) !! "x-json-error-type" = Some k
     ∧ k ∈ json_error_types
     ∧ json_errors !! k = Some (content (simulate_invalid_json error_type))
     ∧ (error_type ∈ json_error_types → k = error_type)
     ∧ (error_type ∉ json_error_types → k = "missing_comma")
     ∧ (∀ k', json_errors !! k' = Some (content (simulate_invalid_json error_type)) →
              k' = k).
Proof.
  assert (Hknown : ∀ k, k ∈ json_error_types →
            headers (simulate_invalid_json k) !! "x-json-error-type" = Some k
            ∧ json_errors !! k = Some (content (simulate_invalid_json k))
            ∧ ∀ k', json_errors !! k' = Some (content (simulate_invalid_json k)) →
                    k' = k).
  { intros k Hin.
    destruct (json_error_types_cases _ Hin)
      as [-> | [-> | [-> | [-> | [-> | ->]]]]].
    all: split; [reflexivity |]; split; [reflexivity |].
    all: intros k' Hk';
      destruct (json_error_types_cases _ (json_errors_lookup_cases _ _ Hk'))
        as [-> | [-> | [-> | [-> | [-> | ->]]]]];
      first [reflexivity | vm_compute in Hk'; discriminate Hk']. }
  destruct (decide (error_type ∈ json_error_types)) as [Hin | Hout].
  - exists error_type. destruct (Hknown _ Hin) as (Hh & Hb & Hinj).
    split; [exact Hh |]. split; [exact Hin |]. split; [exact Hb |].
    split; [reflexivity |]. split; [contradiction | exact Hinj].
  - exists "missing_comma". rewrite (simulate_invalid_json_unknown _ Hout).
    assert (Hmc : "missing_comma" ∈ json_error_types).
    { unfold json_error_types. apply elem_of_cons. by left. }
    destruct (Hknown _ Hmc) as (Hh & Hb & Hinj).
    split; [exact Hh |]. split; [exact Hmc |]. split; [exact Hb |].
    split; [contradiction |]. split; [reflexivity | exact Hinj].
Qed.

Lemma simulate_invalid_json_type_header_witness :
  ∃ k, headers (simulate_invalid_json "unquoted_key") !! "x-json-error-type" = Some k
     ∧ k = "unquoted_key"
     ∧ json_errors !! k = Some (content (simulate_invalid_json "unquoted_key")).
Proof.
  destruct (simulate_invalid_json_type_header "unquoted_key")
    as (k & Hh & _ & Hb & Hsame & _).
  exists k. split; [exact Hh |]. split; [| exact Hb].
  apply Hsame. unfold json_error_types. rewrite !elem_of_cons. tauto.
Defined.

End InvalidJsonExtras.

(** ** /simulate/slow and /simulate/timeout: how long a call sleeps *)

Section DelayExtras.
Import Simulate.

Lemma simulate_slow_accepts (seconds : Z) :
  - 2 ^ 1000 ≤ seconds ≤ 30 →
  (30 <? seconds) = false
  ∧ ∃ w, PyFloat.of_int seconds = Ok w
         ∧ (Qabs w <= inject_Z (2 ^ 1000))%Q
         ∧ (w <= 30)%Q
         ∧ (Z.abs seconds < 2 ^ 53 → (w == inject_Z seconds)%Q).
Proof.
  intros [Hlo Hhi]. split; [by apply Z.ltb_ge |].
  assert (Habs : Z.abs seconds ≤ 2 ^ 1000) by lia.
  destruct (of_int_bounded seconds Habs) as (w & Hw & Hwb).
  exists w. split; [exact Hw |]. split; [exact Hwb |].
  pose proof (of_int_nearest _ _ Hw) as Hn. split.
  - subst w.
    assert (H30 : (PyFloat.nearest (inject_Z 30) == inject_Z 30)%Q)
      by (apply nearest_int; lia).
    assert (Hle : (inject_Z seconds <= PyFloat.nearest (inject_Z 30))%Q).
    { rewrite H30. rewrite <- Zle_Qle. exact Hhi. }
    pose proof (nearest_le_double _ _ Hle) as H. rewrite H30 in H. exact H.
  - intros Hs. subst w. by apply nearest_int.
Qed.

(** X7. With jitter, for a draw [u] of [random.uniform(-1, 2)] and an
    accepted [seconds] whose conversion to a float does not overflow,
    the handler sleeps once, for at least the double 0.1 and at most 32
    seconds: the jitter can carry the delay two seconds past the maximum
    of 30 that the parameter check enforces.  The delay is never more
    than one second below [seconds], and it is [seconds + u] whenever
    that sum is a double and at least 0.1. *)
Theorem simulate_slow_jitter_bounds (u : Q) (seconds : Z) :
  - 2 ^ 1000 ≤ seconds ≤ 30 → (-1 <= u)%Q → (u <= 2)%Q →
  ∃ delay body,
    simulate_slow u seconds true = ([Sleep delay], Return body)
    ∧ sl_delay_seconds body = FloatNum delay
    ∧ (point_one <= delay)%Q
    ∧ (delay <= 32)%Q
    ∧ (inject_Z seconds - 1 <= delay)%Q
    ∧ (PyFloat.exact (inject_Z seconds + u) →
       (point_one <= inject_Z seconds + u)%Q →
       (delay == inject_Z seconds + u)%Q).
Proof.
  intros Hs Hlo Hhi.
  destruct (simulate_slow_accepts seconds Hs) as (Hlt & w & Hw & Hwb & Hw30 & Hwz).
  assert (Hq : (inject_Z seconds <= 30)%Q).
  { change 30%Q with (inject_Z 30). rewrite <- Zle_Qle. lia. }
  assert (Hub : (Qabs u <= inject_Z (2 ^ 1000))%Q).
  { apply Qabs_Qle_condition. split.
    - apply Qle_trans with (-1)%Q; [| exact Hlo]. vm_compute. discriminate.
    - apply Qle_trans with 2%Q; [exact Hhi |]. vm_compute. discriminate. }
  assert (Hk : 0 ≤ 1000 ≤ 1022) by lia.
  destruct (add_bounded w u 1000 Hk Hwb Hub) as (d0 & Hd0 & _).
  pose proof Hd0 as Hn. cbn [PyFloat.add] in Hn. apply round_finite in Hn.
  destruct (max_point_one d0) as (d & Hmax & Hdlo & Hdd0 & Hdeq & Hdcase).
  exists d, (slow_reply (FloatNum d) d seconds true).
  split. { unfold simulate_slow. rewrite Hlt, Hw, Hd0, Hmax. reflexivity. }
  split; [reflexivity |]. split; [exact Hdlo |].
  assert (H32 : (PyFloat.nearest (inject_Z 32) == inject_Z 32)%Q)
    by (apply nearest_int; lia).
  assert (Hd032 : (d0 <= 32)%Q).
  { subst d0.
    assert (Hle : (w + u <= PyFloat.nearest (inject_Z 32))%Q).
    { rewrite H32. change (inject_Z 32) with 32%Q. lra. }
    pose proof (nearest_le_double _ _ Hle) as H. rewrite H32 in H. exact H. }
  split.
  { destruct Hdcase as [-> | ->]; [exact Hd032 | vm_compute; discriminate]. }
  split.
  { destruct (Z_le_gt_dec seconds 0) as [Hneg | Hpos].
    - assert (Hq0 : (inject_Z seconds <= 0)%Q).
      { change 0%Q with (inject_Z 0). rewrite <- Zle_Qle. exact Hneg. }
      assert (Hp : (0 < point_one)%Q) by (vm_compute; reflexivity). lra.
    - assert (Hsm : Z.abs seconds < 2 ^ 53) by lia.
      specialize (Hwz Hsm).
      assert (Hex : (PyFloat.nearest (inject_Z (seconds - 1)) == inject_Z (seconds - 1))%Q)
        by (apply nearest_int; lia).
      assert (Hinj : (inject_Z (seconds - 1) == inject_Z seconds - 1)%Q).
      { unfold Zminus. rewrite inject_Z_plus. reflexivity. }
      assert (Hle : (PyFloat.nearest (inject_Z (seconds - 1)) <= w + u)%Q).
      { rewrite Hex, Hinj, Hwz. lra. }
      pose proof (nearest_ge_double _ _ Hle) as H. rewrite Hex, Hinj in H.
      subst d0. lra. }
  intros Hexact Hge.
  assert (Hsm : Z.abs seconds < 2 ^ 53).
  { assert (Hge2 : (-2 <= inject_Z seconds)%Q).
    { assert (Hp : (0 < point_one)%Q) by (vm_compute; reflexivity). lra. }
    change (-2)%Q with (inject_Z (-2)) in Hge2. rewrite <- Zle_Qle in Hge2. lia. }
  specialize (Hwz Hsm).
  assert (Hd0eq : (d0 == inject_Z seconds + u)%Q).
  { assert (Hr : PyFloat.round (w + u) = PyFloat.Finite (Qred (inject_Z seconds + u))).
    { rewrite (round_proper (w + u) (inject_Z seconds + u)); [exact Hexact |].
      rewrite Hwz. reflexivity. }
    cbn [PyFloat.add] in Hd0. rewrite Hr in Hd0. injection Hd0 as <-.
    apply Qred_correct. }
  rewrite <- Hd0eq. apply Hdeq. rewrite Hd0eq. exact Hge.
Qed.

Lemma simulate_slow_jitter_bounds_witness :
  ∃ delay body,
    simulate_slow 2 30 true = ([Sleep delay], Return body)
    ∧ (point_one <= delay)%Q ∧ (delay <= 32)%Q ∧ (delay == 32)%Q.
Proof.
  destruct (simulate_slow_jitter_bounds 2 30)
    as (delay & body & Heq & _ & Hlo & Hhi & _ & Hex); [lia | lra | lra |].
  exists delay, body. split; [exact Heq |]. split; [exact Hlo |].
  split; [exact Hhi |]. rewrite Hex; [reflexivity | | vm_compute; discriminate].
  apply (exact_int 32). lia.
Defined.

(** X25. The delay handler on the inputs where the conversion of
    [seconds] to a float does not overflow.  For seconds from -2^1000
    to 30 and a draw of moderate size the handler sleeps once and
    returns; the response reports the requested delay, the applied delay
    and the jitter flag.  With jitter the applied delay is the float
    max(0.1, seconds + u), at least the double 0.1; without jitter it is
    seconds exactly, reported as the [int] it was given.  The message
    shows the applied delay in the format .2f. *)
Theorem simulate_slow_in_range (u : Q) (seconds : Z) (jitter : bool) :
  - 2 ^ 1000 ≤ seconds ≤ 30 → PyFloat.moderate u →
  ∃ w delay body,
    PyFloat.of_int seconds = Ok w
    ∧ (Z.abs seconds < 2 ^ 53 → (w == inject_Z seconds)%Q)
    ∧ simulate_slow u seconds jitter = ([Sleep delay], Return body)
    ∧ sl_requested_delay body = seconds
    ∧ sl_jitter_applied body = jitter
    ∧ (jitter = true →
         PyFloat.max (PyFloat.Finite point_one)
                     (PyFloat.add (PyFloat.Finite w) (PyFloat.Finite u))
         = PyFloat.Finite delay
         ∧ (point_one <= delay)%Q
         ∧ sl_delay_seconds body = FloatNum delay
         ∧ sl_message body
           = "Response delayed for " +:+ format_2f delay +:+ " seconds")
    ∧ (jitter = false →
         delay = inject_Z seconds
         ∧ sl_delay_seconds body = IntNum seconds
         ∧ sl_message body
           = "Response delayed for " +:+ format_2f w +:+ " seconds").
Proof.
  intros Hs Hub.
  destruct (simulate_slow_accepts seconds Hs) as (Hlt & w & Hw & Hwb & _ & Hwz).
  exists w. destruct jitter.
  - assert (Hk : 0 ≤ 1000 ≤ 1022) by lia.
    destruct (add_bounded w u 1000 Hk Hwb Hub) as (d0 & Hd0 & _).
    destruct (max_point_one d0) as (d & Hmax & Hdlo & _).
    exists d, (slow_reply (FloatNum d) d seconds true).
    split; [exact Hw |]. split; [exact Hwz |].
    split. { unfold simulate_slow. rewrite Hlt, Hw, Hd0, Hmax. reflexivity. }
    split; [reflexivity |]. split; [reflexivity |].
    split; [| discriminate]. intros _. rewrite Hd0.
    split; [exact Hmax |]. split; [exact Hdlo |]. split; reflexivity.
  - exists (inject_Z seconds), (slow_reply (IntNum seconds) w seconds false).
    split; [exact Hw |]. split; [exact Hwz |].
    split. { unfold simulate_slow. rewrite Hlt, Hw. reflexivity. }
    split; [reflexivity |]. split; [reflexivity |].
    split; [discriminate |]. intros _. split; [reflexivity |]. split; reflexivity.
Qed.

Lemma simulate_slow_in_range_witness :
  ∃ body,
    simulate_slow 0 5 false = ([Sleep (inject_Z 5)], Return body)
    ∧ sl_delay_seconds body = IntNum 5
    ∧ sl_message body = "Response delayed for 5.00 seconds".
Proof.
  destruct (simulate_slow_in_range 0 5 false)
    as (w & delay & body & Hw & _ & Heq & _ & _ & _ & Hj).
  - lia.
  - vm_compute. discriminate.
  - destruct (Hj eq_refl) as (-> & Hd & Hm).
    exists body. split; [exact Heq |]. split; [exact Hd |].
    rewrite Hm. assert (Hw5 : PyFloat.of_int 5 = Ok 5%Q) by (vm_compute; reflexivity).
    rewrite Hw5 in Hw. injection Hw as <-. vm_compute. reflexivity.
Defined.

(** X8. The timeout handler sleeps exactly once, for [hang_time] seconds
    when that is at most 120 and for 120 seconds otherwise, so never for
    more than 120; the number in its message is the capped one; the tip
    is the same text for every [hang_time]. *)
Theorem simulate_timeout_capped (hang_time : Z) :
  ∃ d, (simulate_timeout hang_time).1 = [Sleep (inject_Z d)]
     ∧ d ≤ 120
     ∧ (hang_time ≤ 120 → d = hang_time)
     ∧ (120 < hang_time → d = 120)
     ∧ tb_message (simulate_timeout hang_time).2
       = "Request hung for " +:+ PyStr.str d +:+ " seconds"
     ∧ ∀ other, tb_tip (simulate_timeout other).2
                = tb_tip (simulate_timeout hang_time).2.
Proof.
  exists (Z.min hang_time 120). split; [reflexivity |].
  split; [lia |]. split; [lia |]. split; [lia |].
  split; reflexivity.
Qed.

Lemma simulate_timeout_capped_witness :
  ∃ d, (simulate_timeout 600).1 = [Sleep (inject_Z d)] ∧ d = 120.
Proof.
  destruct (simulate_timeout_capped 600) as (d & Heq & _ & _ & Hcap & _).
  exists d. split; [exact Heq | apply Hcap; lia].
Defined.

End DelayExtras.

(** ** /simulate/random: what a call can answer *)

Section RandomExtras.
Import Errors Simulate.

Lemma fallback_possible : 500 ∈ possible_codes.
Proof. unfold possible_codes. rewrite !elem_of_cons. tauto. Qed.

(** Whatever the exclusion list, the pool is drawn from the ten codes. *)
Lemma remaining_codes_possible (exclude_codes : string) (code : Z) :
  code ∈ remaining_codes exclude_codes → code ∈ possible_codes.
Proof.
  unfold remaining_codes.
  destruct (decide (exclude_codes = EmptyString)); [done |].
  destruct (parse_excluded exclude_codes) as [excluded |]; [| done].
  destruct (filter _ possible_codes) as [| c l] eqn:Hf.
  - rewrite list_elem_of_singleton. intros ->. apply fallback_possible.
  - rewrite <- Hf, list_elem_of_filter. by intros [_ Hin].
Qed.

(** X9. Whatever [exclude_codes] is, well formed or not, and whatever
    the random draws are, the random handler raises nothing: it answers
    with one of the ten catalogued codes (the fallback 500 is one of
    them), with that code in the body, a catalogued title, the debug
    headers of the status handler, and it sleeps at most once, exactly
    when the draw [p] is below 0.3. *)
Theorem simulate_random_catalogued r p d ts rid (exclude_codes : string) :
  ∃ resp,
    (simulate_random r p d ts rid exclude_codes).2 = Return resp
    ∧ status_code resp ∈ possible_codes
    ∧ sb_code (content resp) = status_code resp
    ∧ sb_error (content resp) ≠ "Unknown Error"
    ∧ headers resp !! "x-debug-mode" = Some "true"
    ∧ headers resp !! "x-request-id" = Some rid
    ∧ (simulate_random r p d ts rid exclude_codes).1
      = if Qlt_le_dec p (3 # 10) then [Sleep d] else [].
Proof.
  unfold simulate_random.
  destruct (random_choice_elem r _ (remaining_codes_nonempty exclude_codes))
    as (code & Hch & Hin).
  rewrite Hch. cbn [fst snd].
  pose proof (remaining_codes_possible _ _ Hin) as Hp.
  destruct (simulate_status_true_headers ts rid code (possible_codes_in_range _ Hp))
    as (resp & Heq & Hs & Hc & Ht & Hd & Hi & _).
  exists resp. split; [exact Heq |]. rewrite Hs, Hc, Ht.
  split; [exact Hp |]. split; [reflexivity |].
  split; [by apply catalogued_title |]. auto.
Qed.

(** The pool depends on the parsed exclusion list only through its
    members among the ten codes. *)
Lemma filter_excluded_ext (ex1 ex2 : list Z) :
  (∀ c, c ∈ possible_codes → (c ∈ ex1 ↔ c ∈ ex2)) →
  filter (λ code, code ∉ ex1) possible_codes
  = filter (λ code, code ∉ ex2) possible_codes.
Proof.
  intros Hsame. generalize dependent possible_codes.
  intros l. induction l as [| c l IH]; intros Hsame; [reflexivity |].
  rewrite !filter_cons.
  assert (Hc : c ∈ ex1 ↔ c ∈ ex2) by (apply Hsame; left).
  rewrite IH by (intros c' Hc'; apply Hsame; by right).
  destruct (decide (c ∉ ex1)) as [H1 | H1], (decide (c ∉ ex2)) as [H2 | H2];
    try reflexivity; exfalso; tauto.
Qed.

(** X10. For two well-formed exclusion lists, the pool of the random
    handler is the same as soon as they exclude the same codes among the
    ten: the order of the entries, repeated entries, white space around
    an entry and entries that are no code of the pool change nothing. *)
Theorem remaining_codes_same_exclusions (e1 e2 : string) (ex1 ex2 : list Z) :
  e1 ≠ EmptyString → e2 ≠ EmptyString →
  Forall2 (λ entry v, PyStr.int (PyStr.strip entry) = Some v)
          (PyStr.split "," e1) ex1 →
  Forall2 (λ entry v, PyStr.int (PyStr.strip entry) = Some v)
          (PyStr.split "," e2) ex2 →
  (∀ c, c ∈ possible_codes → (c ∈ ex1 ↔ c ∈ ex2)) →
  remaining_codes e1 = remaining_codes e2
  ∧ ∀ r p d ts rid,
      simulate_random r p d ts rid e1 = simulate_random r p d ts rid e2.
Proof.
  intros Hn1 Hn2 Hp1 Hp2 Hsame.
  assert (Heq : remaining_codes e1 = remaining_codes e2).
  { rewrite (remaining_codes_parsed e1 ex1 Hn1 Hp1),
      (remaining_codes_parsed e2 ex2 Hn2 Hp2), (filter_excluded_ext ex1 ex2 Hsame).
    reflexivity. }
  split; [exact Heq |]. intros r p d ts rid. unfold simulate_random.
  rewrite Heq. reflexivity.
Qed.

Lemma remaining_codes_same_exclusions_witness :
  remaining_codes "500,503" = remaining_codes " 503 ,999,500,+503".
Proof.
  refine (proj1 (remaining_codes_same_exclusions "500,503" " 503 ,999,500,+503"
                   [500; 503] [503; 999; 500; 503] _ _ _ _ _)).
  - discriminate.
  - discriminate.
  - apply mapM_Some_1. vm_compute. reflexivity.
  - apply mapM_Some_1. vm_compute. reflexivity.
  - intros c Hc. destruct (possible_codes_cases _ Hc)
      as [-> | [-> | [-> | [-> | [-> | [-> | [-> | [-> | [-> | ->]]]]]]]]];
      rewrite !elem_of_cons, !elem_of_nil; split; intros H;
      repeat (destruct H as [H | H]; [try discriminate H |]); try tauto.
Defined.

End RandomExtras.

(** ** /simulate/rate-limit: reset, fresh windows and live windows *)

Section RateLimitCallExtras.
Import RateLimit.

Lemma reset_call rq σ :
  reset_counts rq = true →
  simulate_rate_limit rq σ
  = (mkState (delete (client_ip rq) (request_counts σ)) (heap σ),
     ResetDone
       {| rb_status := "reset";
          rb_message := "Rate limit counter reset for " +:+ client_ip rq;
          rb_limit := limit rq;
          rb_window := window rq |}).
Proof.
  intros Hr. unfold simulate_rate_limit.
  rewrite run_S. cbn [step]. rewrite Hr. cbn [fst snd].
  rewrite run_done. reflexivity.
Qed.

Lemma counter_of_popped σ ip ip' :
  counter_of (mkState (delete ip (request_counts σ)) (heap σ)) ip'
  = if decide (ip = ip') then None else counter_of σ ip'.
Proof.
  unfold counter_of. cbn. rewrite lookup_delete. by case_decide.
Qed.

(** X11. A reset call answers 200 with the limit and window it was
    given, whether or not the client had a counter.  It removes the
    client's counter and no other client's; on a store where the client
    has no counter it changes nothing, so a second reset in a row changes
    nothing either. *)
Theorem simulate_rate_limit_reset_effect rq σ :
  reset_counts rq = true →
  (∃ body, (simulate_rate_limit rq σ).2 = ResetDone body
           ∧ rb_limit body = limit rq ∧ rb_window body = window rq)
  ∧ outcome_status (simulate_rate_limit rq σ).2 = 200
  ∧ counter_of (simulate_rate_limit rq σ).1 (client_ip rq) = None
  ∧ (∀ ip, ip ≠ client_ip rq →
           counter_of (simulate_rate_limit rq σ).1 ip = counter_of σ ip)
  ∧ (wf σ → counter_of σ (client_ip rq) = None →
     (simulate_rate_limit rq σ).1 = σ)
  ∧ (simulate_rate_limit rq (simulate_rate_limit rq σ).1).1
    = (simulate_rate_limit rq σ).1.
Proof.
  intros Hr. rewrite !(reset_call rq _ Hr). cbn [fst snd].
  split; [eexists; split; [reflexivity | split; reflexivity] |].
  split; [reflexivity |].
  split; [rewrite counter_of_popped; by rewrite decide_True |].
  split; [intros ip Hne; rewrite counter_of_popped; by rewrite decide_False |].
  split.
  - intros Hwf Hnone. rewrite (delete_id _ _ (counter_of_None σ _ Hwf Hnone)).
    by destruct σ.
  - cbn. by rewrite delete_delete_eq.
Qed.

Lemma simulate_rate_limit_reset_effect_witness :
  counter_of
    (simulate_rate_limit (mkRequest "127.0.0.1" 1 3 60 true)
       (simulate_rate_limit (mkRequest "127.0.0.1" 0 3 60 false) init).1).1
    "127.0.0.1" = None.
Proof.
  exact (proj1 (proj2 (proj2
    (simulate_rate_limit_reset_effect (mkRequest "127.0.0.1" 1 3 60 true)
       (simulate_rate_limit (mkRequest "127.0.0.1" 0 3 60 false) init).1
       eq_refl)))).
Defined.

(** A double rounds to itself. *)
Lemma nearest_idem (x : Q) :
  (PyFloat.nearest (PyFloat.nearest x) == PyFloat.nearest x)%Q.
Proof.
  apply Qle_antisym.
  - apply nearest_le_double. apply Qle_refl.
  - apply nearest_ge_double. apply Qle_refl.
Qed.

(** On the counter [(n, now)] the whole window remains: the float
    [window - 0.0], which is [window] converted. *)
Lemma time_remaining_fresh rq n :
  bounded_request rq →
  ∃ w t, PyFloat.of_int (window rq) = Ok w
         ∧ time_remaining rq (mkCounter n (current_time rq)) = Ok (PyFloat.Finite t)
         ∧ (t == w)%Q.
Proof.
  intros [Hwin _].
  destruct (of_int_bounded _ Hwin) as (w & Hw & Hwb).
  assert (Hk : 0 ≤ 1000 ≤ 1023) by lia.
  assert (Hb : (Qabs (w - 0) <= inject_Z (2 ^ 1000))%Q).
  { assert (He : (w - 0 == w)%Q) by ring. rewrite He. exact Hwb. }
  destruct (round_bounded (w - 0) 1000 Hk Hb) as [Hr _].
  exists w, (PyFloat.nearest (w - 0)).
  split; [exact Hw |]. split.
  - unfold time_remaining. rewrite Hw. cbn [mbind result_bind].
    rewrite elapsed_fresh. cbn [PyFloat.sub]. by rewrite Hr.
  - rewrite (nearest_proper (w - 0) w) by ring.
    rewrite (of_int_nearest _ _ Hw). apply nearest_idem.
Qed.

(** A call that starts from the counter [(0, now)]. *)
Lemma fresh_call rq σ :
  wf σ → reset_counts rq = false →
  rolled rq (fetched rq σ) = mkCounter 0 (current_time rq) →
  counter_of (simulate_rate_limit rq σ).1 (client_ip rq)
  = Some (mkCounter (if limit rq <=? 0 then 0 else 1) (current_time rq))
  ∧ (simulate_rate_limit rq σ).2
    = if limit rq <=? 0
      then limited_outcome rq (mkCounter 0 (current_time rq))
      else allowed_outcome rq (mkCounter 1 (current_time rq)).
Proof.
  intros Hwf Hr Hc1.
  destruct (simulate_rate_limit_effect rq σ Hwf Hr) as [Hco Ho].
  cbv zeta in Hco, Ho. rewrite Hc1 in Hco, Ho. cbn [count] in Hco, Ho.
  rewrite Hco, Ho, decide_True by reflexivity.
  destruct (limit rq <=? 0); split; reflexivity.
Qed.

(** X12. A client with no counter and a client whose window has expired
    are served alike, from the counter (0, now), when the window and the
    clock reading are in range: with a positive limit the call passes
    with current_count 1 and remaining limit - 1 and leaves the counter
    (1, now); with a limit of zero or less it is rejected with 429,
    leaves the counter (0, now), and its retry_after is the window as a
    float, truncated, plus one: the whole window plus one second for a
    window below 2^53 in magnitude. *)
Theorem simulate_rate_limit_fresh_window rq σ :
  wf σ → reset_counts rq = false → bounded_request rq →
  (counter_of σ (client_ip rq) = None
   ∨ ∃ c, counter_of σ (client_ip rq) = Some c ∧ expired rq c) →
  (0 < limit rq →
     counter_of (simulate_rate_limit rq σ).1 (client_ip rq)
     = Some (mkCounter 1 (current_time rq))
     ∧ ∃ resp, (simulate_rate_limit rq σ).2 = Allowed resp
         ∧ status_code resp = 200
         ∧ ab_current_count (content resp) = 1
         ∧ ab_remaining (content resp) = limit rq - 1)
  ∧ (limit rq ≤ 0 →
     counter_of (simulate_rate_limit rq σ).1 (client_ip rq)
     = Some (mkCounter 0 (current_time rq))
     ∧ ∃ resp w, (simulate_rate_limit rq σ).2 = Limited resp
         ∧ status_code resp = 429
         ∧ PyFloat.of_int (window rq) = Ok w
         ∧ lb_retry_after (content resp) = Qtrunc w + 1
         ∧ (Z.abs (window rq) < 2 ^ 53 →
            lb_retry_after (content resp) = window rq + 1)).
Proof.
  intros Hwf Hr Hrq Hfresh.
  assert (Hc1 : rolled rq (fetched rq σ) = mkCounter 0 (current_time rq)).
  { unfold fetched.
    destruct Hfresh as [-> | (c & -> & Hex)]; cbn [default from_option id].
    - apply rolled_fresh.
    - by apply rolled_expired. }
  destruct (fresh_call rq σ Hwf Hr Hc1) as [Hco Ho]. rewrite Hco, Ho.
  split; intros Hl.
  - rewrite (proj2 (Z.leb_gt (limit rq) 0)) by lia.
    split; [reflexivity |].
    destruct (allowed_outcome_bounded rq (mkCounter 1 (current_time rq)) Hrq (proj2 Hrq))
      as (resp & _ & Hout & Hs & Hcc & Hrem & _).
    exists resp. split; [exact Hout |]. split; [exact Hs |].
    split; [exact Hcc | exact Hrem].
  - rewrite (proj2 (Z.leb_le (limit rq) 0)) by lia.
    split; [reflexivity |].
    set (c := mkCounter 0 (current_time rq)).
    destruct (time_remaining_fresh rq 0 Hrq) as (w & t & Hw & Ht & Htw).
    fold c in Ht.
    destruct (limited_outcome_bounded rq c Hrq (proj2 Hrq)) as (resp & Hresp & Hout & Hs).
    destruct (limited_response_inv rq c resp Hresp)
      as (t' & reset & Ht' & _ & _ & _ & Hra & _).
    rewrite Ht in Ht'. injection Ht' as <-.
    exists resp, w. split; [exact Hout |]. split; [exact Hs |].
    split; [exact Hw |].
    assert (Hq : Qtrunc t = Qtrunc w) by (by apply Qtrunc_proper).
    split; [rewrite Hra, Hq; reflexivity |].
    intros Hsmall. rewrite Hra, Hq. f_equal.
    apply Qtrunc_whole. rewrite (of_int_nearest _ _ Hw). by apply nearest_int.
Qed.

Lemma simulate_rate_limit_fresh_window_witness :
  ∃ resp,
    (simulate_rate_limit (mkRequest "127.0.0.1" 61 3 60 false)
       (simulate_rate_limit (mkRequest "127.0.0.1" 0 3 60 false) init).1).2
    = Allowed resp
    ∧ ab_current_count (content resp) = 1
    ∧ ab_remaining (content resp) = 2.
Proof.
  destruct (simulate_rate_limit_fresh_window
              (mkRequest "127.0.0.1" 61 3 60 false)
              (simulate_rate_limit (mkRequest "127.0.0.1" 0 3 60 false) init).1)
    as [Hpos _].
  - apply simulate_rate_limit_wf, wf_init.
  - reflexivity.
  - split; vm_compute; discriminate.
  - right. exists (mkCounter 1 0). split; [reflexivity |].
    vm_compute. reflexivity.
  - destruct Hpos as (_ & resp & Ho & _ & Hc & Hrem); [cbn; lia |].
    exists resp. split; [exact Ho |]. split; [exact Hc | exact Hrem].
Defined.

(** X13. Reset, then call: whatever count the client had reached, after
    its reset call its next call with a positive limit, and with a
    window and a clock reading in range, passes, with current_count 1
    and remaining limit - 1. *)
Theorem reset_then_call rq0 rq σ :
  wf σ →
  reset_counts rq0 = true → client_ip rq0 = client_ip rq →
  reset_counts rq = false → 0 < limit rq → bounded_request rq →
  ∃ resp,
    (simulate_rate_limit rq (simulate_rate_limit rq0 σ).1).2 = Allowed resp
    ∧ status_code resp = 200
    ∧ ab_current_count (content resp) = 1
    ∧ ab_remaining (content resp) = limit rq - 1
    ∧ counter_of (simulate_rate_limit rq (simulate_rate_limit rq0 σ).1).1
        (client_ip rq)
      = Some (mkCounter 1 (current_time rq)).
Proof.
  intros Hwf Hr0 Hip Hr Hl Hrq.
  rewrite (reset_call rq0 σ Hr0). cbn [fst].
  set (σ0 := mkState _ _).
  assert (Hwf0 : wf σ0) by by apply wf_popped.
  assert (Hnone : counter_of σ0 (client_ip rq) = None).
  { unfold σ0. rewrite counter_of_popped. by rewrite decide_True. }
  assert (Hc1 : rolled rq (fetched rq σ0) = mkCounter 0 (current_time rq)).
  { unfold fetched. rewrite Hnone. apply rolled_fresh. }
  destruct (fresh_call rq σ0 Hwf0 Hr Hc1) as [Hco Ho]. rewrite Hco, Ho.
  rewrite (proj2 (Z.leb_gt (limit rq) 0)) by lia.
  destruct (allowed_outcome_bounded rq (mkCounter 1 (current_time rq)) Hrq (proj2 Hrq))
    as (resp & _ & Hout & Hs & Hcc & Hrem & _).
  exists resp. split; [exact Hout |]. split; [exact Hs |].
  split; [exact Hcc |]. split; [exact Hrem | reflexivity].
Qed.

Lemma reset_then_call_witness :
  ∃ resp,
    (simulate_rate_limit (mkRequest "127.0.0.1" 3 1 60 false)
       (simulate_rate_limit (mkRequest "127.0.0.1" 2 1 60 true)
          (simulate_rate_limit (mkRequest "127.0.0.1" 1 1 60 false) init).1).1).2
    = Allowed resp
    ∧ ab_current_count (content resp) = 1.
Proof.
  destruct (reset_then_call (mkRequest "127.0.0.1" 2 1 60 true)
              (mkRequest "127.0.0.1" 3 1 60 false)
              (simulate_rate_limit (mkRequest "127.0.0.1" 1 1 60 false) init).1
              (simulate_rate_limit_wf _ _ wf_init) eq_refl eq_refl eq_refl)
    as (resp & Ho & _ & Hc & _).
  - cbn. lia.
  - split; vm_compute; discriminate.
  - exists resp. split; [exact Ho | exact Hc].
Defined.

End RateLimitCallExtras.

(** ** /simulate/rate-limit: calls served one after another *)

Section RateLimitServeExtras.
Import RateLimit.

Lemma simulate_rate_limit_other rq σ ip :
  wf σ → ip ≠ client_ip rq →
  counter_of (simulate_rate_limit rq σ).1 ip = counter_of σ ip.
Proof.
  intros Hwf Hne. destruct (reset_counts rq) eqn:Hr.
  - rewrite (reset_call rq σ Hr). cbn [fst]. rewrite counter_of_popped.
    by rewrite decide_False.
  - destruct (simulate_rate_limit_effect rq σ Hwf Hr) as [Hco _].
    rewrite Hco. by rewrite decide_False.
Qed.

Lemma serve_wf rqs σ : wf σ → wf (serve rqs σ).1.
Proof.
  revert σ. induction rqs as [| rq rqs IH]; intros σ Hwf; [exact Hwf |].
  rewrite serve_cons. cbn [fst]. by apply IH, simulate_rate_limit_wf.
Qed.

(** X14. Clients are isolated from one another: calls of other clients,
    resets included, however many and in whatever order, leave a client's
    counter exactly as it was. *)
Theorem other_clients_untouched rqs σ ip :
  wf σ → Forall (λ rq, client_ip rq ≠ ip) rqs →
  counter_of (serve rqs σ).1 ip = counter_of σ ip.
Proof.
  revert σ. induction rqs as [| rq rqs IH]; intros σ Hwf Hall; [reflexivity |].
  apply Forall_cons in Hall as [Hne Hall].
  rewrite serve_cons. cbn [fst].
  rewrite IH by (try apply simulate_rate_limit_wf; assumption).
  apply simulate_rate_limit_other; [exact Hwf | congruence].
Qed.

Lemma other_clients_untouched_witness :
  counter_of
    (serve [mkRequest "10.0.0.2" 1 1 60 false; mkRequest "10.0.0.3" 2 1 60 true;
            mkRequest "10.0.0.2" 3 1 60 false]
       (simulate_rate_limit (mkRequest "10.0.0.1" 0 5 60 false) init).1).1
    "10.0.0.1"
  = counter_of (simulate_rate_limit (mkRequest "10.0.0.1" 0 5 60 false) init).1
      "10.0.0.1".
Proof.
  apply other_clients_untouched.
  - apply simulate_rate_limit_wf, wf_init.
  - repeat (apply Forall_cons; split; [discriminate |]). apply Forall_nil_2.
Defined.

(** In range, the reply of a call is a 200 or a 429. *)
Lemma simulate_rate_limit_status rq σ :
  wf σ → bounded_request rq → bounded_store σ →
  outcome_status (simulate_rate_limit rq σ).2 = 200
  ∨ outcome_status (simulate_rate_limit rq σ).2 = 429.
Proof.
  intros Hwf Hrq Hst. destruct (reset_counts rq) eqn:Hr.
  - rewrite (reset_call rq σ Hr). by left.
  - destruct (simulate_rate_limit_answer rq σ Hwf Hr Hrq Hst) as (_ & Hlim & Hall).
    destruct (Z_le_gt_dec (limit rq) (count (rolled rq (fetched rq σ)))) as [Hle | Hgt].
    + destruct (Hlim Hle) as (resp & _ & -> & Hs). by right.
    + destruct Hall as (resp & _ & -> & Hs); [lia |]. by left.
Qed.

(** X15. Served one after another from a well-formed store, with
    windows, clock readings and window starts far inside the range of
    the doubles, every call gets an answer and the answer is a 200 or a
    429: no call ends in an uncaught exception, whatever the limits,
    clients and order are, and the store is well formed and in range
    afterwards. *)
Theorem serve_always_answers rqs σ :
  wf σ → bounded_store σ → Forall bounded_request rqs →
  length (serve rqs σ).2 = length rqs
  ∧ Forall (λ o, outcome_status o = 200 ∨ outcome_status o = 429) (serve rqs σ).2
  ∧ wf (serve rqs σ).1
  ∧ bounded_store (serve rqs σ).1.
Proof.
  revert σ. induction rqs as [| rq rqs IH]; intros σ Hwf Hst Hall.
  - split; [reflexivity |]. split; [apply Forall_nil_2 |]. by split.
  - apply Forall_cons in Hall as [Hrq Hall].
    destruct (IH (simulate_rate_limit rq σ).1) as (Hlen & Hans & Hwf' & Hst').
    + by apply simulate_rate_limit_wf.
    + apply simulate_rate_limit_bounded_store; [apply Hrq | exact Hst].
    + exact Hall.
    + rewrite serve_cons. cbn [fst snd length].
      split; [by rewrite Hlen |]. split; [| by split].
      apply Forall_cons. split; [| exact Hans].
      by apply simulate_rate_limit_status.
Qed.

Lemma serve_always_answers_witness :
  Forall (λ o, outcome_status o = 200 ∨ outcome_status o = 429)
    (serve [mkRequest "10.0.0.1" 0 0 (-5) false; mkRequest "10.0.0.1" (-3) 2 0 false;
            mkRequest "10.0.0.1" 1 2 60 true] init).2.
Proof.
  refine (proj1 (proj2 (serve_always_answers _ init wf_init bounded_store_init _))).
  repeat (apply Forall_cons; split; [split; vm_compute; discriminate |]).
  apply Forall_nil_2.
Defined.

(** The counts of a store are between zero and [L]. *)
Lemma simulate_rate_limit_bounded (L : Z) rq σ :
  wf σ → 0 ≤ L → limit rq = L →
  (∀ ip c, counter_of σ ip = Some c → 0 ≤ count c ≤ L) →
  ∀ ip c, counter_of (simulate_rate_limit rq σ).1 ip = Some c → 0 ≤ count c ≤ L.
Proof.
  intros Hwf HL Hlim Hb ip c. destruct (reset_counts rq) eqn:Hr.
  - rewrite (reset_call rq σ Hr). cbn [fst]. rewrite counter_of_popped.
    case_decide; [discriminate | apply Hb].
  - destruct (simulate_rate_limit_effect rq σ Hwf Hr) as [Hco _].
    rewrite Hco. case_decide; [| apply Hb].
    assert (Hf : 0 ≤ count (fetched rq σ) ≤ L).
    { unfold fetched. destruct (counter_of σ (client_ip rq)) as [c0 |] eqn:Hc0;
        cbn; [eapply Hb, Hc0 | lia]. }
    assert (Hc1 : 0 ≤ count (rolled rq (fetched rq σ)) ≤ L).
    { unfold rolled. destruct (window_expired _ _); cbn; lia. }
    destruct (Z.leb_spec (limit rq) (count (rolled rq (fetched rq σ))));
      intros [= <-]; cbn; lia.
Qed.

(** X16. When every call carries the same limit [L], zero or more, no
    counter ever goes above [L] or below zero, whoever calls, at whatever
    times, resets included: the count is bounded by the quota. *)
Theorem serve_counts_bounded (L : Z) rqs σ :
  wf σ → 0 ≤ L →
  (∀ ip c, counter_of σ ip = Some c → 0 ≤ count c ≤ L) →
  Forall (λ rq, limit rq = L) rqs →
  ∀ ip c, counter_of (serve rqs σ).1 ip = Some c → 0 ≤ count c ≤ L.
Proof.
  intros Hwf HL. revert σ Hwf.
  induction rqs as [| rq rqs IH]; intros σ Hwf Hb Hall; [exact Hb |].
  apply Forall_cons in Hall as [Hlim Hall].
  rewrite serve_cons. cbn [fst]. apply IH.
  - by apply simulate_rate_limit_wf.
  - by apply simulate_rate_limit_bounded.
  - exact Hall.
Qed.

Lemma serve_counts_bounded_witness :
  ∃ c,
    counter_of
      (serve [mkRequest "10.0.0.1" 0 2 60 false; mkRequest "10.0.0.1" 1 2 60 false;
              mkRequest "10.0.0.1" 2 2 60 false; mkRequest "10.0.0.1" 3 2 60 false]
         init).1 "10.0.0.1" = Some c
    ∧ 0 ≤ count c ≤ 2.
Proof.
  exists (mkCounter 2 0).
  assert (Hc : counter_of
      (serve [mkRequest "10.0.0.1" 0 2 60 false; mkRequest "10.0.0.1" 1 2 60 false;
              mkRequest "10.0.0.1" 2 2 60 false; mkRequest "10.0.0.1" 3 2 60 false]
         init).1 "10.0.0.1" = Some (mkCounter 2 0)).
  { vm_compute. reflexivity. }
  split; [exact Hc |].
  refine (serve_counts_bounded 2 _ init wf_init _ _ _ _ _ Hc).
  - lia.
  - intros ip c. unfold counter_of. cbn. rewrite lookup_empty. discriminate.
  - repeat (apply Forall_cons; split; [reflexivity |]). apply Forall_nil_2.
Defined.

End RateLimitServeExtras.

(** ** /simulate/rate-limit: quota and retry time of one reply *)

Section RateLimitReplyExtras.
Import RateLimit.

(** When the conversion of [window] and the addition are exact, the
    reset time is the window's end, truncated. *)
Lemma reset_time_exact rq c :
  PyFloat.exact (inject_Z (window rq)) →
  PyFloat.exact (window_start c + inject_Z (window rq)) →
  reset_time rq c = Ok (Qtrunc (window_start c + inject_Z (window rq))).
Proof.
  intros Hw Hsum. unfold reset_time. rewrite (of_int_exact _ Hw).
  cbn [mbind result_bind PyFloat.add].
  rewrite (round_proper _ (window_start c + inject_Z (window rq))).
  - rewrite Hsum. cbn [PyFloat.to_int]. f_equal.
    apply Qtrunc_proper, Qred_correct.
  - rewrite Qred_correct. reflexivity.
Qed.

(** X17. In a window that has not expired, with the window, the clock
    reading and the store in range, a call leaves the window start where
    it was.  When the count has reached the limit the call is rejected
    and the whole store is left exactly as it was; otherwise the count
    goes up by one.  Either reply carries the same x-ratelimit-reset
    header, int(window_start + window) computed in floats from the
    unchanged window start: the end of the window, truncated, when the
    conversion of window and the addition are exact. *)
Theorem simulate_rate_limit_live_window rq σ c :
  wf σ → reset_counts rq = false → bounded_request rq → bounded_store σ →
  counter_of σ (client_ip rq) = Some c → ¬ expired rq c →
  ∃ reset,
    reset_time rq c = Ok reset
    ∧ (PyFloat.exact (inject_Z (window rq)) →
       PyFloat.exact (window_start c + inject_Z (window rq)) →
       reset = Qtrunc (window_start c + inject_Z (window rq)))
    ∧ (limit rq ≤ count c →
       (simulate_rate_limit rq σ).1 = σ
       ∧ ∃ resp, (simulate_rate_limit rq σ).2 = Limited resp
           ∧ status_code resp = 429
           ∧ lb_debug_current_count (content resp) = count c
           ∧ headers resp !! "x-ratelimit-reset" = Some (PyStr.str reset))
    ∧ (count c < limit rq →
       counter_of (simulate_rate_limit rq σ).1 (client_ip rq)
       = Some (mkCounter (count c + 1) (window_start c))
       ∧ ∃ resp, (simulate_rate_limit rq σ).2 = Allowed resp
           ∧ status_code resp = 200
           ∧ ab_current_count (content resp) = count c + 1
           ∧ headers resp !! "x-ratelimit-reset" = Some (PyStr.str reset)).
Proof.
  intros Hwf Hr Hrq Hst Hc Hlive.
  assert (Hf : fetched rq σ = c) by (unfold fetched; by rewrite Hc).
  assert (Hc1 : rolled rq (fetched rq σ) = c) by (rewrite Hf; by apply rolled_live).
  pose proof (bounded_store_counter σ _ c Hst Hc) as Hmod.
  destruct (reset_time_bounded rq c Hrq Hmod) as (reset & Hrt).
  exists reset. split; [exact Hrt |]. split.
  { intros Hw Hsum. rewrite (reset_time_exact rq c Hw Hsum) in Hrt. by injection Hrt. }
  split; intros Hl.
  - destruct (simulate_rate_limit_nonreset rq σ Hwf Hr)
      as (σ1 & l & Hl1 & _ & Hcase & _ & Hh & Heq).
    rewrite Heq, Hc1. rewrite Hf in Hh.
    rewrite (proj2 (Z.leb_le (limit rq) (count c))) by exact Hl. cbn [fst snd].
    destruct Hcase as [[_ ->] | [Hnone _]]; [| congruence].
    split; [rewrite (list_insert_id _ _ _ Hh); apply set_heap_id |].
    destruct (retry_after_bounded rq c Hrq Hmod) as (t & _ & Hra).
    destruct (limited_response_ok rq c _ _ Hra Hrt)
      as (resp & _ & Hout & Hs & _ & _ & Hcc & _ & _ & Hreset).
    exists resp. split; [exact Hout |]. split; [exact Hs |].
    split; [exact Hcc | exact Hreset].
  - destruct (simulate_rate_limit_effect rq σ Hwf Hr) as [Hco Ho].
    cbv zeta in Hco, Ho. rewrite Hc1 in Hco, Ho.
    rewrite (proj2 (Z.leb_gt (limit rq) (count c))) in Hco, Ho by exact Hl.
    rewrite Hco, Ho, decide_True by reflexivity.
    split; [reflexivity |].
    destruct (allowed_response_ok rq (incremented c) reset Hrt)
      as (resp & _ & Hout & Hs & Hcc & _ & _ & Hreset).
    exists resp. split; [exact Hout |]. split; [exact Hs |].
    split; [exact Hcc | exact Hreset].
Qed.

Lemma simulate_rate_limit_live_window_witness :
  (simulate_rate_limit (mkRequest "127.0.0.1" 7 1 60 false)
     (simulate_rate_limit (mkRequest "127.0.0.1" 0 1 60 false) init).1).1
  = (simulate_rate_limit (mkRequest "127.0.0.1" 0 1 60 false) init).1.
Proof.
  destruct (simulate_rate_limit_live_window
              (mkRequest "127.0.0.1" 7 1 60 false)
              (simulate_rate_limit (mkRequest "127.0.0.1" 0 1 60 false) init).1
              (mkCounter 1 0)) as (reset & _ & _ & Hlim & _).
  - apply simulate_rate_limit_wf, wf_init.
  - reflexivity.
  - split; vm_compute; discriminate.
  - apply simulate_rate_limit_bounded_store; [| apply bounded_store_init].
    vm_compute. discriminate.
  - vm_compute. reflexivity.
  - vm_compute. discriminate.
  - apply Hlim. cbn. lia.
Defined.

(** How the float [time_remaining] is made. *)
Lemma time_remaining_form rq c t :
  time_remaining rq c = Ok (PyFloat.Finite t) →
  ∃ w d,
    PyFloat.of_int (window rq) = Ok w
    ∧ d = PyFloat.nearest (current_time rq - window_start c)
    ∧ t = PyFloat.nearest (w - d).
Proof.
  unfold time_remaining. intros Ht.
  destruct (PyFloat.of_int (window rq)) as [w | e] eqn:Hw;
    cbn [mbind result_bind] in Ht; [| discriminate Ht].
  injection Ht as Ht.
  destruct (elapsed rq c) as [d | neg |] eqn:Hd;
    cbn [PyFloat.sub] in Ht; try discriminate Ht.
  apply round_finite in Ht.
  unfold elapsed in Hd. cbn [PyFloat.sub] in Hd. apply round_finite in Hd.
  exists w, d. auto.
Qed.

Lemma allowed_response_inv rq c resp :
  allowed_response rq c = Ok resp →
  status_code resp = 200
  ∧ ab_current_count (content resp) = count c
  ∧ ab_remaining (content resp) = limit rq - count c.
Proof.
  unfold allowed_response.
  destruct (reset_time rq c) as [reset | e]; cbn [mbind result_bind]; [| discriminate].
  intros [= <-]. auto.
Qed.

Lemma limited_outcome_inv rq c resp :
  limited_outcome rq c = Limited resp → limited_response rq c = Ok resp.
Proof.
  unfold limited_outcome. destruct (limited_response rq c); [| discriminate].
  by intros [= ->].
Qed.

Lemma allowed_outcome_inv rq c resp :
  allowed_outcome rq c = Allowed resp → allowed_response rq c = Ok resp.
Proof.
  unfold allowed_outcome. destruct (allowed_response rq c); [| discriminate].
  by intros [= ->].
Qed.

Lemma limited_not_allowed rq c resp : limited_outcome rq c ≠ Allowed resp.
Proof. unfold limited_outcome. by destruct (limited_response rq c). Qed.

Lemma allowed_not_limited rq c resp : allowed_outcome rq c ≠ Limited resp.
Proof. unfold allowed_outcome. by destruct (allowed_response rq c). Qed.

(** X18. What a reply says about the quota.  On a store whose counts
    are not negative, a call that passes reports a current_count between
    1 and the limit and a remaining quota between 0 and limit - 1, the
    two adding up to the limit; a call that is rejected reports a count
    that has reached the limit, and, for a window that is not negative,
    a retry_after of at least one second, and of at most window + 1
    seconds when the window is below 2^53 and the clock reading is not
    before the window start. *)
Theorem simulate_rate_limit_quota rq σ :
  wf σ → counts_nonneg σ → reset_counts rq = false →
  (∀ resp, (simulate_rate_limit rq σ).2 = Allowed resp →
     1 ≤ ab_current_count (content resp) ≤ limit rq
     ∧ 0 ≤ ab_remaining (content resp) ≤ limit rq - 1
     ∧ ab_current_count (content resp) + ab_remaining (content resp) = limit rq)
  ∧ (∀ resp, (simulate_rate_limit rq σ).2 = Limited resp →
     limit rq ≤ lb_debug_current_count (content resp)
     ∧ lb_remaining (content resp) = 0
     ∧ (0 ≤ window rq → 1 ≤ lb_retry_after (content resp))
     ∧ (0 ≤ window rq < 2 ^ 53 →
        (∀ c, counter_of σ (client_ip rq) = Some c →
              (window_start c <= current_time rq)%Q) →
        lb_retry_after (content resp) ≤ window rq + 1)).
Proof.
  intros Hwf Hnn Hr.
  destruct (simulate_rate_limit_effect rq σ Hwf Hr) as [_ Ho].
  cbv zeta in Ho. rewrite Ho.
  assert (Hf : 0 ≤ count (fetched rq σ)).
  { unfold fetched. destruct (counter_of σ (client_ip rq)) as [c0 |] eqn:Hc0;
      cbn; [eapply Hnn, Hc0 | lia]. }
  pose proof (rolled_count_nonneg rq _ Hf) as Hc1.
  set (c1 := rolled rq (fetched rq σ)) in *.
  destruct (Z.leb_spec (limit rq) (count c1)) as [Hle | Hlt].
  - split; [intros resp Habs; by apply limited_not_allowed in Habs |].
    intros resp Hresp. apply limited_outcome_inv in Hresp.
    destruct (limited_response_inv rq c1 resp Hresp)
      as (t & reset & Ht & _ & _ & _ & Hra & Hrem & Hcc).
    rewrite Hcc, Hrem, Hra.
    split; [exact Hle |]. split; [reflexivity |].
    assert (Hpos : 0 ≤ window rq → (0 <= t)%Q).
    { intros Hw. eapply time_remaining_nonneg; [| exact Ht].
      by apply rolled_not_expired. }
    split.
    + intros Hw. pose proof (Qtrunc_nonneg _ (Hpos Hw)). lia.
    + intros [Hw Hsmall] Hclock.
      destruct (Qtrunc_bounds _ (Hpos Hw)) as [Hlo _].
      destruct (time_remaining_form rq c1 t Ht) as (w & d & Hwi & Hd & Htn).
      assert (Habs : Z.abs (window rq) < 2 ^ 53) by lia.
      pose proof (nearest_int _ Habs) as Hexact.
      assert (Hweq : (w == inject_Z (window rq))%Q).
      { rewrite (of_int_nearest _ _ Hwi). exact Hexact. }
      assert (Hd0 : (0 <= d)%Q).
      { subst d. apply nearest_nonneg. unfold c1, rolled, fetched.
        destruct (counter_of σ (client_ip rq)) as [c0 |] eqn:Hc0;
          cbn [default from_option id].
        - specialize (Hclock c0 eq_refl).
          destruct (window_expired rq c0); cbn [window_start]; lra.
        - destruct (window_expired rq _); cbn [window_start]; lra. }
      assert (Hup : (t <= inject_Z (window rq))%Q).
      { subst t. rewrite <- Hexact. apply nearest_le_double.
        rewrite Hexact. lra. }
      assert (Hz : (inject_Z (Qtrunc t) <= inject_Z (window rq))%Q) by lra.
      rewrite <- Zle_Qle in Hz. lia.
  - split; [| intros resp Habs; by apply allowed_not_limited in Habs].
    intros resp Hresp. apply allowed_outcome_inv in Hresp.
    destruct (allowed_response_inv _ _ _ Hresp) as (_ & Hcc & Hrem).
    rewrite Hcc, Hrem. cbn [incremented count]. lia.
Qed.

Lemma simulate_rate_limit_quota_witness :
  ∃ resp,
    (simulate_rate_limit (mkRequest "127.0.0.1" 0 3 60 false) init).2 = Allowed resp
    ∧ 0 ≤ ab_remaining (content resp) ≤ 2.
Proof.
  destruct (simulate_rate_limit_quota (mkRequest "127.0.0.1" 0 3 60 false) init)
    as [Hall _].
  - apply wf_init.
  - intros ip c. unfold counter_of. cbn. rewrite lookup_empty. discriminate.
  - reflexivity.
  - destruct (allowed_outcome_bounded (mkRequest "127.0.0.1" 0 3 60 false)
                (mkCounter 1 0)) as (resp & _ & Hout & _).
    + split; vm_compute; discriminate.
    + vm_compute. discriminate.
    + exists resp.
      assert (Ho : (simulate_rate_limit (mkRequest "127.0.0.1" 0 3 60 false) init).2
                   = Allowed resp).
      { rewrite <- Hout. vm_compute. reflexivity. }
      split; [exact Ho |]. exact (proj1 (proj2 (Hall _ Ho))).
Defined.

(** X19. The retry_after of a rejection is enough, where the float
    operations that measure the time are exact: a client that was
    rejected and calls again retry_after seconds later, or later still,
    with the same window and a positive limit, finds its window expired
    and passes, with current_count 1. *)
Theorem retry_after_is_enough rq rq2 σ resp :
  wf σ → reset_counts rq = false → 0 ≤ window rq →
  (simulate_rate_limit rq σ).2 = Limited resp →
  exact_remaining rq (rolled rq (fetched rq σ)) →
  client_ip rq2 = client_ip rq → reset_counts rq2 = false →
  window rq2 = window rq → 0 < limit rq2 → bounded_request rq2 →
  PyFloat.exact (current_time rq2 - window_start (rolled rq (fetched rq σ))) →
  (current_time rq + inject_Z (lb_retry_after (content resp)) <= current_time rq2)%Q →
  ∃ resp2,
    (simulate_rate_limit rq2 (simulate_rate_limit rq σ).1).2 = Allowed resp2
    ∧ status_code resp2 = 200
    ∧ ab_current_count (content resp2) = 1
    ∧ ab_remaining (content resp2) = limit rq2 - 1.
Proof.
  intros Hwf Hr Hw Hlim Hex Hip Hr2 Hw2 Hl2 Hrq2 Hex2 Hwait.
  destruct (simulate_rate_limit_effect rq σ Hwf Hr) as [Hco Ho].
  cbv zeta in Hco, Ho. rewrite Ho in Hlim.
  set (c1 := rolled rq (fetched rq σ)) in *.
  destruct (limit rq <=? count c1);
    [| by apply allowed_not_limited in Hlim].
  apply limited_outcome_inv in Hlim.
  destruct (limited_response_inv rq c1 resp Hlim)
    as (t & reset & Ht & _ & _ & _ & Hra & _).
  destruct (time_remaining_exact rq c1 Hex) as (t' & Ht' & Hteq).
  rewrite Ht in Ht'. injection Ht' as <-.
  assert (Hpos : (0 <= t)%Q).
  { eapply time_remaining_nonneg; [| exact Ht]. by apply rolled_not_expired. }
  destruct (Qtrunc_bounds _ Hpos) as [_ Hhi].
  rewrite Hra in Hwait.
  pose proof (simulate_rate_limit_wf rq σ Hwf) as Hwf'.
  set (σ' := (simulate_rate_limit rq σ).1) in *.
  assert (Hc : counter_of σ' (client_ip rq2) = Some c1).
  { rewrite Hip. unfold σ'. rewrite Hco. by rewrite decide_True. }
  assert (Hexp : expired rq2 c1).
  { unfold expired, window_expired, elapsed. cbn [PyFloat.sub].
    rewrite Hex2. cbn [PyFloat.gt_int]. rewrite Hw2.
    destruct (Qlt_le_dec _ _) as [_ | Hge]; [reflexivity |].
    exfalso. rewrite Qred_correct in Hge.
    unfold time_left in Hteq. lra. }
  assert (Hc1 : rolled rq2 (fetched rq2 σ') = mkCounter 0 (current_time rq2)).
  { unfold fetched. rewrite Hc. cbn [default from_option id]. by apply rolled_expired. }
  destruct (fresh_call rq2 σ' Hwf' Hr2 Hc1) as [_ Ho2]. rewrite Ho2.
  rewrite (proj2 (Z.leb_gt (limit rq2) 0)) by lia.
  destruct (allowed_outcome_bounded rq2 (mkCounter 1 (current_time rq2)) Hrq2 (proj2 Hrq2))
    as (resp2 & _ & Hout & Hs & Hcc & Hrem & _).
  exists resp2. split; [exact Hout |]. split; [exact Hs |].
  split; [exact Hcc | exact Hrem].
Qed.

Lemma retry_after_is_enough_witness :
  ∃ resp2,
    (simulate_rate_limit (mkRequest "127.0.0.1" 61 1 60 false)
       (simulate_rate_limit (mkRequest "127.0.0.1" 5 1 60 false)
          (simulate_rate_limit (mkRequest "127.0.0.1" 0 1 60 false) init).1).1).2
    = Allowed resp2
    ∧ ab_current_count (content resp2) = 1.
Proof.
  destruct (limited_outcome_bounded (mkRequest "127.0.0.1" 5 1 60 false) (mkCounter 1 0))
    as (resp & Hresp & Hout & _).
  { split; vm_compute; discriminate. }
  { vm_compute. discriminate. }
  assert (Hra : lb_retry_after (content resp) = 56).
  { assert (Hq : limited_response (mkRequest "127.0.0.1" 5 1 60 false) (mkCounter 1 0)
                 = Ok resp → lb_retry_after (content resp) = 56).
    { vm_compute. intros [= <-]. reflexivity. }
    exact (Hq Hresp). }
  destruct (retry_after_is_enough
              (mkRequest "127.0.0.1" 5 1 60 false)
              (mkRequest "127.0.0.1" 61 1 60 false)
              (simulate_rate_limit (mkRequest "127.0.0.1" 0 1 60 false) init).1
              resp)
    as (resp2 & Ho & _ & Hc & _).
  - apply simulate_rate_limit_wf, wf_init.
  - reflexivity.
  - cbn. lia.
  - rewrite <- Hout. vm_compute. reflexivity.
  - repeat split; vm_compute; reflexivity.
  - reflexivity.
  - reflexivity.
  - reflexivity.
  - cbn. lia.
  - split; vm_compute; discriminate.
  - vm_compute. reflexivity.
  - rewrite Hra. vm_compute. discriminate.
  - exists resp2. split; [exact Ho | exact Hc].
Defined.

(** X26. A limit of zero or less, on the inputs where the float
    conversions do not overflow.  With limit <= 0, a window and a clock reading in
    range and a store in range, a non-reset call from a client whose
    window has not expired is answered 429, the very first call included
    (the fresh counter has count 0 >= limit); the client's count is not
    incremented, and the store is unchanged when the client already had
    a counter and only gains the fresh counter when it had none. *)
Theorem nonpositive_limit_rejects rq σ :
  wf σ → counts_nonneg σ →
  bounded_request rq → bounded_store σ →
  reset_counts rq = false → limit rq ≤ 0 →
  (∀ c, counter_of σ (client_ip rq) = Some c → ¬ expired rq c) →
  ∃ resp,
    (simulate_rate_limit rq σ).2 = Limited resp
    ∧ outcome_status (simulate_rate_limit rq σ).2 = 429
    ∧ counter_of (simulate_rate_limit rq σ).1 (client_ip rq) = Some (fetched rq σ)
    ∧ (∀ c, counter_of σ (client_ip rq) = Some c →
            fetched rq σ = c ∧ (simulate_rate_limit rq σ).1 = σ)
    ∧ (counter_of σ (client_ip rq) = None →
            fetched rq σ = mkCounter 0 (current_time rq)
            ∧ (simulate_rate_limit rq σ).1 = created rq σ).
Proof.
  intros Hwf Hnn Hrq Hst Hr Hlim Hlive.
  assert (Hroll : rolled rq (fetched rq σ) = fetched rq σ).
  { unfold fetched. destruct (counter_of σ (client_ip rq)) as [c |] eqn:Hc;
      cbn [default from_option id].
    - apply rolled_live. by apply Hlive.
    - apply rolled_fresh. }
  assert (Hcnt : 0 ≤ count (fetched rq σ)).
  { unfold fetched. destruct (counter_of σ (client_ip rq)) as [c |] eqn:Hc; cbn;
      [eapply Hnn, Hc | lia]. }
  assert (Hmod : PyFloat.moderate (window_start (fetched rq σ))).
  { unfold fetched. destruct (counter_of σ (client_ip rq)) as [c |] eqn:Hc;
      cbn [default from_option id window_start].
    - by eapply bounded_store_counter.
    - apply Hrq. }
  destruct (limited_outcome_bounded rq (fetched rq σ) Hrq Hmod)
    as (resp & _ & Hout & Hs).
  destruct (simulate_rate_limit_nonreset rq σ Hwf Hr)
    as (σ1 & l & Hl & Hwf1 & Hcase & _ & Hheap & Heq).
  rewrite Hroll in Heq.
  assert (Hle : (limit rq <=? count (fetched rq σ)) = true) by (apply Z.leb_le; lia).
  rewrite Hle in Heq.
  rewrite (list_insert_id _ _ _ Hheap), set_heap_id in Heq.
  rewrite Heq. cbn [fst snd]. rewrite Hout. cbn [outcome_status].
  exists resp. split; [reflexivity |]. split; [exact Hs |].
  split; [| split].
  - unfold counter_of. rewrite Hl. exact Hheap.
  - intros c Hc. destruct Hcase as [[_ ->] | [Hnone _]]; [| congruence].
    split; [| reflexivity]. unfold fetched. by rewrite Hc.
  - intros Hnone. destruct Hcase as [[[c Hc] _] | [_ ->]]; [congruence |].
    split; [| reflexivity]. unfold fetched. by rewrite Hnone.
Qed.

Lemma nonpositive_limit_rejects_witness :
  (∃ resp,
    (simulate_rate_limit (mkRequest "127.0.0.1" 5 0 60 false) init).2 = Limited resp
    ∧ outcome_status (simulate_rate_limit (mkRequest "127.0.0.1" 5 0 60 false) init).2
      = 429
    ∧ counter_of (simulate_rate_limit (mkRequest "127.0.0.1" 5 0 60 false) init).1
        "127.0.0.1"
      = Some (mkCounter 0 5))
  ∧ (simulate_rate_limit (mkRequest "127.0.0.1" 6 (-1) 60 false)
       (simulate_rate_limit (mkRequest "127.0.0.1" 5 0 60 false) init).1).1
    = (simulate_rate_limit (mkRequest "127.0.0.1" 5 0 60 false) init).1.
Proof.
  split.
  - destruct (nonpositive_limit_rejects (mkRequest "127.0.0.1" 5 0 60 false) init)
      as (resp & Heq & Hst & Hco & _).
    + apply wf_init.
    + intros ip c H. vm_compute in H. discriminate H.
    + split; vm_compute; discriminate.
    + apply bounded_store_init.
    + reflexivity.
    + cbn. lia.
    + intros c H. vm_compute in H. discriminate H.
    + exists resp. split; [exact Heq |]. split; [exact Hst |]. exact Hco.
  - destruct (nonpositive_limit_rejects (mkRequest "127.0.0.1" 6 (-1) 60 false)
                (simulate_rate_limit (mkRequest "127.0.0.1" 5 0 60 false) init).1)
      as (resp & _ & _ & _ & Hsame & _).
    + apply simulate_rate_limit_wf, wf_init.
    + apply simulate_rate_limit_nonneg; [apply wf_init |].
      intros ip c H. vm_compute in H. discriminate H.
    + split; vm_compute; discriminate.
    + apply simulate_rate_limit_bounded_store; [| apply bounded_store_init].
      vm_compute. discriminate.
    + reflexivity.
    + cbn. lia.
    + intros c H. vm_compute in H. injection H as <-.
      intros He. vm_compute in He. discriminate He.
    + apply (Hsame (mkCounter 0 5)). vm_compute. reflexivity.
Defined.

(** X27. A window of 2^1024 or more in magnitude is too large for a
    float, and no call that is not a reset is answered: both replies
    convert window to a float, the conversion raises OverflowError and
    the client gets a 500.  On the passing path the exception comes
    after the increment: the count has gone up although the call
    failed. *)
Theorem window_overflow_crashes rq σ :
  wf σ → reset_counts rq = false → 2 ^ 1024 ≤ Z.abs (window rq) →
  (simulate_rate_limit rq σ).2 = Crashed OverflowError
  ∧ outcome_status (simulate_rate_limit rq σ).2 = 500
  ∧ (limit rq ≤ count (rolled rq (fetched rq σ)) →
     counter_of (simulate_rate_limit rq σ).1 (client_ip rq)
     = Some (rolled rq (fetched rq σ)))
  ∧ (count (rolled rq (fetched rq σ)) < limit rq →
     counter_of (simulate_rate_limit rq σ).1 (client_ip rq)
     = Some (mkCounter (count (rolled rq (fetched rq σ)) + 1)
                       (window_start (rolled rq (fetched rq σ))))).
Proof.
  intros Hwf Hr Hbig.
  pose proof (of_int_overflow _ Hbig) as Hov.
  destruct (simulate_rate_limit_effect rq σ Hwf Hr) as [Hco Hout].
  specialize (Hco (client_ip rq)). rewrite decide_True in Hco by reflexivity.
  cbv zeta in Hco, Hout.
  set (c1 := rolled rq (fetched rq σ)) in *.
  assert (Hlim : limited_outcome rq c1 = Crashed OverflowError).
  { unfold limited_outcome, limited_response, retry_after, time_remaining.
    rewrite Hov. reflexivity. }
  assert (Hall : allowed_outcome rq (incremented c1) = Crashed OverflowError).
  { unfold allowed_outcome, allowed_response, reset_time.
    rewrite Hov. reflexivity. }
  assert (Ho : (simulate_rate_limit rq σ).2 = Crashed OverflowError).
  { rewrite Hout. by destruct (limit rq <=? count c1). }
  split; [exact Ho |]. split; [by rewrite Ho |]. split.
  - intros Hle. apply Z.leb_le in Hle. by rewrite Hle in Hco.
  - intros Hlt. apply Z.leb_gt in Hlt. by rewrite Hlt in Hco.
Qed.

Lemma window_overflow_crashes_witness :
  (simulate_rate_limit (mkRequest "127.0.0.1" 0 1 (10 ^ 400) false) init).2
  = Crashed OverflowError
  ∧ counter_of
      (simulate_rate_limit (mkRequest "127.0.0.1" 0 1 (10 ^ 400) false) init).1
      "127.0.0.1"
    = Some (mkCounter 1 0).
Proof.
  destruct (window_overflow_crashes
              (mkRequest "127.0.0.1" 0 1 (10 ^ 400) false) init)
    as (Ho & _ & _ & Hinc).
  - apply wf_init.
  - reflexivity.
  - vm_compute. discriminate.
  - split; [exact Ho |].
    refine (eq_trans (Hinc _) _); vm_compute; reflexivity.
Defined.

End RateLimitReplyExtras.

(** ** /simulate/rate-limit: calls of any clients, interleaved *)

Section RateLimitSchedExtras.
Import RateLimit.

(** X20. A reset racing with a call of the same client makes that call
    fail.  From any store: the call takes its first step, which leaves
    the client with an entry; the reset call then pops the entry; the
    call's next step, the subscript [request_counts[client_ip]], finds no
    entry.  The call ends in KeyError, which the client sees as a 500,
    while the reset call answers normally. *)
Theorem reset_races_with_call rq rq' σ :
  client_ip rq' = client_ip rq →
  reset_counts rq = false → reset_counts rq' = true →
  ∃ body,
    (sched [0; 1; 0]%nat σ (start [rq; rq'])).2
    = [(rq, Done KeyError); (rq', Done (ResetDone body))]
    ∧ outcome_status KeyError = 500.
Proof.
  intros Hip Hr Hr'. eexists. split; [| reflexivity].
  unfold start. cbn [fmap list_fmap sched lookup list_lookup].
  assert (He : ∃ σ1, step rq σ AtEntry = (σ1, AtFetch)).
  { cbn [step]. rewrite Hr. destruct (request_counts σ !! client_ip rq); eauto. }
  destruct He as [σ1 ->].
  cbn [insert list_insert lookup list_lookup step]. rewrite Hr'.
  cbn [insert list_insert lookup list_lookup step request_counts].
  rewrite Hip, lookup_delete_eq. reflexivity.
Qed.

Lemma reset_races_with_call_witness :
  ∃ body,
    (sched [0; 1; 0]%nat
       (simulate_rate_limit (mkRequest "127.0.0.1" 0 3 60 false) init).1
       (start [mkRequest "127.0.0.1" 1 3 60 false;
               mkRequest "127.0.0.1" 1 3 60 true])).2
    = [(mkRequest "127.0.0.1" 1 3 60 false, Done KeyError);
       (mkRequest "127.0.0.1" 1 3 60 true, Done (ResetDone body))].
Proof.
  destruct (reset_races_with_call (mkRequest "127.0.0.1" 1 3 60 false)
              (mkRequest "127.0.0.1" 1 3 60 true)
              (simulate_rate_limit (mkRequest "127.0.0.1" 0 3 60 false) init).1
              eq_refl eq_refl eq_refl) as (body & Heq & _).
  exists body. exact Heq.
Defined.

Lemma pc_safe_mono σ σ' p :
  (length (heap σ) ≤ length (heap σ'))%nat → pc_safe σ p → pc_safe σ' p.
Proof. destruct p as [| | l | l | l | l | o]; cbn; try tauto; lia. Qed.

Lemma limited_outcome_safe σ rq c : pc_safe σ (Done (limited_outcome rq c)).
Proof.
  unfold limited_outcome. destruct (limited_response rq c) as [resp | e] eqn:H;
    cbn; [| exact I].
  right. by destruct (limited_response_inv _ _ _ H) as (t & reset & _ & _ & _ & Hs & _).
Qed.

Lemma allowed_outcome_safe σ rq c : pc_safe σ (Done (allowed_outcome rq c)).
Proof.
  unfold allowed_outcome. destruct (allowed_response rq c) as [resp | e] eqn:H;
    cbn; [| exact I].
  left. by destruct (allowed_response_inv _ _ _ H) as (Hs & _).
Qed.

(** One step of any call keeps the store well formed, never shrinks the
    heap and leaves the call safe. *)
Lemma step_safe rq σ p :
  wf σ → pc_safe σ p →
  wf (step rq σ p).1
  ∧ (length (heap σ) ≤ length (heap (step rq σ p).1))%nat
  ∧ pc_safe (step rq σ p).1 (step rq σ p).2.
Proof.
  intros Hwf Hs. destruct p as [| | l | l | l | l | o]; cbn [step].
  - destruct (reset_counts rq).
    + cbn. split; [by apply wf_popped |]. split; [lia | by left].
    + destruct (request_counts σ !! client_ip rq) as [l |] eqn:Hl; cbn [fst snd].
      * split; [exact Hwf |]. split; [lia | exact I].
      * split; [by apply (wf_created rq) |]. cbn. rewrite length_app. cbn.
        split; [lia | exact I].
  - destruct (request_counts σ !! client_ip rq) as [l |] eqn:Hl; cbn [fst snd].
    + split; [exact Hwf |]. split; [lia |]. cbn. destruct Hwf as [Hb _].
      eapply Hb, Hl.
    + split; [exact Hwf |]. split; [lia | exact I].
  - cbn in Hs. destruct (lookup_lt_is_Some_2 _ _ Hs) as [c ->].
    destruct (window_expired rq c); cbn [fst snd].
    + split; [by apply wf_insert |]. cbn. rewrite length_insert.
      split; [lia | exact Hs].
    + split; [exact Hwf |]. split; [lia | exact Hs].
  - cbn in Hs. destruct (lookup_lt_is_Some_2 _ _ Hs) as [c ->].
    destruct (limit rq <=? count c); cbn [fst snd].
    + split; [exact Hwf |]. split; [lia | apply limited_outcome_safe].
    + split; [exact Hwf |]. split; [lia | exact Hs].
  - cbn in Hs. destruct (lookup_lt_is_Some_2 _ _ Hs) as [c ->]. cbn [fst snd].
    split; [by apply wf_insert |]. cbn. rewrite length_insert.
    split; [lia | exact Hs].
  - cbn in Hs. destruct (lookup_lt_is_Some_2 _ _ Hs) as [c ->]. cbn [fst snd].
    split; [exact Hwf |]. split; [lia | apply allowed_outcome_safe].
  - cbn [fst snd]. split; [exact Hwf |]. split; [lia | exact Hs].
Qed.

Lemma sched_safe schedule σ ts :
  wf σ → Forall (λ t, pc_safe σ t.2) ts →
  wf (sched schedule σ ts).1
  ∧ Forall (λ t, pc_safe (sched schedule σ ts).1 t.2) (sched schedule σ ts).2
  ∧ (sched schedule σ ts).2.*1 = ts.*1.
Proof.
  revert σ ts. induction schedule as [| i rest IH]; intros σ ts Hwf Hall;
    [by cbn |].
  cbn [sched]. destruct (ts !! i) as [[rq p] |] eqn:Hi; [| by apply IH].
  pose proof (Forall_lookup_1 _ _ _ _ Hall Hi) as Hp. cbn in Hp.
  destruct (step_safe rq σ p Hwf Hp) as (Hwf1 & Hlen & Hp1).
  destruct (step rq σ p) as [σ1 p1]. cbn [fst snd] in *.
  destruct (IH σ1 (<[i := (rq, p1)]> ts) Hwf1) as (Hwf' & Hall' & Hrq').
  - apply Forall_insert; [| exact Hp1].
    eapply Forall_impl; [exact Hall |]. intros t. by apply pc_safe_mono.
  - split; [exact Hwf' |]. split; [exact Hall' |]. rewrite Hrq'.
    rewrite list_fmap_insert. cbn [fst]. apply list_insert_id.
    rewrite list_lookup_fmap, Hi. reflexivity.
Qed.

Lemma start_safe rqs σ : Forall (λ t, pc_safe σ t.2) (start rqs).
Proof.
  unfold start. apply Forall_fmap, Forall_forall. intros rq _. exact I.
Qed.

(** X21. Under every interleaving of any calls of any clients, resets
    included, started on a well-formed store: the store stays well
    formed, the pool keeps its calls, and a call that has finished has
    one of the three replies, 200 or 429, or one of the uncaught
    exceptions of the source, the KeyError of the subscript or the
    exception of a float conversion; no call ever follows a reference to
    a counter that does not exist. *)
Theorem sched_never_faults (schedule : list nat) rqs σ :
  wf σ →
  wf (sched schedule σ (start rqs)).1
  ∧ (sched schedule σ (start rqs)).2.*1 = rqs
  ∧ Forall (λ t, ∀ o, t.2 = Done o →
                o ≠ Fault
                ∧ (o = KeyError ∨ (∃ e, o = Crashed e)
                   ∨ outcome_status o = 200 ∨ outcome_status o = 429))
      (sched schedule σ (start rqs)).2.
Proof.
  intros Hwf.
  destruct (sched_safe schedule σ (start rqs) Hwf (start_safe rqs σ))
    as (Hwf' & Hall & Hrq).
  split; [exact Hwf' |]. split.
  - rewrite Hrq. unfold start. rewrite <- list_fmap_compose. apply list_fmap_id.
  - eapply Forall_impl; [exact Hall |]. intros [rq p] Hs o Ho. cbn in Hs, Ho.
    subst p. destruct o; try contradiction; split; try discriminate; eauto;
      cbn in Hs; tauto.
Qed.

Lemma sched_never_faults_witness :
  wf (sched [1; 0; 0; 1; 2; 0; 1; 1; 0; 0; 2]%nat init
        (start [mkRequest "10.0.0.1" 0 1 60 false;
                mkRequest "10.0.0.1" 1 1 60 false;
                mkRequest "10.0.0.1" 2 1 60 true])).1.
Proof.
  exact (proj1 (sched_never_faults _ _ init wf_init)).
Defined.

(** A step of a call that is not a reset removes no entry. *)
Lemma step_keeps_entries rq σ p ip :
  reset_counts rq = false →
  is_Some (request_counts σ !! ip) →
  is_Some (request_counts (step rq σ p).1 !! ip).
Proof.
  intros Hr Hin. destruct p as [| | l | l | l | l | o]; cbn [step].
  - rewrite Hr. destruct (request_counts σ !! client_ip rq) eqn:Hl; cbn; [exact Hin |].
    rewrite lookup_insert_is_Some. destruct (decide (client_ip rq = ip)); auto.
  - destruct (request_counts σ !! client_ip rq); exact Hin.
  - destruct (heap σ !! l); [destruct (window_expired rq _) |]; exact Hin.
  - destruct (heap σ !! l); [destruct (limit rq <=? _) |]; exact Hin.
  - destruct (heap σ !! l); exact Hin.
  - destruct (heap σ !! l); exact Hin.
  - exact Hin.
Qed.

Lemma step_entered rq σ p :
  reset_counts rq = false → pc_safe σ p → pc_entered σ rq p →
  pc_entered (step rq σ p).1 rq (step rq σ p).2.
Proof.
  intros Hr Hs He. destruct p as [| | l | l | l | l | o]; cbn [step].
  - rewrite Hr. destruct (request_counts σ !! client_ip rq) eqn:Hl; cbn.
    + rewrite Hl. by eexists.
    + rewrite lookup_insert_eq. by eexists.
  - cbn in He. destruct He as [l ->]. exact I.
  - cbn in Hs. destruct (lookup_lt_is_Some_2 _ _ Hs) as [c ->].
    destruct (window_expired rq c); exact I.
  - cbn in Hs. destruct (lookup_lt_is_Some_2 _ _ Hs) as [c ->].
    destruct (limit rq <=? _); [| exact I].
    cbn [fst snd]. unfold limited_outcome.
    destruct (limited_response rq c); exact I.
  - cbn in Hs. destruct (lookup_lt_is_Some_2 _ _ Hs) as [c ->]. exact I.
  - cbn in Hs. destruct (lookup_lt_is_Some_2 _ _ Hs) as [c ->].
    cbn [fst snd]. unfold allowed_outcome.
    destruct (allowed_response rq c); exact I.
  - exact He.
Qed.

Lemma pc_entered_mono σ σ' rq p :
  (∀ ip, is_Some (request_counts σ !! ip) → is_Some (request_counts σ' !! ip)) →
  pc_entered σ rq p → pc_entered σ' rq p.
Proof.
  intros Hmono. destruct p as [| | l | l | l | l | o]; cbn; try tauto.
  apply Hmono.
Qed.

(** A step of a call in range on a store in range does not end in an
    exception of a float conversion. *)
Lemma step_in_range rq σ p :
  bounded_request rq → bounded_store σ → pc_in_range p →
  pc_in_range (step rq σ p).2.
Proof.
  intros Hrq Hst Hp. destruct p as [| | l | l | l | l | o]; cbn [step].
  - destruct (reset_counts rq); [exact I |].
    destruct (request_counts σ !! client_ip rq); exact I.
  - destruct (request_counts σ !! client_ip rq); exact I.
  - destruct (heap σ !! l) as [c |]; [destruct (window_expired rq c) |]; exact I.
  - destruct (heap σ !! l) as [c |] eqn:Hc; [| exact I].
    destruct (limit rq <=? count c); [| exact I]. cbn [snd].
    destruct (limited_outcome_bounded rq c Hrq (Forall_lookup_1 _ _ _ _ Hst Hc))
      as (resp & _ & -> & _). exact I.
  - destruct (heap σ !! l); exact I.
  - destruct (heap σ !! l) as [c |] eqn:Hc; [| exact I]. cbn [snd].
    destruct (allowed_outcome_bounded rq c Hrq (Forall_lookup_1 _ _ _ _ Hst Hc))
      as (resp & _ & -> & _). exact I.
  - exact Hp.
Qed.

Lemma sched_entered schedule σ ts :
  wf σ → bounded_store σ →
  Forall (λ t, (reset_counts t.1 = false ∧ bounded_request t.1)
               ∧ pc_safe σ t.2 ∧ pc_entered σ t.1 t.2 ∧ pc_in_range t.2) ts →
  Forall (λ t, pc_safe (sched schedule σ ts).1 t.2
               ∧ pc_entered (sched schedule σ ts).1 t.1 t.2
               ∧ pc_in_range t.2)
         (sched schedule σ ts).2.
Proof.
  revert σ ts. induction schedule as [| i rest IH]; intros σ ts Hwf Hst Hall.
  - cbn. eapply Forall_impl; [exact Hall |]. intros t (_ & Hs & He & Hin). auto.
  - cbn [sched]. destruct (ts !! i) as [[rq p] |] eqn:Hi; [| by apply IH].
    destruct (Forall_lookup_1 _ _ _ _ Hall Hi) as ([Hr Hrq] & Hp & He & Hin).
    cbn in Hr, Hrq, Hp, He, Hin.
    destruct (step_safe rq σ p Hwf Hp) as (Hwf1 & Hlen & Hp1).
    pose proof (step_entered rq σ p Hr Hp He) as He1.
    pose proof (step_keeps_entries rq σ p) as Hkeep.
    pose proof (step_in_range rq σ p Hrq Hst Hin) as Hin1.
    pose proof (step_bounded_store rq σ p (proj2 Hrq) Hst) as Hst1.
    destruct (step rq σ p) as [σ1 p1]. cbn [fst snd] in *.
    apply IH; [exact Hwf1 | exact Hst1 |].
    apply Forall_insert; [| by cbn].
    eapply Forall_impl; [exact Hall |]. intros t (Hrt & Hsf & Het & Hint).
    split; [exact Hrt |]. split; [by eapply pc_safe_mono |].
    split; [| exact Hint].
    eapply pc_entered_mono; [| exact Het]. intros ip. by apply Hkeep.
Qed.

(** X22. Without a reset call in the pool, and with windows, clock
    readings and window starts far inside the range of the doubles, no
    interleaving makes a call fail: started on a well-formed store,
    under every schedule, every call that has finished was answered with
    a 200 or a 429.  (Which of the two can depend on the schedule; that
    a reply comes does not.) *)
Theorem sched_without_reset_answers (schedule : list nat) rqs σ :
  wf σ → bounded_store σ →
  Forall (λ rq, reset_counts rq = false ∧ bounded_request rq) rqs →
  Forall (λ t, ∀ o, t.2 = Done o →
             o ≠ KeyError ∧ o ≠ Fault
             ∧ (outcome_status o = 200 ∨ outcome_status o = 429))
    (sched schedule σ (start rqs)).2.
Proof.
  intros Hwf Hst Hnr.
  assert (Hstart : Forall (λ t, (reset_counts t.1 = false ∧ bounded_request t.1)
                                ∧ pc_safe σ t.2 ∧ pc_entered σ t.1 t.2
                                ∧ pc_in_range t.2) (start rqs)).
  { unfold start. apply Forall_fmap. eapply Forall_impl; [exact Hnr |].
    intros rq Hr. cbn. auto. }
  eapply Forall_impl; [exact (sched_entered schedule σ (start rqs) Hwf Hst Hstart) |].
  intros [rq p] (Hs & He & Hin) o Ho. cbn in Hs, He, Hin, Ho. subst p.
  destruct o; try contradiction; repeat split; try discriminate; cbn in Hs; tauto.
Qed.

Lemma sched_without_reset_answers_witness :
  Forall (λ t, ∀ o, t.2 = Done o →
             o ≠ KeyError ∧ o ≠ Fault
             ∧ (outcome_status o = 200 ∨ outcome_status o = 429))
    (sched [0; 1; 1; 0; 0; 1; 0; 1; 1; 0; 0; 1]%nat init
       (start [mkRequest "10.0.0.1" 0 1 60 false;
               mkRequest "10.0.0.2" 1 1 60 false])).2.
Proof.
  apply sched_without_reset_answers.
  - apply wf_init.
  - apply bounded_store_init.
  - repeat (apply Forall_cons; split;
              [split; [reflexivity | split; vm_compute; discriminate] |]).
    apply Forall_nil_2.
Defined.

(** X23. No call waits for another: whatever the other calls do and
    however the steps are interleaved, a call that has been given six
    steps of its own has finished, and it stays finished. *)
Theorem sched_call_finishes (schedule : list nat) rqs σ (i : nat) rq :
  rqs !! i = Some rq →
  (6 ≤ count_occ Nat.eq_dec schedule i)%nat →
  ∃ o, (sched schedule σ (start rqs)).2 !! i = Some (rq, Done o).
Proof.
  intros Hi Hn.
  assert (Hs : start rqs !! i = Some (rq, AtEntry)).
  { unfold start. rewrite list_lookup_fmap, Hi. reflexivity. }
  destruct (sched_steps_left schedule σ _ i rq AtEntry Hs) as (p' & Hp' & Hle).
  destruct p' as [| | l | l | l | l | o]; cbn in Hle; try lia.
  by exists o.
Qed.

Lemma sched_call_finishes_witness :
  ∃ o, (sched [0; 1; 0; 1; 0; 0; 1; 0; 0]%nat init
          (start [mkRequest "10.0.0.1" 0 1 60 false;
                  mkRequest "10.0.0.1" 1 1 60 false])).2 !! 0%nat
       = Some (mkRequest "10.0.0.1" 0 1 60 false, Done o).
Proof.
  apply sched_call_finishes.
  - reflexivity.
  - cbn. lia.
Defined.

End RateLimitSchedExtras.

(** ** /simulate/random: an exclusion list in its documented form *)

Section RandomListExtras.
Import Errors Simulate.

Lemma split_no_comma (s : string) :
  no_comma s = true →
  PyStr.split "," s = [s]
  ∧ ∀ rest, PyStr.split "," (s +:+ "," +:+ rest) = s :: PyStr.split "," rest.
Proof.
  induction s as [| c s IH]; intros Hs.
  - split; [reflexivity |]. intros rest. reflexivity.
  - cbn [no_comma] in Hs. apply andb_true_iff in Hs as [Hc Hs].
    apply negb_true_iff in Hc. destruct (IH Hs) as [IH1 IH2]. split.
    + cbn [PyStr.split]. rewrite Hc, IH1. reflexivity.
    + intros rest.
      change (String c s +:+ "," +:+ rest) with (String c (s +:+ "," +:+ rest)).
      cbn [PyStr.split]. rewrite Hc, IH2. reflexivity.
Qed.

(** The decimal rendering of a number of at most three digits has no
    comma, is not empty, and [int] reads the number back from it. *)
Lemma code_literal (c : Z) :
  0 ≤ c ≤ 999 →
  PyStr.int (PyStr.strip (PyStr.str c)) = Some c
  ∧ no_comma (PyStr.str c) = true
  ∧ PyStr.str c ≠ EmptyString.
Proof.
  intros Hc.
  assert (Hall : forallb code_literal_ok (seqZ 0 1000) = true)
    by (vm_compute; reflexivity).
  assert (Hin : c ∈ seqZ 0 1000) by (apply elem_of_seqZ; lia).
  rewrite forallb_forall in Hall. apply list_elem_of_In in Hin.
  specialize (Hall c Hin). unfold code_literal_ok in Hall.
  apply andb_true_iff in Hall as [Hall Hne].
  apply andb_true_iff in Hall as [Hint Hnc].
  split; [by apply bool_decide_eq_true in Hint |]. split; [exact Hnc |].
  apply negb_true_iff, String.eqb_neq in Hne. exact Hne.
Qed.

Lemma parse_excluded_comma_separated (codes : list Z) :
  codes ≠ [] → Forall (λ c, 0 ≤ c ≤ 999) codes →
  comma_separated codes ≠ EmptyString
  ∧ parse_excluded (comma_separated codes) = Some codes.
Proof.
  induction codes as [| c rest IH]; intros Hne Hall; [contradiction |].
  apply Forall_cons in Hall as [Hc Hall].
  destruct (code_literal c Hc) as (Hint & Hnc & Hstr).
  destruct (split_no_comma _ Hnc) as [Hs1 Hs2].
  destruct rest as [| c' rest'].
  - cbn [comma_separated]. split; [exact Hstr |].
    unfold parse_excluded. rewrite Hs1. cbn. rewrite Hint. reflexivity.
  - destruct IH as [_ IH]; [discriminate | exact Hall |].
    change (comma_separated (c :: c' :: rest'))
      with (PyStr.str c +:+ "," +:+ comma_separated (c' :: rest')).
    split.
    + destruct (PyStr.str c) as [| a s]; [contradiction | discriminate].
    + unfold parse_excluded in *. rewrite Hs2. cbn [mapM].
      rewrite Hint, IH. reflexivity.
Qed.

(** X24. An exclusion list in the documented form is honoured.  For
    any codes, not none, each of at most three digits, written in decimal
    with commas between them: the pool is the ten codes without the
    listed ones, in their order; the status of the answer is never a
    listed code as long as one of the ten is not listed; and when all ten
    are listed the answer is 500, a listed code. *)
Theorem simulate_random_excludes_listed (codes : list Z) :
  codes ≠ [] → Forall (λ c, 0 ≤ c ≤ 999) codes →
  remaining_codes (comma_separated codes)
  = match filter (λ code, code ∉ codes) possible_codes with
    | [] => [500]
    | l => l
    end
  ∧ ∀ r p d ts rid,
      ∃ resp,
        (simulate_random r p d ts rid (comma_separated codes)).2 = Return resp
        ∧ ((∃ c, c ∈ possible_codes ∧ c ∉ codes) →
           status_code resp ∈ possible_codes ∧ status_code resp ∉ codes)
        ∧ ((∀ c, c ∈ possible_codes → c ∈ codes) → status_code resp = 500).
Proof.
  intros Hne Hall.
  destruct (parse_excluded_comma_separated codes Hne Hall) as [Hstr Hparse].
  assert (Hrem : remaining_codes (comma_separated codes)
                 = match filter (λ code, code ∉ codes) possible_codes with
                   | [] => [500]
                   | l => l
                   end).
  { unfold remaining_codes. rewrite decide_False by exact Hstr.
    rewrite Hparse. destruct (filter _ possible_codes); reflexivity. }
  split; [exact Hrem |]. intros r p d ts rid.
  destruct (simulate_random_returns r p d ts rid (comma_separated codes))
    as (resp & Heq & Hin).
  exists resp. split; [exact Heq |]. rewrite Hrem in Hin. split.
  - intros (c & Hc & Hout).
    assert (Hf : c ∈ filter (λ code, code ∉ codes) possible_codes)
      by (apply list_elem_of_filter; by split).
    destruct (filter (λ code, code ∉ codes) possible_codes) as [| c0 l] eqn:Hfl.
    + by apply elem_of_nil in Hf.
    + rewrite <- Hfl in Hin. apply list_elem_of_filter in Hin as [Hn Hp]. by split.
  - intros Hevery.
    destruct (filter (λ code, code ∉ codes) possible_codes) as [| c0 l] eqn:Hfl.
    + by apply list_elem_of_singleton in Hin.
    + assert (Hc0 : c0 ∈ filter (λ code, code ∉ codes) possible_codes)
        by (rewrite Hfl; left).
      apply list_elem_of_filter in Hc0 as [Hn Hp]. exfalso. by apply Hn, Hevery.
Qed.

Lemma simulate_random_excludes_listed_witness :
  comma_separated [500; 503; 429] = "500,503,429"
  ∧ remaining_codes (comma_separated [500; 503; 429])
    = [400; 401; 403; 404; 422; 502; 504].
Proof.
  split; [vm_compute; reflexivity |].
  rewrite (proj1 (simulate_random_excludes_listed [500; 503; 429]
                    ltac:(discriminate)
                    ltac:(repeat (apply Forall_cons; split; [lia |]);
                          apply Forall_nil_2))).
  vm_compute. reflexivity.
Defined.

End RandomListExtras.
